(** * tBTC v2 bridge: redemption keys, deposit registry, moving funds, addresses

    A shallow embedding of the parts of the repository that the checked
    properties talk about:

    - the TypeScript [MockBridge] (redemption-key derivation and the
      pending / timed-out redemption lookups),
    - the Solidity [MockBridge] (deposit reveal and sweep bookkeeping),
    - the Solidity [MockTBTCVault] (optimistic minting requests),
    - the moving-funds fixtures, read through the Bitcoin transaction codec,
    - the Bitcoin address converter (addresses, hashes and output scripts).

    Byte strings are [list byte]; hexadecimal text is [string]; unsigned
    machine integers are [Z] or [N] with the wrap-around written out. *)

From Stdlib Require Import ZArith NArith Lia List Ascii String Bool.
From Stdlib.Strings Require Import Byte.
From stdpp Require Import base option gmap strings list.

Local Open Scope Z_scope.

(* ===================================================================== *)
(** ** Bytes and hexadecimal text *)
(* ===================================================================== *)

Module Bytes.

(** A number reduced to one octet, the way [Buffer.from([n])] and
    Solidity's [uint8(n)] do. *)
Definition byte_of_N (n : N) : byte :=
  default x00 (Byte.of_N (n mod 256)%N).

Definition byte_of_Z (z : Z) : byte := byte_of_N (Z.to_N (z mod 256)).

Definition Z_of_byte (b : byte) : Z := Z.of_N (Byte.to_N b).

(** Lower-case hexadecimal digit of a value below 16. *)
Definition hexDigit (n : N) : ascii :=
  if (n <? 10)%N then ascii_of_N (48 + n) else ascii_of_N (87 + n).

(** Value of a hexadecimal digit, either case. *)
Definition hexValue (c : ascii) : option N :=
  let n := N_of_ascii c in
  if ((48 <=? n) && (n <=? 57))%N then Some (n - 48)%N
  else if ((97 <=? n) && (n <=? 102))%N then Some (n - 87)%N
  else if ((65 <=? n) && (n <=? 70))%N then Some (n - 55)%N
  else None.

(** [buf.toString("hex")]: two lower-case digits per octet. *)
Fixpoint toHex (bs : list byte) : string :=
  match bs with
  | [] => EmptyString
  | b :: rest =>
      String (hexDigit (Byte.to_N b / 16))
        (String (hexDigit (Byte.to_N b mod 16)) (toHex rest))
  end.

(** [Buffer.from(s, "hex")]: decoding stops silently at the first pair
    that is not two hexadecimal digits; a trailing single digit is
    dropped. *)
Fixpoint Buffer_from_hex (s : string) : list byte :=
  match s with
  | String a (String b rest) =>
      match hexValue a, hexValue b with
      | Some h, Some l => byte_of_N (16 * h + l) :: Buffer_from_hex rest
      | _, _ => []
      end
  | _ => []
  end.

(** Strict decoding: every character a hexadecimal digit, even length. *)
Fixpoint parseHex (s : string) : option (list byte) :=
  match s with
  | EmptyString => Some []
  | String a (String b rest) =>
      match hexValue a, hexValue b with
      | Some h, Some l =>
          match parseHex rest with
          | Some bs => Some (byte_of_N (16 * h + l) :: bs)
          | None => None
          end
      | _, _ => None
      end
  | String _ EmptyString => None
  end.

(** Big-endian value of a byte string ([uint256(bytes32)]). *)
Definition beZ (bs : list byte) : Z :=
  fold_left (fun acc b => 256 * acc + Z_of_byte b) bs 0.

(** Little-endian value of a byte string. *)
Definition leZ (bs : list byte) : Z :=
  fold_right (fun b acc => Z_of_byte b + 256 * acc) 0 bs.

(** [n] as [len] big-endian octets (high bits beyond [len] are lost). *)
Fixpoint beBytes (len : nat) (n : Z) : list byte :=
  match len with
  | O => []
  | S k => beBytes k (n / 256) ++ [byte_of_Z n]
  end.

(** [n] as [len] little-endian octets. *)
Fixpoint leBytes (len : nat) (n : Z) : list byte :=
  match len with
  | O => []
  | S k => byte_of_Z n :: leBytes k (n / 256)
  end.

End Bytes.
Import Bytes.

(* ===================================================================== *)
(** ** Hash functions

    Keccak-256 and SHA-256 come from libraries (ethers / the EVM, the
    bitcoin-spv library).  The models below are stated against this
    interface; [Keccak] and [Sha2] further down give executable instances. *)
(* ===================================================================== *)

Class Keccak256 := {
  keccak256 : list byte -> list byte;
  keccak256_length : forall bs, length (keccak256 bs) = 32%nat
}.

Class Sha256 := {
  sha256 : list byte -> list byte;
  sha256_length : forall bs, length (sha256 bs) = 32%nat
}.

(** Bitcoin's double SHA-256 ([hash256] / [hash256View]). *)
Definition hash256 `{Sha256} (bs : list byte) : list byte := sha256 (sha256 bs).

(* ===================================================================== *)
(** ** The TypeScript mock bridge (redemption requests) *)
(* ===================================================================== *)

Module TsBridge.

(** *** The slice of ethers used by the mock *)

(** [utils.arrayify] on a string: it must match [/^0x[0-9A-Fa-f]*$/] and
    have an even number of digits; anything else throws ([None]). *)
Definition arrayify (s : string) : option (list byte) :=
  match s with
  | String "0" (String "x" digits) => parseHex digits
  | _ => None
  end.

Definition hexlify (bs : list byte) : string :=
  String "0" (String "x" (toHex bs)).

(** The Solidity types the mock packs. *)
Inductive SolType :=
| SolBytes
| SolBytesN (size : nat).

(** [_pack(type, value)] of ethers' [solidityPack]: a fixed-size [bytesN]
    value must have exactly [N] octets. *)
Definition pack1 (t : SolType) (v : string) : option (list byte) :=
  match t with
  | SolBytes => arrayify v
  | SolBytesN size =>
      if (Nat.eqb size 0 || Nat.ltb 32 size)%bool then None
      else
        match arrayify v with
        | Some bs => if Nat.eqb (length bs) size then Some bs else None
        | None => None
        end
  end.

Fixpoint solidityPack (tvs : list (SolType * string)) : option (list byte) :=
  match tvs with
  | [] => Some []
  | (t, v) :: rest =>
      match pack1 t v with
      | Some bs =>
          match solidityPack rest with
          | Some bs' => Some (bs ++ bs')
          | None => None
          end
      | None => None
      end
  end.

Definition solidityKeccak256 `{Keccak256} (tvs : list (SolType * string))
  : option string :=
  match solidityPack tvs with
  | Some bs => Some (hexlify (keccak256 bs))
  | None => None
  end.

(** *** Data *)

Record Identifier := { identifierHex : string }.

Record RedemptionRequest := {
  redeemer : Identifier;
  redeemerOutputScript : string;
  requestedAmount : Z;
  treasuryFee : Z;
  txMaxFee : Z;
  requestedAt : Z
}.

Record UnspentTransactionOutput := {
  transactionHash : string;
  outputIndex : Z;
  value : Z
}.

Record DecomposedRawTransaction := {
  version : string;
  inputs : string;
  outputs : string;
  locktime : string
}.

Record Proof := {
  merkleProof : string;
  txIndexInBlock : Z;
  bitcoinHeaders : string
}.

Record RedemptionProofLogEntry := {
  rp_redemptionTx : DecomposedRawTransaction;
  rp_redemptionProof : Proof;
  rp_mainUtxo : UnspentTransactionOutput;
  rp_walletPublicKey : string
}.

Record RequestRedemptionLogEntry := {
  rr_walletPublicKey : string;
  rr_mainUtxo : UnspentTransactionOutput;
  rr_redeemerOutputScript : string;
  rr_amount : Z
}.

(** The mock's private fields that the redemption paths read or write.
    The two maps are JavaScript [Map]s looked up with the string produced
    by [buildRedemptionKey]; only string keys can ever be hit. *)
Record MockBridge := {
  _difficultyFactor : Z;
  _pendingRedemptions : gmap string RedemptionRequest;
  _timedOutRedemptions : gmap string RedemptionRequest;
  _requestRedemptionLog : list RequestRedemptionLogEntry;
  _redemptionProofLog : list RedemptionProofLogEntry
}.

(** [constants.AddressZero] *)
Definition AddressZero : string :=
  "0x0000000000000000000000000000000000000000".

(** The record returned when the key is not in the map. *)
Definition zeroRedemptionRequest : RedemptionRequest :=
  {| redeemer := {| identifierHex := AddressZero |};
     redeemerOutputScript := "";
     requestedAmount := 0;
     treasuryFee := 0;
     txMaxFee := 0;
     requestedAt := 0 |}.

(** *** Operations *)

(** [Buffer.from([n])]: one octet, the number taken modulo 256. *)
Definition Buffer_from_length (n : nat) : list byte :=
  [byte_of_N (N.of_nat n)].

(** [buildRedemptionKey]; [None] stands for a thrown error. *)
Definition buildRedemptionKey `{Keccak256}
    (walletPubKeyHash redeemerOutputScript : string) : option string :=
  let prefixedWalletPubKeyHash := String "0" (String "x" walletPubKeyHash) in
  let rawOutputScript := Buffer_from_hex redeemerOutputScript in
  let prefixedOutputScript :=
    String "0" (String "x"
      (toHex (Buffer_from_length (length rawOutputScript) ++ rawOutputScript))) in
  match solidityKeccak256 [(SolBytes, prefixedOutputScript)] with
  | Some inner =>
      solidityKeccak256
        [(SolBytesN 32, inner); (SolBytesN 20, prefixedWalletPubKeyHash)]
  | None => None
  end.

(** [redemptions]: the stored request, or zeroed values on a miss. *)
Definition redemptions `{Keccak256}
    (walletPubKeyHash redeemerOutputScript : string)
    (redemptionsMap : gmap string RedemptionRequest)
  : option RedemptionRequest :=
  match buildRedemptionKey walletPubKeyHash redeemerOutputScript with
  | Some redemptionKey =>
      match redemptionsMap !! redemptionKey with
      | Some r => Some r
      | None => Some zeroRedemptionRequest
      end
  | None => None
  end.

(** The two public getters; the promise resolves with [Some r] and
    rejects with [None]. *)
Definition pendingRedemptions `{Keccak256} (b : MockBridge)
    (walletPubKeyHash redeemerOutputScript : string) : option RedemptionRequest :=
  redemptions walletPubKeyHash redeemerOutputScript (_pendingRedemptions b).

Definition timedOutRedemptions `{Keccak256} (b : MockBridge)
    (walletPubKeyHash redeemerOutputScript : string) : option RedemptionRequest :=
  redemptions walletPubKeyHash redeemerOutputScript (_timedOutRedemptions b).

Definition setPendingRedemptions (v : gmap string RedemptionRequest)
    (b : MockBridge) : MockBridge :=
  {| _difficultyFactor := _difficultyFactor b;
     _pendingRedemptions := v;
     _timedOutRedemptions := _timedOutRedemptions b;
     _requestRedemptionLog := _requestRedemptionLog b;
     _redemptionProofLog := _redemptionProofLog b |}.

Definition setTimedOutRedemptions (v : gmap string RedemptionRequest)
    (b : MockBridge) : MockBridge :=
  {| _difficultyFactor := _difficultyFactor b;
     _pendingRedemptions := _pendingRedemptions b;
     _timedOutRedemptions := v;
     _requestRedemptionLog := _requestRedemptionLog b;
     _redemptionProofLog := _redemptionProofLog b |}.

(** The mock's [submitRedemptionProof] only appends to its log. *)
Definition submitRedemptionProof (e : RedemptionProofLogEntry)
    (b : MockBridge) : MockBridge :=
  {| _difficultyFactor := _difficultyFactor b;
     _pendingRedemptions := _pendingRedemptions b;
     _timedOutRedemptions := _timedOutRedemptions b;
     _requestRedemptionLog := _requestRedemptionLog b;
     _redemptionProofLog := _redemptionProofLog b ++ [e] |}.

(** The mock's [requestRedemption] only appends to its log. *)
Definition requestRedemption (e : RequestRedemptionLogEntry)
    (b : MockBridge) : MockBridge :=
  {| _difficultyFactor := _difficultyFactor b;
     _pendingRedemptions := _pendingRedemptions b;
     _timedOutRedemptions := _timedOutRedemptions b;
     _requestRedemptionLog := _requestRedemptionLog b ++ [e];
     _redemptionProofLog := _redemptionProofLog b |}.

(** The octets fed to the inner hash: one length octet, then the raw
    script. *)
Definition prefixedScript (raw : list byte) : list byte :=
  byte_of_N (N.of_nat (length raw)) :: raw.

(** A hash does not collide on two given inputs. *)
Definition collisionFree `{Keccak256} (a b : list byte) : Prop :=
  keccak256 a = keccak256 b -> a = b.


End TsBridge.

(* ===================================================================== *)
(** ** Outcome of a contract call *)
(* ===================================================================== *)

(** A call either returns or reverts with a reason; a reverted call leaves
    the contract storage as it was. *)
Inductive result (A : Type) :=
| Ok (a : A)
| Revert (reason : string).
Arguments Ok {A} a.
Arguments Revert {A} reason.

Definition bind {A B} (r : result A) (k : A -> result B) : result B :=
  match r with
  | Ok a => k a
  | Revert m => Revert m
  end.

Definition require (cond : bool) (reason : string) : result unit :=
  if cond then Ok tt else Revert reason.

Notation "'let*' x := r 'in' k" := (bind r (fun x => k))
  (at level 10, x name, r at level 100, k at level 200).

Notation "'check' c 'or' m ;; k" := (bind (require c m) (fun _ => k))
  (at level 10, c at level 100, m at level 0, k at level 200).

Definition succeeded {A} (r : result A) : bool :=
  match r with Ok _ => true | Revert _ => false end.

(* ===================================================================== *)
(** ** The Bitcoin transaction codec (bitcoin-spv [BTCUtils])

    The library functions the Solidity mock calls on the funding
    transaction's output vector, and that section 4.1 of the specification
    describes. *)
(* ===================================================================== *)

Module BTCUtils.

(** [ERR_BAD_ARG] is reported here as [None]. *)

(** [determineVarIntDataLengthAt]: number of octets following the tag. *)
Definition determineVarIntDataLength (flag : byte) : nat :=
  match flag with
  | xff => 8
  | xfe => 4
  | xfd => 2
  | _ => 0
  end.

(** [bs.slice(start, len)]; out of range reverts. *)
Definition slice (bs : list byte) (start len : nat) : result (list byte) :=
  if (start + len <=? length bs)%nat
  then Ok (firstn len (skipn start bs))
  else Revert "Slice out of bounds".

(** [parseVarIntAt(b, at)]: [(dataLen, number)]; indexing past the end
    panics, a truncated integer yields [ERR_BAD_ARG]. *)
Definition parseVarIntAt (b : list byte) (at_ : nat)
  : result (option (nat * Z)) :=
  match nth_error b at_ with
  | None => Revert "Panic: array index out of bounds"
  | Some flag =>
      let dataLen := determineVarIntDataLength flag in
      if Nat.eqb dataLen 0 then Ok (Some (0%nat, Z_of_byte flag))
      else if (length b <? 1 + dataLen + at_)%nat then Ok None
      else Ok (Some (dataLen, leZ (firstn dataLen (skipn (1 + at_) b))))
  end.

Definition parseVarInt (b : list byte) := parseVarIntAt b 0.

(** [determineOutputLengthAt(output, at)]: 8 octets of value, the
    script-length integer, the script. *)
Definition determineOutputLengthAt (output : list byte) (at_ : nat)
  : result (option nat) :=
  if (length output <? 9 + at_)%nat then Ok None
  else
    let* r := parseVarIntAt output (8 + at_) in
    match r with
    | None => Ok None
    | Some (varIntDataLen, scriptPubkeyLen) =>
        Ok (Some (8 + 1 + varIntDataLen + Z.to_nat scriptPubkeyLen)%nat)
    end.

(** The loop of [extractOutputAtIndex]: skip [index] outputs. *)
Fixpoint skipOutputs (vout : list byte) (offset : nat) (index : nat)
  : result nat :=
  match index with
  | O => Ok offset
  | S k =>
      let* len := determineOutputLengthAt vout offset in
      match len with
      | None => Revert "Bad VarInt in scriptPubkey"
      | Some l => skipOutputs vout (offset + l) k
      end
  end.

Definition extractOutputAtIndex (vout : list byte) (index : Z)
  : result (list byte) :=
  let* r := parseVarInt vout in
  match r with
  | None => Revert "Read overrun during VarInt parsing"
  | Some (varIntDataLen, nOuts) =>
      check (index <? nOuts) or "Vout read overrun" ;;
      let* offset := skipOutputs vout (1 + varIntDataLen) (Z.to_nat index) in
      let* len := determineOutputLengthAt vout offset in
      match len with
      | None => Revert "Bad VarInt in scriptPubkey"
      | Some l => slice vout offset l
      end
  end.

(** [extractValue]: the first 8 octets, little-endian, as [uint64]. *)
Definition extractValue (output : list byte) : result Z :=
  let* le := slice output 0 8 in
  Ok (leZ le).

(** The script of an output: what follows the value and the length. *)
Definition extractScript (output : list byte) : result (list byte) :=
  let* r := parseVarIntAt output 8 in
  match r with
  | None => Revert "Bad VarInt in scriptPubkey"
  | Some (varIntDataLen, scriptLen) =>
      slice output (9 + varIntDataLen) (Z.to_nat scriptLen)
  end.

End BTCUtils.

(* ===================================================================== *)
(** ** The Solidity mock bridge (deposit registry) *)
(* ===================================================================== *)

Module SolBridge.

Definition uint32_max : Z := 2 ^ 32.
Definition uint64_max : Z := 2 ^ 64.

(** Explicit conversion [uint32(x)]: the low 32 bits. *)
Definition uint32 (x : Z) : Z := x mod uint32_max.

(** [IBridgeTypes.BitcoinTxInfo] *)
Record BitcoinTxInfo := {
  version : list byte;
  inputVector : list byte;
  outputVector : list byte;
  locktime : list byte
}.

(** [IBridgeTypes.DepositRevealInfo] *)
Record DepositRevealInfo := {
  fundingOutputIndex : Z;
  blindingFactor : list byte;
  walletPubKeyHash : list byte;
  refundPubKeyHash : list byte;
  refundLocktime : list byte;
  reveal_vault : Z
}.

(** [IBridgeTypes.DepositRequest] *)
Record DepositRequest := {
  depositor : Z;
  amount : Z;
  revealedAt : Z;
  vault : Z;
  treasuryFee : Z;
  sweptAt : Z;
  extraData : list byte
}.

(** A storage slot never written reads as zeroes. *)
Definition zeroDepositRequest : DepositRequest :=
  {| depositor := 0; amount := 0; revealedAt := 0; vault := 0;
     treasuryFee := 0; sweptAt := 0; extraData := repeat x00 32 |}.

(** Contract storage. *)
Record MockBridge := {
  _deposits : gmap Z DepositRequest;
  _depositTreasuryFeeDivisor : Z;
  _depositTxMaxFee : Z
}.

(** Storage right after deployment. *)
Definition initial : MockBridge :=
  {| _deposits := ∅;
     _depositTreasuryFeeDivisor := 100;
     _depositTxMaxFee := 1 * 10 ^ 7 |}.

(** The transaction context a call sees. *)
Record Env := {
  msg_sender : Z;
  block_timestamp : Z
}.

Inductive Event :=
| DepositRevealed (depositKey : Z).

(** [_deposits[depositKey]] read. *)
Definition deposits (st : MockBridge) (depositKey : Z) : DepositRequest :=
  default zeroDepositRequest (_deposits st !! depositKey).

Definition set_deposit (depositKey : Z) (d : DepositRequest)
    (st : MockBridge) : MockBridge :=
  {| _deposits := <[depositKey := d]> (_deposits st);
     _depositTreasuryFeeDivisor := _depositTreasuryFeeDivisor st;
     _depositTxMaxFee := _depositTxMaxFee st |}.

Definition with_sweptAt (t : Z) (d : DepositRequest) : DepositRequest :=
  {| depositor := depositor d; amount := amount d;
     revealedAt := revealedAt d; vault := vault d;
     treasuryFee := treasuryFee d; sweptAt := t;
     extraData := extraData d |}.

Section WithHashes.
Context `{Keccak256} `{Sha256}.

(** [hash256View] of the four packed transaction fields. *)
Definition fundingTxHashOf (fundingTx : BitcoinTxInfo) : list byte :=
  hash256 (version fundingTx ++ inputVector fundingTx
             ++ outputVector fundingTx ++ locktime fundingTx).

(** [uint256(keccak256(abi.encodePacked(fundingTxHash, fundingOutputIndex)))];
    the [uint32] index is packed as 4 big-endian octets. *)
Definition depositKeyOf (fundingTx : BitcoinTxInfo) (index : Z) : Z :=
  beZ (keccak256 (fundingTxHashOf fundingTx ++ beBytes 4 index)).

Definition revealDepositWithExtraData (env : Env)
    (fundingTx : BitcoinTxInfo) (reveal : DepositRevealInfo)
    (extra : list byte) (st : MockBridge)
  : result (MockBridge * list Event) :=
  let depositKey := depositKeyOf fundingTx (fundingOutputIndex reveal) in
  check (revealedAt (deposits st depositKey) =? 0)
    or "Deposit already revealed" ;;
  let* fundingOutput := BTCUtils.extractOutputAtIndex
                     (outputVector fundingTx) (fundingOutputIndex reveal) in
  let* fundingOutputAmount := BTCUtils.extractValue fundingOutput in
  let request :=
    {| depositor := msg_sender env;
       amount := fundingOutputAmount;
       revealedAt := uint32 (block_timestamp env);
       vault := reveal_vault reveal;
       treasuryFee :=
         if _depositTreasuryFeeDivisor st >? 0
         then fundingOutputAmount / _depositTreasuryFeeDivisor st
         else 0;
       sweptAt := 0;
       extraData := extra |} in
  Ok (set_deposit depositKey request st, [DepositRevealed depositKey]).

(** No record is marked swept without being marked revealed. *)
Definition sweptImpliesRevealed (st : MockBridge) : Prop :=
  forall k, sweptAt (deposits st k) <> 0 -> revealedAt (deposits st k) <> 0.

End WithHashes.

Definition sweepDeposit (env : Env) (depositKey : Z) (st : MockBridge)
  : result (MockBridge * list Event) :=
  check (negb (revealedAt (deposits st depositKey) =? 0))
    or "Deposit not revealed" ;;
  check (sweptAt (deposits st depositKey) =? 0) or "Deposit already swept" ;;
  Ok (set_deposit depositKey
        (with_sweptAt (uint32 (block_timestamp env)) (deposits st depositKey))
        st, []).

Definition setDepositTreasuryFeeDivisor (v : Z) (st : MockBridge)
  : result (MockBridge * list Event) :=
  Ok ({| _deposits := _deposits st;
         _depositTreasuryFeeDivisor := v;
         _depositTxMaxFee := _depositTxMaxFee st |}, []).

Definition setDepositTxMaxFee (v : Z) (st : MockBridge)
  : result (MockBridge * list Event) :=
  Ok ({| _deposits := _deposits st;
         _depositTreasuryFeeDivisor := _depositTreasuryFeeDivisor st;
         _depositTxMaxFee := v |}, []).

(** [depositParameters()] as the mock answers it. *)
Definition depositParameters (st : MockBridge) : Z * Z * Z * Z :=
  (0, 0, _depositTxMaxFee st, 0).

(** The state-changing entry points. *)
Inductive Call :=
| CallReveal (fundingTx : BitcoinTxInfo) (reveal : DepositRevealInfo)
             (extra : list byte)
| CallSweep (depositKey : Z)
| CallSetDivisor (v : Z)
| CallSetTxMaxFee (v : Z).

Section Transactions.
Context `{Keccak256} `{Sha256}.

Definition call (env : Env) (c : Call) (st : MockBridge)
  : result (MockBridge * list Event) :=
  match c with
  | CallReveal fundingTx reveal extra =>
      revealDepositWithExtraData env fundingTx reveal extra st
  | CallSweep depositKey => sweepDeposit env depositKey st
  | CallSetDivisor v => setDepositTreasuryFeeDivisor v st
  | CallSetTxMaxFee v => setDepositTxMaxFee v st
  end.

(** One transaction: the storage after it, reverted calls leaving the
    storage untouched. *)
Definition transact (env : Env) (c : Call) (st : MockBridge) : MockBridge :=
  match call env c st with
  | Ok (st', _) => st'
  | Revert _ => st
  end.

(** A sequence of transactions, oldest first. *)
Fixpoint run (txs : list (Env * Call)) (st : MockBridge) : MockBridge :=
  match txs with
  | [] => st
  | (env, c) :: rest => run rest (transact env c st)
  end.

(** Storage reachable from deployment by any sequence of transactions. *)
Inductive reachable : MockBridge -> Prop :=
| reachable_initial : reachable initial
| reachable_step env c st :
    reachable st -> reachable (transact env c st).

End Transactions.

End SolBridge.

(* ===================================================================== *)
(** ** The Solidity mock vault (optimistic minting requests) *)
(* ===================================================================== *)

Module SolVault.
Import SolBridge.

(** Explicit conversion [uint64(x)]: the low 64 bits. *)
Definition uint64 (x : Z) : Z := x mod uint64_max.

(** [MockTBTCVault.Request] *)
Record Request := {
  requestedAt : Z;
  finalizedAt : Z
}.

(** A storage slot never written reads as zeroes. *)
Definition zeroRequest : Request := {| requestedAt := 0; finalizedAt := 0 |}.

(** Contract storage. *)
Record MockTBTCVault := {
  _requests : gmap Z Request;
  optimisticMintingFeeDivisor : Z
}.

(** Storage right after deployment. *)
Definition initial : MockTBTCVault :=
  {| _requests := ∅; optimisticMintingFeeDivisor := 100 |}.

(** [_requests[depositKey]] read. *)
Definition requests (st : MockTBTCVault) (depositKey : Z) : Request :=
  default zeroRequest (_requests st !! depositKey).

Definition set_request (depositKey : Z) (r : Request) (st : MockTBTCVault)
  : MockTBTCVault :=
  {| _requests := <[depositKey := r]> (_requests st);
     optimisticMintingFeeDivisor := optimisticMintingFeeDivisor st |}.

(** [optimisticMintingRequests(depositKey)]: the two time stamps; the
    storage is left alone. *)
Definition optimisticMintingRequests (st : MockTBTCVault) (depositKey : Z)
  : Z * Z :=
  let request := requests st depositKey in
  (requestedAt request, finalizedAt request).

Definition createOptimisticMintingRequest (env : Env) (depositKey : Z)
    (st : MockTBTCVault) : result MockTBTCVault :=
  check (requestedAt (requests st depositKey) =? 0)
    or "Request already exists" ;;
  Ok (set_request depositKey
        {| requestedAt := uint64 (block_timestamp env);
           finalizedAt := finalizedAt (requests st depositKey) |} st).

Definition finalizeOptimisticMintingRequest (env : Env) (depositKey : Z)
    (st : MockTBTCVault) : result MockTBTCVault :=
  check (negb (requestedAt (requests st depositKey) =? 0))
    or "Request does not exist" ;;
  check (finalizedAt (requests st depositKey) =? 0)
    or "Request already finalized" ;;
  Ok (set_request depositKey
        {| requestedAt := requestedAt (requests st depositKey);
           finalizedAt := uint64 (block_timestamp env) |} st).

Definition setOptimisticMintingFeeDivisor (value : Z) (st : MockTBTCVault)
  : result MockTBTCVault :=
  Ok {| _requests := _requests st; optimisticMintingFeeDivisor := value |}.

(** The state-changing entry points. *)
Inductive Call :=
| CallCreate (depositKey : Z)
| CallFinalize (depositKey : Z)
| CallSetFeeDivisor (value : Z).

Definition call (env : Env) (c : Call) (st : MockTBTCVault)
  : result MockTBTCVault :=
  match c with
  | CallCreate depositKey => createOptimisticMintingRequest env depositKey st
  | CallFinalize depositKey =>
      finalizeOptimisticMintingRequest env depositKey st
  | CallSetFeeDivisor value => setOptimisticMintingFeeDivisor value st
  end.

(** One transaction: a reverted call leaves the storage untouched. *)
Definition transact (env : Env) (c : Call) (st : MockTBTCVault)
  : MockTBTCVault :=
  match call env c st with
  | Ok st' => st'
  | Revert _ => st
  end.

(** A sequence of transactions, oldest first. *)
Fixpoint run (txs : list (Env * Call)) (st : MockTBTCVault) : MockTBTCVault :=
  match txs with
  | [] => st
  | (env, c) :: rest => run rest (transact env c st)
  end.

(** Storage reachable from deployment by any sequence of transactions. *)
Inductive reachable : MockTBTCVault -> Prop :=
| reachable_initial : reachable initial
| reachable_step env c st :
    reachable st -> reachable (transact env c st).

End SolVault.
#[global] Instance byte_eq_decision : EqDecision byte := byte_eq_dec.
#[global] Program Instance byte_countable : Countable byte :=
  inj_countable Byte.to_N Byte.of_N _.
Next Obligation. intros b. apply Byte.of_to_N. Qed.

(* ===================================================================== *)
(** ** The bridge core as the specification describes it

    The bridge contract itself is not among the sources; only its test
    fixtures and a system test are.  The processors below follow sections
    3, 4.1, 4.4 and 4.6 of the specification. *)
(* ===================================================================== *)

Module Core.

(** Section 7's error taxonomy; [OtherRejection] stands for a failure the
    specification describes without naming it. *)
Inductive Error :=
| MalformedTransaction | InvalidMerkleProof | UnexpectedDifficulty
| InsufficientConfirmations | UnknownInput | AlreadySwept | ExcessiveFee
| DuplicateRedemption | BelowDustThreshold | UnsupportedScript
| IncompleteRedemption | IllegalOutputType | UnevenDistribution
| IllegalWalletState | NotFraud
| OtherRejection.

Inductive outcome (A : Type) :=
| Accepted (a : A)
| Rejected (e : Error).
Arguments Accepted {A} a.
Arguments Rejected {A} e.

Definition andThen {A B} (o : outcome A) (k : A -> outcome B) : outcome B :=
  match o with
  | Accepted a => k a
  | Rejected e => Rejected e
  end.

Definition ensure (cond : bool) (e : Error) : outcome unit :=
  if cond then Accepted tt else Rejected e.

Notation "'try' x := o 'in' k" := (andThen o (fun x => k))
  (at level 10, x name, o at level 100, k at level 200).
Notation "'ensure!' c 'else' e ;; k" := (andThen (ensure c e) (fun _ => k))
  (at level 10, c at level 100, e at level 0, k at level 200).

Inductive WalletState := Live | MovingFunds | Closing | Closed | Terminated.

Definition WalletState_eqb (a b : WalletState) : bool :=
  match a, b with
  | Live, Live | MovingFunds, MovingFunds | Closing, Closing
  | Closed, Closed | Terminated, Terminated => true
  | _, _ => false
  end.

Record Utxo := {
  txHash : list byte;
  txOutputIndex : Z;
  txOutputValue : Z
}.

Record Wallet := {
  state : WalletState;
  mainUtxo : option Utxo
}.

Record Deposit := {
  depositor : Z;
  vault : option Z;
  amount : Z;
  treasuryFee : Z;
  revealedAt : Z;
  sweptAt : Z
}.

Record MovedFundsMergeRequest := {
  mergeWallet : list byte;
  mergeTxHash : list byte;
  mergeOutputIndex : Z;
  mergeValue : Z;
  mergePending : bool
}.

Record BitcoinTxInfo := {
  version : list byte;
  inputVector : list byte;
  outputVector : list byte;
  locktime : list byte
}.

Record Proof := {
  merkleProof : list byte;
  txIndexInBlock : Z;
  bitcoinHeaders : list byte
}.

(** Registry state; [balances] is the ledger collaborator's view of what
    the core credits. *)
Record Bridge := {
  wallets : gmap (list byte) Wallet;
  deposits : gmap (list byte * Z) Deposit;
  mergeRequests : list MovedFundsMergeRequest;
  balances : gmap Z Z;
  sweepTxMaxFee : Z
}.

Definition balanceOf (b : Bridge) (who : Z) : Z :=
  default 0 (balances b !! who).

(** *** 4.1 Transaction codec *)

Definition malformed {A} (r : result A) : outcome A :=
  match r with
  | Ok a => Accepted a
  | Revert _ => Rejected MalformedTransaction
  end.

(** A parsed output: value and script. *)
Record TxOutput := { outValue : Z; outScript : list byte }.

Definition extractOutputAtIndex (vector : list byte) (i : Z) : outcome TxOutput :=
  try output := malformed (BTCUtils.extractOutputAtIndex vector i) in
  try v := malformed (BTCUtils.extractValue output) in
  try s := malformed (BTCUtils.extractScript output) in
  Accepted {| outValue := v; outScript := s |}.

Fixpoint traverse {A B} (f : A -> outcome B) (l : list A) : outcome (list B) :=
  match l with
  | [] => Accepted []
  | a :: rest =>
      try b := f a in
      try bs := traverse f rest in
      Accepted (b :: bs)
  end.

Definition countOf (vector : list byte) : outcome Z :=
  try r := malformed (BTCUtils.parseVarInt vector) in
  match r with
  | Some (_, n) => Accepted n
  | None => Rejected MalformedTransaction
  end.

Definition parseOutputs (vector : list byte) : outcome (list TxOutput) :=
  try n := countOf vector in
  traverse (extractOutputAtIndex vector)
           (map Z.of_nat (seq 0 (Z.to_nat n))).

(** A parsed input: the outpoint it spends. *)
Record TxInput := { prevTxHash : list byte; prevIndex : Z }.

(** Inputs are: 32-byte transaction id, 4-byte little-endian output index,
    length-prefixed script, 4-byte sequence. *)
Fixpoint parseInputsFrom (vector : list byte) (offset : nat) (count : nat)
  : outcome (list TxInput) :=
  match count with
  | O => if Nat.eqb offset (length vector) then Accepted []
         else Rejected MalformedTransaction
  | S k =>
      try outpoint := malformed (BTCUtils.slice vector offset 36) in
      try r := malformed (BTCUtils.parseVarIntAt vector (offset + 36)) in
      match r with
      | None => Rejected MalformedTransaction
      | Some (varIntDataLen, scriptLen) =>
          let next := (offset + 36 + 1 + varIntDataLen
                       + Z.to_nat scriptLen + 4)%nat in
          ensure! (next <=? length vector)%nat else MalformedTransaction ;;
          try rest := parseInputsFrom vector next k in
          Accepted ({| prevTxHash := firstn 32 outpoint;
                       prevIndex := leZ (skipn 32 outpoint) |} :: rest)
      end
  end.

Definition parseInputs (vector : list byte) : outcome (list TxInput) :=
  try r := malformed (BTCUtils.parseVarInt vector) in
  match r with
  | Some (varIntDataLen, n) =>
      parseInputsFrom vector (1 + varIntDataLen) (Z.to_nat n)
  | None => Rejected MalformedTransaction
  end.

(** [computeTxId]: double SHA-256 of the four serialized fields, kept in
    the byte order it is hashed in. *)
Definition computeTxId `{Sha256} (tx : BitcoinTxInfo) : list byte :=
  hash256 (version tx ++ inputVector tx ++ outputVector tx ++ locktime tx).

(** *** Output script patterns *)

Inductive ScriptType :=
| P2PKH (h : list byte)
| P2WPKH (h : list byte)
| P2SH (h : list byte)
| P2WSH (h : list byte)
| NonStandard.

Definition classify (script : list byte) : ScriptType :=
  match script with
  | x76 :: xa9 :: x14 :: rest =>
      if (Nat.eqb (length rest) 22
          && bool_decide (skipn 20 rest = [x88; xac]))%bool
      then P2PKH (firstn 20 rest) else NonStandard
  | x00 :: x14 :: rest =>
      if Nat.eqb (length rest) 20 then P2WPKH rest else NonStandard
  | xa9 :: x14 :: rest =>
      if (Nat.eqb (length rest) 21 && bool_decide (skipn 20 rest = [x87]))%bool
      then P2SH (firstn 20 rest) else NonStandard
  | x00 :: x20 :: rest =>
      if Nat.eqb (length rest) 32 then P2WSH rest else NonStandard
  | _ => NonStandard
  end.

(** The public key hash an output pays to, when it is P2PKH or P2WPKH. *)
Definition targetOf (o : TxOutput) : option (list byte) :=
  match classify (outScript o) with
  | P2PKH h | P2WPKH h => Some h
  | _ => None
  end.

Definition isScriptHash (o : TxOutput) : bool :=
  match classify (outScript o) with
  | P2SH _ | P2WSH _ => true
  | _ => false
  end.

Definition sumZ (l : list Z) : Z := fold_right Z.add 0 l.

(** The per-wallet quotient and the indivisible remainder of a list of
    output values. *)
Definition quotient (values : list Z) : Z :=
  sumZ values / Z.of_nat (length values).
Definition remainder (values : list Z) : Z :=
  sumZ values mod Z.of_nat (length values).

(** *** 4.6 Moving funds *)

(** "The single input must equal mainUtxo". *)
Definition spendsExactly (utxo : Utxo) (ins : list TxInput) : bool :=
  match ins with
  | [i] => bool_decide (prevTxHash i = txHash utxo)
           && (prevIndex i =? txOutputIndex utxo)
  | _ => false
  end.

(** Modelled from the spec: "amounts must be equal, with any indivisible
    remainder (total minus tx fee, divided by target count) assigned to the
    last output".  The bridge's own check is not among the sources. *)
Definition evenWithRemainderOnLast (values : list Z) : bool :=
  let n := Z.of_nat (length values) in
  let total := sumZ values in
  let q := total / n in
  let r := total mod n in
  bool_decide (values = repeat q (length values - 1) ++ [q + r]).

(** Modelled from the spec: the same rule with the position of the
    remainder left open, as the fixture
    [MultipleTargetWalletsAndIndivisibleAmount] ("one wallet obtains the
    remainder") requires: every output pays at least the quotient and at
    most the quotient plus the remainder. *)
Definition evenUpToRemainder (values : list Z) : bool :=
  let n := Z.of_nat (length values) in
  let total := sumZ values in
  let q := total / n in
  let r := total mod n in
  forallb (fun v => (q <=? v) && (v <=? q + r)) values.

Section Processor.
Context `{Sha256}.
(** The SPV proof verifier of section 4.2, taken as given. *)
Variable verify : list byte -> Proof -> outcome unit.
(** The rule deciding whether output values are evenly distributed. *)
Variable evenly : list Z -> bool.

Definition walletOf (b : Bridge) (walletPubKeyHash : list byte) : outcome Wallet :=
  match wallets b !! walletPubKeyHash with
  | Some w => Accepted w
  | None => Rejected IllegalWalletState
  end.

(** Modelled from the spec: section 4.6, [submitMovingFundsProof]; the
    checks run in the order the section lists them. *)
Definition submitMovingFundsProof (walletPubKeyHash : list byte)
    (movingFundsTx : BitcoinTxInfo) (proof : Proof) (utxo : Utxo)
    (targetWalletsCommitment : list (list byte)) (b : Bridge)
  : outcome Bridge :=
  try w := walletOf b walletPubKeyHash in
  ensure! (WalletState_eqb (state w) MovingFunds) else IllegalWalletState ;;
  let txId := computeTxId movingFundsTx in
  try verified := verify txId proof in
  try ins := parseInputs (inputVector movingFundsTx) in
  try outs := parseOutputs (outputVector movingFundsTx) in
  ensure! (spendsExactly utxo ins) else OtherRejection ;;
  ensure! (forallb (fun o => bool_decide (is_Some (targetOf o))) outs)
    else IllegalOutputType ;;
  ensure! (bool_decide (map targetOf outs = map Some targetWalletsCommitment))
    else OtherRejection ;;
  ensure! (evenly (map outValue outs)) else UnevenDistribution ;;
  Accepted
    {| wallets :=
         <[walletPubKeyHash := {| state := Closing; mainUtxo := None |}]>
           (wallets b);
       deposits := deposits b;
       mergeRequests :=
         mergeRequests b ++
           imap (fun i o =>
                   {| mergeWallet := default [] (targetOf o);
                      mergeTxHash := txId;
                      mergeOutputIndex := Z.of_nat i;
                      mergeValue := outValue o;
                      mergePending := true |}) outs;
       balances := balances b;
       sweepTxMaxFee := sweepTxMaxFee b |}.

(** *** 4.4 Deposit sweep *)

(** What a sweep input refers to. *)
Inductive SweepInput :=
| SpendsMainUtxo (u : Utxo)
| SpendsDeposit (key : list byte * Z) (d : Deposit).

(** "Each input except an optional one matching priorMainUtxo must
    reference a previously revealed, unswept Deposit". *)
Definition resolveInput (b : Bridge) (w : Wallet) (priorMainUtxo : Utxo)
    (i : TxInput) : outcome SweepInput :=
  let isMain :=
    match mainUtxo w with
    | Some u =>
        bool_decide (txHash u = txHash priorMainUtxo)
        && (txOutputIndex u =? txOutputIndex priorMainUtxo)
        && (txOutputValue u =? txOutputValue priorMainUtxo)
        && bool_decide (prevTxHash i = txHash u)
        && (prevIndex i =? txOutputIndex u)
    | None => false
    end in
  if isMain then Accepted (SpendsMainUtxo priorMainUtxo)
  else
    match deposits b !! (prevTxHash i, prevIndex i) with
    | None => Rejected UnknownInput
    | Some d =>
        ensure! (negb (revealedAt d =? 0)) else UnknownInput ;;
        ensure! (sweptAt d =? 0) else AlreadySwept ;;
        Accepted (SpendsDeposit (prevTxHash i, prevIndex i) d)
    end.

Definition inputValue (i : SweepInput) : Z :=
  match i with
  | SpendsMainUtxo u => txOutputValue u
  | SpendsDeposit _ d => amount d
  end.

Definition sweptDeposits (ins : list SweepInput)
  : list ((list byte * Z) * Deposit) :=
  flat_map (fun i => match i with
                     | SpendsDeposit k d => [(k, d)]
                     | SpendsMainUtxo _ => []
                     end) ins.

Definition netValue (d : Deposit) : Z := amount d - treasuryFee d.

(** The fee split over the swept deposits in proportion to their net
    value; what integer division leaves over goes to the last one. *)
Fixpoint feeShares (fee totalNet : Z) (nets : list Z) (given : Z) : list Z :=
  match nets with
  | [] => []
  | [_] => [fee - given]
  | n :: rest =>
      let share := fee * n / totalNet in
      share :: feeShares fee totalNet rest (given + share)
  end.

Definition credit (who : Z) (v : Z) (bal : gmap Z Z) : gmap Z Z :=
  <[who := default 0 (bal !! who) + v]> bal.

Definition markSwept (now : Z) (d : Deposit) : Deposit :=
  {| depositor := depositor d; vault := vault d; amount := amount d;
     treasuryFee := treasuryFee d; revealedAt := revealedAt d;
     sweptAt := now |}.

(** Modelled from the spec: section 4.4, [submitDepositSweepProof]; the
    bridge's own sweep processor is not among the sources. *)
Definition submitDepositSweepProof (now : Z) (walletPubKeyHash : list byte)
    (sweepTx : BitcoinTxInfo) (proof : Proof) (priorMainUtxo : Utxo)
    (b : Bridge) : outcome Bridge :=
  try w := walletOf b walletPubKeyHash in
  let txId := computeTxId sweepTx in
  try verified := verify txId proof in
  try ins := parseInputs (inputVector sweepTx) in
  try outs := parseOutputs (outputVector sweepTx) in
  try resolved := traverse (resolveInput b w priorMainUtxo) ins in
  match outs with
  | [out] =>
      let fee := sumZ (map inputValue resolved) - outValue out in
      ensure! (0 <=? fee) else OtherRejection ;;
      ensure! (fee <=? sweepTxMaxFee b) else ExcessiveFee ;;
      let swept := sweptDeposits resolved in
      let nets := map (fun kd => netValue (snd kd)) swept in
      let shares := feeShares fee (sumZ nets) nets 0 in
      Accepted
        {| wallets :=
             <[walletPubKeyHash :=
                 {| state := state w;
                    mainUtxo := Some {| txHash := txId;
                                        txOutputIndex := 0;
                                        txOutputValue := outValue out |} |}]>
               (wallets b);
           deposits :=
             fold_left (fun m kd => <[fst kd := markSwept now (snd kd)]> m)
                       swept (deposits b);
           mergeRequests := mergeRequests b;
           balances :=
             fold_left (fun bal ds =>
                          credit (depositor (snd (fst ds)))
                                 (netValue (snd (fst ds)) - snd ds) bal)
                       (combine swept shares) (balances b);
           sweepTxMaxFee := sweepTxMaxFee b |}
  | _ => Rejected OtherRejection
  end.

End Processor.

End Core.

Module Fixtures.
Import Core.

Definition hex (s : string) : list byte := Buffer_from_hex s.

(** [MovingFundsTestData] *)
Record MovingFundsTestData := {
  wallet_ecdsaWalletID : list byte;
  wallet_pubKeyHash : list byte;
  wallet_state : WalletState;
  targetWalletsCommitment : list (list byte);
  fixtureMainUtxo : Utxo;
  movingFundsTx_hash : list byte;
  movingFundsTx : BitcoinTxInfo;
  movingFundsProof : Proof;
  chainDifficulty : Z
}.

(** [SingleTargetWallet] *)
Definition SingleTargetWallet : MovingFundsTestData :=
  {| wallet_ecdsaWalletID :=
       hex "4ad6b3ccbca81645865d8d0d575797a15528e98ced22f29a6f906d3259569863";
     wallet_pubKeyHash := hex "7ac2d9378a1c47e589dfb8095ca95ed2140d2726";
     wallet_state := MovingFunds;
     targetWalletsCommitment :=
       [ hex "2cd680318747b720d67bf4246eb7403b476adb34" ];
     fixtureMainUtxo :=
       {| txHash :=
            hex "f8e3d585b2b9b7033e1c37ffca2e3bcc4bbc2c3a64527641f58d872213e5c189";
          txOutputIndex := 1;
          txOutputValue := 1473114 |};
     movingFundsTx_hash :=
       hex "e55529ca9710bc1f3477dbd826286efe0e5885afeccdfc629050787e0dc078d0";
     movingFundsTx :=
       {| version := hex "01000000";
          inputVector :=
            hex ("01f8e3d585b2b9b7033e1c37ffca2e3bcc4bbc2c3a64527641f58d872213e5c1"
            +:+ "890100000000ffffffff");
          outputVector :=
            hex ("0132571600000000001976a9142cd680318747b720d67bf4246eb7403b476adb"
            +:+ "3488ac");
          locktime := hex "00000000" |};
     movingFundsProof :=
       {| merkleProof :=
            hex ("05ad8fc3f78f756b9b40b72a0eae0c342712193637a8b620d7ae7a4e9898fcd5"
            +:+ "31e112414e373eaab60bccf7056cb5508a7a8c981bdc72d05cf3a66b933495c2"
            +:+ "dc8c20b2727e64a216d9c3ede995713f4793b047c048ea38872428f3196e4697"
            +:+ "a61927e6ec044b52e82b32bb1835da47e43b78971f79c61d73821f1cff269f33");
          txIndexInBlock := 1;
          bitcoinHeaders :=
            hex ("0000602099a892d7a02680a002a55f1da71a5d11866fbd2a8f57e96d3d000000"
            +:+ "000000009918c5f3417fecf62a9bbc13c4798cdb89e6964af94bd43e78933b9e"
            +:+ "8c2b9dba17f14e621ec8001a855f095804e00020f10609d9fa1132718327e2bb"
            +:+ "c0e7ab605d3431b27f9c2aa60900000000000000f7aca0f56853ed95f31cc2b3"
            +:+ "316ce45f1cf7fdfdec83564c2cb32278f606753f6ef14e621ec8001ab366ee0a"
            +:+ "04200020cd4cfc17f90a5301a51da10d10d5f627644883fb65d399652b000000"
            +:+ "000000007b4bcb4c4d17edf9e5e07c9eb35bf74d7b0dde10e639581754cd8b4a"
            +:+ "facc220fd3f34e621ec8001a08d65ede0000e02030fa568bb77672ce00aa7319"
            +:+ "0b6394f2473e105bacc1edcba3000000000000001f61df51e500a4df9b322da0"
            +:+ "69d162fd473bb97ae4999febe7c759b39d7779cabcf54e621ec8001a6cee453b"
            +:+ "000000209ea8ceb25fa3854fc8948255f6d47f7c820c5702861ee7e781000000"
            +:+ "00000000f44e0f8793c2d503817ecc991f1a836e249763ab42936ba98703efde"
            +:+ "31fedf0518f64e621ec8001a2eb8274d00e0ff3f45dd51143f07e88060db80fa"
            +:+ "4a92e53e8103c138b36b843879000000000000004bbfaeffde81470807f3c9a3"
            +:+ "46479172bf02e4ea62d2f51e0c53163737488dc296f64e621ec8001a72dc0b16") |};
     chainDifficulty := 21461933 |}.

(** [MultipleTargetWalletsAndIndivisibleAmount] *)
Definition MultipleTargetWalletsAndIndivisibleAmount : MovingFundsTestData :=
  {| wallet_ecdsaWalletID :=
       hex "4ad6b3ccbca81645865d8d0d575797a15528e98ced22f29a6f906d3259569863";
     wallet_pubKeyHash := hex "7ac2d9378a1c47e589dfb8095ca95ed2140d2726";
     wallet_state := MovingFunds;
     targetWalletsCommitment :=
       [ hex "2cd680318747b720d67bf4246eb7403b476adb34";
         hex "8900de8fc6e4cd1db4c7ab0759d28503b4cb0ab1";
         hex "af7a841e055fc19bf31acf4cbed5ef548a2cc453" ];
     fixtureMainUtxo :=
       {| txHash :=
            hex "80653f6e07dabddae14cf08d45475388343763100e4548914d811f373465a42e";
          txOutputIndex := 1;
          txOutputValue := 1795453 |};
     movingFundsTx_hash :=
       hex "7cff663e3e08847a5579913f6a66bc6c01f5f48c6ae1783be77418ed188021e6";
     movingFundsTx :=
       {| version := hex "01000000";
          inputVector :=
            hex ("0180653f6e07dabddae14cf08d45475388343763100e4548914d811f373465a4"
            +:+ "2e0100000000ffffffff");
          outputVector :=
            hex ("031c160900000000001976a9142cd680318747b720d67bf4246eb7403b476adb"
            +:+ "3488ac1d160900000000001600148900de8fc6e4cd1db4c7ab0759d28503b4cb"
            +:+ "0ab11c160900000000001976a914af7a841e055fc19bf31acf4cbed5ef548a2c"
            +:+ "c45388ac");
          locktime := hex "00000000" |};
     movingFundsProof :=
       {| merkleProof :=
            hex ("4880d00e942d1e54b9281b138ebe684d82067bd3cc55fbb54a4fe5f441f387b3"
            +:+ "70029b1360cd2fff4bd5ce292e35ab1650ee349017a25c6c5c47adfb59a41a6d"
            +:+ "707207bebf7f0449f03b9c068ac503030f77a12b780806567c16c8f7082c85f9"
            +:+ "c2217e059c48d928ee7c0ba8ee7c990e0fbf901826a41e33be7f3285073b00e8"
            +:+ "002facdc932c69016325366f73981195c32096c3a35639cd995779eeeecb2ede"
            +:+ "16dc684bd43380af42f7d20e352ff647a80f628bdeed12c9c229de6c8359c6ef"
            +:+ "44d02180f40038258359fac75124826493e35533c6a930a1bc7b1f78d40cdd65");
          txIndexInBlock := 14;
          bitcoinHeaders :=
            hex ("04200020cd4cfc17f90a5301a51da10d10d5f627644883fb65d399652b000000"
            +:+ "000000007b4bcb4c4d17edf9e5e07c9eb35bf74d7b0dde10e639581754cd8b4a"
            +:+ "facc220fd3f34e621ec8001a08d65ede0000e02030fa568bb77672ce00aa7319"
            +:+ "0b6394f2473e105bacc1edcba3000000000000001f61df51e500a4df9b322da0"
            +:+ "69d162fd473bb97ae4999febe7c759b39d7779cabcf54e621ec8001a6cee453b"
            +:+ "000000209ea8ceb25fa3854fc8948255f6d47f7c820c5702861ee7e781000000"
            +:+ "00000000f44e0f8793c2d503817ecc991f1a836e249763ab42936ba98703efde"
            +:+ "31fedf0518f64e621ec8001a2eb8274d00e0ff3f45dd51143f07e88060db80fa"
            +:+ "4a92e53e8103c138b36b843879000000000000004bbfaeffde81470807f3c9a3"
            +:+ "46479172bf02e4ea62d2f51e0c53163737488dc296f64e621ec8001a72dc0b16"
            +:+ "000000205442a6fc93ed4586bd29360d359c824d1edae51ba1fccb2b26000000"
            +:+ "00000000853aa96dab6e2e2049b27f0e47157b84b9b28e451550cf257b7f929d"
            +:+ "b049686906f74e621ec8001a36e620b104200020e0a49ac7a66b57a3a3d6c179"
            +:+ "ec95ecc62779fe8d9e50115196000000000000005b3438c4f01b35a067f30d26"
            +:+ "d2ef1c4c5f1d7245e1146402fcba2d0ee9ac9a181af84e621ec8001a82775350"
            +:+ "0000c020134645f88ef4c28e11dc8c9cb29eb4a679b9793d6c3b75c4a3000000"
            +:+ "00000000753631af53921164be60b8aee0eb1d76c706ea9bb9cf4f53b8cb6583"
            +:+ "0a3e982732f84e621ec8001a10de64d4") |};
     chainDifficulty := 21461933 |}.

(** [MultipleTargetWalletsAndDivisibleAmount] *)
Definition MultipleTargetWalletsAndDivisibleAmount : MovingFundsTestData :=
  {| wallet_ecdsaWalletID :=
       hex "4ad6b3ccbca81645865d8d0d575797a15528e98ced22f29a6f906d3259569863";
     wallet_pubKeyHash := hex "7ac2d9378a1c47e589dfb8095ca95ed2140d2726";
     wallet_state := MovingFunds;
     targetWalletsCommitment :=
       [ hex "2cd680318747b720d67bf4246eb7403b476adb34";
         hex "8900de8fc6e4cd1db4c7ab0759d28503b4cb0ab1";
         hex "af7a841e055fc19bf31acf4cbed5ef548a2cc453" ];
     fixtureMainUtxo :=
       {| txHash :=
            hex "9b71b2b9011e42b6dcb0c35ae11924c6492b20f7d851128abacc92864e362b7a";
          txOutputIndex := 1;
          txOutputValue := 1180947 |};
     movingFundsTx_hash :=
       hex "e87a93611b6ea128c5a4f0fa6f824d450be50bbfeb56b046ef6af8feca7fe916";
     movingFundsTx :=
       {| version := hex "01000000";
          inputVector :=
            hex ("019b71b2b9011e42b6dcb0c35ae11924c6492b20f7d851128abacc92864e362b"
            +:+ "7a0100000000ffffffff");
          outputVector :=
            hex ("03f9f50500000000001976a9142cd680318747b720d67bf4246eb7403b476adb"
            +:+ "3488acf9f50500000000001600148900de8fc6e4cd1db4c7ab0759d28503b4cb"
            +:+ "0ab1f9f50500000000001976a914af7a841e055fc19bf31acf4cbed5ef548a2c"
            +:+ "c45388ac");
          locktime := hex "00000000" |};
     movingFundsProof :=
       {| merkleProof :=
            hex ("ac8ba8a6e34fbbffda8372ce6aa213499a98e324ab5e876b3b5a5b39293ca2de"
            +:+ "3bff933268c91c05241541b557b7d9400f2fa2129480dd1813bb926419c56d88"
            +:+ "6454bc6cc16b641f6824f89093a4c9abfa4245ea182dc745e12080fe987d1c93"
            +:+ "bcae14108733d865392c5e0c04582fea7467b362b0c0a604caa59f65b9578bb1"
            +:+ "33aefc47b304e62a83d5aec7954e75d827fbd7b46084f231db6e36e6b61c6f35"
            +:+ "b38a557b15d553bed7878bacd99803f9fff7e0ec4b0a97f13a9144fc162dec36");
          txIndexInBlock := 12;
          bitcoinHeaders :=
            hex ("0000e02030fa568bb77672ce00aa73190b6394f2473e105bacc1edcba3000000"
            +:+ "000000001f61df51e500a4df9b322da069d162fd473bb97ae4999febe7c759b3"
            +:+ "9d7779cabcf54e621ec8001a6cee453b000000209ea8ceb25fa3854fc8948255"
            +:+ "f6d47f7c820c5702861ee7e78100000000000000f44e0f8793c2d503817ecc99"
            +:+ "1f1a836e249763ab42936ba98703efde31fedf0518f64e621ec8001a2eb8274d"
            +:+ "00e0ff3f45dd51143f07e88060db80fa4a92e53e8103c138b36b843879000000"
            +:+ "000000004bbfaeffde81470807f3c9a346479172bf02e4ea62d2f51e0c531637"
            +:+ "37488dc296f64e621ec8001a72dc0b16000000205442a6fc93ed4586bd29360d"
            +:+ "359c824d1edae51ba1fccb2b2600000000000000853aa96dab6e2e2049b27f0e"
            +:+ "47157b84b9b28e451550cf257b7f929db049686906f74e621ec8001a36e620b1"
            +:+ "04200020e0a49ac7a66b57a3a3d6c179ec95ecc62779fe8d9e50115196000000"
            +:+ "000000005b3438c4f01b35a067f30d26d2ef1c4c5f1d7245e1146402fcba2d0e"
            +:+ "e9ac9a181af84e621ec8001a827753500000c020134645f88ef4c28e11dc8c9c"
            +:+ "b29eb4a679b9793d6c3b75c4a300000000000000753631af53921164be60b8ae"
            +:+ "e0eb1d76c706ea9bb9cf4f53b8cb65830a3e982732f84e621ec8001a10de64d4"
            +:+ "000060202b62c803c2129fbbf533f35de3e84694ed475aab83dfe11ba0000000"
            +:+ "000000000de368e3dfdf42f498e8dea274f4c277547844bb07c28340a1a288c8"
            +:+ "6ea38d1113f94e621ec8001a7372433c") |};
     chainDifficulty := 21461933 |}.

(** [MultipleTargetWalletsButAmountDistributedUnevenly] *)
Definition MultipleTargetWalletsButAmountDistributedUnevenly : MovingFundsTestData :=
  {| wallet_ecdsaWalletID :=
       hex "4ad6b3ccbca81645865d8d0d575797a15528e98ced22f29a6f906d3259569863";
     wallet_pubKeyHash := hex "7ac2d9378a1c47e589dfb8095ca95ed2140d2726";
     wallet_state := MovingFunds;
     targetWalletsCommitment :=
       [ hex "2cd680318747b720d67bf4246eb7403b476adb34";
         hex "8900de8fc6e4cd1db4c7ab0759d28503b4cb0ab1";
         hex "af7a841e055fc19bf31acf4cbed5ef548a2cc453" ];
     fixtureMainUtxo :=
       {| txHash :=
            hex "3ca370f492449e2b413c27fe18b1a139f602d049fc0903595c41441f5a35eaed";
          txOutputIndex := 0;
          txOutputValue := 1279418 |};
     movingFundsTx_hash :=
       hex "8cf9565d894efe3ee65dab2636772bbd133c0c94f62e5bc3621f47b97322365b";
     movingFundsTx :=
       {| version := hex "01000000";
          inputVector :=
            hex ("013ca370f492449e2b413c27fe18b1a139f602d049fc0903595c41441f5a35ea"
            +:+ "ed0000000000ffffffff");
          outputVector :=
            hex ("032f760600000000001976a9142cd680318747b720d67bf4246eb7403b476adb"
            +:+ "3488ac30760600000000001600148900de8fc6e4cd1db4c7ab0759d28503b4cb"
            +:+ "0ab133760600000000001976a914af7a841e055fc19bf31acf4cbed5ef548a2c"
            +:+ "c45388ac");
          locktime := hex "00000000" |};
     movingFundsProof :=
       {| merkleProof :=
            hex ("24c50204f1d2c838e7872dd7f5c3a38bac573cce654620dfec76c6a05e9eb313"
            +:+ "9db0514e107025c8c055c8a10e83826c244820a32821a3d010880c1b3ab6bcf6"
            +:+ "20fb48f188126e2628fb2d3ead8b7bd458c0bc9d2b6d15368831538114901f3b"
            +:+ "fd9ad0532ab93c6f36c1755d3315fbdd146753b2332363cf75b931ddb824e9c3"
            +:+ "e21676a253e14fbe05ca546420c7b2e535666129660fb462adde0075114d5e00");
          txIndexInBlock := 2;
          bitcoinHeaders :=
            hex ("00000020fea86838d788d0c0e2f4c32272ba5dd599c4bd04baa4ff7599000000"
            +:+ "00000000b04fb0eaa2f1e39b53c26afdfa726289940864e3a42e06103fc7236a"
            +:+ "a67b15f3d50c50621ec8001a73dc826b04000020b18b27f95a438fd3d1bd571f"
            +:+ "d5ed10876b678f7f29cbb9a3ba000000000000009f9da0db22cc9d10d085502e"
            +:+ "74e6025e295bef3abc1441f7f0986ddadfd97776ce0d50621ec8001a7b784f62"
            +:+ "00000020e17a6b1a1734108e303b47a27ac7ff80a9ce9facc795e5bf86000000"
            +:+ "00000000e6da2811b1b28db55ac59062c3651798356c5186b92664628eae8bc1"
            +:+ "4f634ec27b0e50621ec8001a2e4075860000c020e7021f51166a77246660d627"
            +:+ "322dc6887cf0a9491f07f3d943000000000000005c5437498047dcc617029442"
            +:+ "e5493460987ce6a1d186c2562412eae52442aa79b20e50621ec8001a02d802c8"
            +:+ "04000020007219023a7eea3691d8091f3e67a2c17bbe15da9ae464663c000000"
            +:+ "000000007e1b1140ada8cb3f240f011243c8da5e4dabcd753d22d13c86d7c240"
            +:+ "413165f6160f50621ec8001a57daeccc0000a020a8597b1c1720560be7cc0f37"
            +:+ "07499f11e05df742c74cb5c99f00000000000000e17e1fc4b670a70c0c67b1cc"
            +:+ "b183f0e8bf4c3321039d49675aa6886bd2ec691c4e0f50621ec8001a59b3b33c"
            +:+ "000000205058b8dcbbfdfb9e00b30e3f374ec17e1789fc4f3f678f27bf000000"
            +:+ "000000001b329dd98f5f1d79f36d0b74fa3da4a9e82609a424287f6e1de30148"
            +:+ "5278b0ce4f1150621ec8001a4b24dd9e") |};
     chainDifficulty := 21461933 |}.

(** [SingleTargetWalletButP2SH] *)
Definition SingleTargetWalletButP2SH : MovingFundsTestData :=
  {| wallet_ecdsaWalletID :=
       hex "4ad6b3ccbca81645865d8d0d575797a15528e98ced22f29a6f906d3259569863";
     wallet_pubKeyHash := hex "7ac2d9378a1c47e589dfb8095ca95ed2140d2726";
     wallet_state := MovingFunds;
     targetWalletsCommitment :=
       [ hex "86884e6be1525dab5ae0b451bd2c72cee67dcf41" ];
     fixtureMainUtxo :=
       {| txHash :=
            hex "b69a2869840aa6fdfd143136ff4514ca46ea2d876855040892ad74ab8c527422";
          txOutputIndex := 1;
          txOutputValue := 1177424 |};
     movingFundsTx_hash :=
       hex "69563aa954f5493cd0ce56c9b67c8fe4d613029ced3983dd0dbb5e792e18d470";
     movingFundsTx :=
       {| version := hex "01000000";
          inputVector :=
            hex ("01b69a2869840aa6fdfd143136ff4514ca46ea2d876855040892ad74ab8c5274"
            +:+ "220100000000ffffffff");
          outputVector :=
            hex ("015cf511000000000017a91486884e6be1525dab5ae0b451bd2c72cee67dcf41"
            +:+ "87");
          locktime := hex "00000000" |};
     movingFundsProof :=
       {| merkleProof :=
            hex ("ba19ac24192479ac72000fe4500ec87f7b8cf994e90f42c3e66e70f9decfd81a"
            +:+ "ee743b1c3a6935e4d157221fc36e6e24182ed94fc23f4f5268d51c9c7625aceb"
            +:+ "c65c9b4a0e8e4eb52a89852aeaa1f935058620ccff4ade5fb5e05524ae727dfc"
            +:+ "aa9004792a281959ca2c8b6839135ee645353783f4c6c7d358acf3f4a83f819d"
            +:+ "ec4effe91462dcfbc0d0ed6b4cc38e5470eaf5b450481482d9201a4fd870f9ec"
            +:+ "81aa88378f3e2aab62de93105ed1563a8b3fca7995f9828a9042639680d0e494"
            +:+ "88cb14eabe41276f4ed8f87527690fb7f83b3b9abb170e1aadac941b53c29ec0"
            +:+ "9e85514a6844e864397ded279ef4ace9833195f112cff129626f30a1bbc9b22f");
          txIndexInBlock := 33;
          bitcoinHeaders :=
            hex ("00000020f47db0755dc684d17088c20b5d0cfdd2a637c0c1d611616f9cd868b1"
            +:+ "0000000084349634f8489675c4ac31b82f66f3c6ea369f328e8dc08716d245a0"
            +:+ "a01bfaba1a161662ffff001dab708bb90000002031b92d92aa302ad2a73058ea"
            +:+ "aa09ebfad14be89cae782709e197b352000000009e5528a66f13a86be6f61937"
            +:+ "d478d696c9cae9ebce6649bf80b0b0be070f3cb1e51a1662ffff001d55d83989") |};
     chainDifficulty := 1 |}.

(** The registry the test suite prepares before submitting a fixture:
    the wallet in the fixture's state, holding the fixture's main UTXO. *)
Definition bridgeFor (d : MovingFundsTestData) : Bridge :=
  {| wallets :=
       {[ wallet_pubKeyHash d :=
            {| state := wallet_state d;
               mainUtxo := Some (fixtureMainUtxo d) |} ]};
     deposits := ∅;
     mergeRequests := [];
     balances := ∅;
     sweepTxMaxFee := 0 |}.

Definition submitFixture `{Sha256} (verify : list byte -> Proof -> outcome unit)
    (evenly : list Z -> bool) (d : MovingFundsTestData) : outcome Bridge :=
  submitMovingFundsProof verify evenly (wallet_pubKeyHash d) (movingFundsTx d)
    (movingFundsProof d) (fixtureMainUtxo d) (targetWalletsCommitment d)
    (bridgeFor d).

Definition outputValues (d : MovingFundsTestData) : outcome (list Z) :=
  try outs := parseOutputs (outputVector (movingFundsTx d)) in
  Accepted (map outValue outs).

(** A verifier that accepts: the proof is taken to be valid. *)
Definition proofHolds : list byte -> Proof -> outcome unit :=
  fun _ _ => Accepted tt.

End Fixtures.

(* ===================================================================== *)
(** ** Bitcoin addresses (bitcoinjs-lib [payments], bs58check, bech32)

The address converter of the TypeScript library is a thin layer over
bitcoinjs-lib.  The encodings it relies on are modelled here: Base58Check
for P2PKH addresses and Bech32 for P2WPKH addresses. *)
(* ===================================================================== *)

(** Positional notation in an arbitrary base, most significant digit
first. *)
Module Radix.

Definition fromDigits (base : Z) (ds : list Z) : Z :=
  fold_left (fun acc d => acc * base + d) ds 0.

Fixpoint digitsOf (fuel : nat) (base n : Z) (acc : list Z) : list Z :=
  match fuel with
  | O => acc
  | S fuel' =>
      if n <=? 0 then acc
      else digitsOf fuel' base (n / base) (n mod base :: acc)
  end.

(** The digits of [n] without leading zeros; zero has no digits. *)
Definition toDigits (base n : Z) : list Z :=
  digitsOf (S (Z.to_nat (Z.log2 n))) base n [].

Fixpoint leadingZeros (ds : list Z) : nat :=
  match ds with
  | 0 :: rest => S (leadingZeros rest)
  | _ => O
  end.

End Radix.

Module Base58.
Import Radix.

Definition ALPHABET : string :=
  "123456789ABCDEFGHJKLMNPQRSTUVWXYZabcdefghijkmnopqrstuvwxyz".

Definition charOf (d : Z) : ascii :=
  nth (Z.to_nat d) (list_ascii_of_string ALPHABET) "1"%char.

Fixpoint indexIn (c : ascii) (alphabet : list ascii) (i : Z) : option Z :=
  match alphabet with
  | [] => None
  | a :: rest => if Ascii.eqb a c then Some i else indexIn c rest (i + 1)
  end.

Definition indexOf (c : ascii) : option Z :=
  indexIn c (list_ascii_of_string ALPHABET) 0.

(** [encode]: every leading zero octet becomes the character "1", the rest
is the big-endian number written in base 58. *)
Definition encode (source : list byte) : string :=
  let values := map Z_of_byte source in
  let zeroes := leadingZeros values in
  string_of_list_ascii
    (repeat "1"%char zeroes
       ++ map charOf (toDigits 58 (fromDigits 256 (skipn zeroes values)))).

(** [decode]; [None] stands for the "Non-base58 character" error. *)
Definition decode (s : string) : option (list byte) :=
  match mapM indexOf (list_ascii_of_string s) with
  | None => None
  | Some ds =>
      let zeroes := leadingZeros ds in
      Some (repeat x00 zeroes
              ++ map byte_of_Z (toDigits 256 (fromDigits 58 (skipn zeroes ds))))
  end.

End Base58.

(** bs58check: Base58 with a 4-octet double-SHA-256 checksum. *)
Module Bs58check.
Section WithSha.
Context `{Sha256}.

Definition checksumOf (payload : list byte) : list byte :=
  firstn 4 (hash256 payload).

Definition encode (payload : list byte) : string :=
  Base58.encode (payload ++ checksumOf payload).

(** [decode]: the last four octets must be the checksum of what precedes
them; octets missing from a too-short buffer count as zero in the
comparison. *)
Definition decode (s : string) : option (list byte) :=
  match Base58.decode s with
  | None => None
  | Some buffer =>
      let payload := firstn (length buffer - 4) buffer in
      let checksum := skipn (length buffer - 4) buffer in
      let newChecksum := checksumOf payload in
      if forallb (fun i => Z_of_byte (nth i checksum x00)
                             =? Z_of_byte (nth i newChecksum x00))
                 (seq 0 4)
      then Some payload
      else None
  end.

End WithSha.
End Bs58check.

Module Bech32.

Definition ALPHABET : string := "qpzry9x8gf2tvdw0s3jn54khce6mua7l".

Definition charOf (w : Z) : ascii :=
  nth (Z.to_nat w) (list_ascii_of_string ALPHABET) "q"%char.

Definition indexOf (c : ascii) : option Z :=
  Base58.indexIn c (list_ascii_of_string ALPHABET) 0.

(** [polymodStep] *)
Definition polymodStep (pre : Z) : Z :=
  let b := Z.shiftr pre 25 in
  Z.lxor (Z.lxor (Z.lxor (Z.lxor (Z.lxor
    (Z.shiftl (Z.land pre 0x1ffffff) 5)
    (Z.land (- Z.land (Z.shiftr b 0) 1) 0x3b6a57b2))
    (Z.land (- Z.land (Z.shiftr b 1) 1) 0x26508e6d))
    (Z.land (- Z.land (Z.shiftr b 2) 1) 0x1ea119fa))
    (Z.land (- Z.land (Z.shiftr b 3) 1) 0x3d4233dd))
    (Z.land (- Z.land (Z.shiftr b 4) 1) 0x2a1462b3).

Definition codeOf (c : ascii) : Z := Z.of_N (N_of_ascii c).

(** [prefixChk]; [None] for a character outside 33..126. *)
Definition prefixChk (prefix : string) : option Z :=
  let cs := map codeOf (list_ascii_of_string prefix) in
  if forallb (fun c => (33 <=? c) && (c <=? 126)) cs then
    let chk1 := fold_left (fun chk c => Z.lxor (polymodStep chk) (Z.shiftr c 5))
                          cs 1 in
    let chk2 := polymodStep chk1 in
    Some (fold_left (fun chk c => Z.lxor (polymodStep chk) (Z.land c 0x1f))
                    cs chk2)
  else None.

Definition LIMIT : nat := 90.

(** [encode(prefix, words)]; [None] stands for a thrown error. *)
Definition encode (prefix : string) (words : list Z) : option string :=
  if (LIMIT <? String.length prefix + 7 + length words)%nat then None
  else
    match prefixChk prefix with
    | None => None
    | Some chk0 =>
        if forallb (fun x => Z.shiftr x 5 =? 0) words then
          let chk1 := fold_left (fun chk x => Z.lxor (polymodStep chk) x)
                                words chk0 in
          let chk2 := Nat.iter 6 polymodStep chk1 in
          let chk3 := Z.lxor chk2 1 in
          let tail := map (fun i => Z.land (Z.shiftr chk3 ((5 - Z.of_nat i) * 5))
                                           0x1f) (seq 0 6) in
          Some (prefix +:+ "1"
                  +:+ string_of_list_ascii (map charOf (words ++ tail)))
        else None
    end.

Definition lowerChar (c : ascii) : ascii :=
  let n := N_of_ascii c in
  if ((65 <=? n) && (n <=? 90))%N then ascii_of_N (n + 32) else c.

Definition upperChar (c : ascii) : ascii :=
  let n := N_of_ascii c in
  if ((97 <=? n) && (n <=? 122))%N then ascii_of_N (n - 32) else c.

Definition mapString (f : ascii -> ascii) (s : string) : string :=
  string_of_list_ascii (map f (list_ascii_of_string s)).

(** [lastIndexOf]: position of the last occurrence. *)
Fixpoint lastIndexOf (c : ascii) (s : list ascii) : option nat :=
  match s with
  | [] => None
  | a :: rest =>
      match lastIndexOf c rest with
      | Some i => Some (S i)
      | None => if Ascii.eqb a c then Some O else None
      end
  end.

(** [decode(str)]: prefix and data words, checksum removed. *)
Definition decode (str : string) : option (string * list Z) :=
  if (String.length str <? 8)%nat then None
  else if (LIMIT <? String.length str)%nat then None
  else
    let lowered := mapString lowerChar str in
    let uppered := mapString upperChar str in
    if negb (String.eqb str lowered) && negb (String.eqb str uppered) then None
    else
      let chars := list_ascii_of_string lowered in
      match lastIndexOf "1"%char chars with
      | None => None
      | Some O => None
      | Some split =>
          let prefix := string_of_list_ascii (firstn split chars) in
          let wordChars := skipn (S split) chars in
          if (length wordChars <? 6)%nat then None
          else
            match prefixChk prefix, mapM indexOf wordChars with
            | Some chk0, Some values =>
                let chk := fold_left (fun chk v => Z.lxor (polymodStep chk) v)
                                     values chk0 in
                if chk =? 1
                then Some (prefix, firstn (length values - 6) values)
                else None
            | _, _ => None
            end
      end.

(** The inner loop of [convert]: emit words while enough bits are held. *)
Fixpoint drain (fuel : nat) (value bits outBits : Z) (result : list Z)
  : Z * list Z :=
  match fuel with
  | O => (bits, result)
  | S fuel' =>
      if outBits <=? bits
      then drain fuel' value (bits - outBits) outBits
             (result ++ [Z.land (Z.shiftr value (bits - outBits))
                                (Z.shiftl 1 outBits - 1)])
      else (bits, result)
  end.

(** One round of the outer loop of [convert]: take in [inBits] more bits,
then emit what is complete. *)
Definition convertStep (inBits outBits : Z) (st : Z * Z * list Z) (d : Z)
  : Z * Z * list Z :=
  let '(value, bits, result) := st in
  let value' := Z.lor (Z.shiftl value inBits) d in
  let '(bits', result') :=
    drain (Z.to_nat inBits + Z.to_nat bits) value' (bits + inBits)
          outBits result in
  (value', bits', result').

(** [convert(data, inBits, outBits, pad)]; the accumulator is kept
unbounded, only its low bits are ever read. *)
Definition convert (data : list Z) (inBits outBits : Z) (pad : bool)
  : option (list Z) :=
  let maxV := Z.shiftl 1 outBits - 1 in
  let '(value, bits, result) :=
    fold_left (convertStep inBits outBits) data (0, 0, []) in
  if pad then
    if 0 <? bits
    then Some (result ++ [Z.land (Z.shiftl value (outBits - bits)) maxV])
    else Some result
  else
    if inBits <=? bits then None
    else if negb (Z.land (Z.shiftl value (outBits - bits)) maxV =? 0) then None
    else Some result.

Definition toWords (bytes : list byte) : list Z :=
  default [] (convert (map Z_of_byte bytes) 8 5 true).

Definition fromWords (words : list Z) : option (list byte) :=
  option_map (map byte_of_Z) (convert words 5 8 false).

End Bech32.

(** The slice of bitcoinjs-lib's [payments] the converter uses. *)
Module Payments.

(** A bitcoinjs-lib network description. *)
Record Network := {
  bech32 : string;
  pubKeyHash : Z;
  scriptHash : Z
}.

Definition bitcoin : Network :=
  {| bech32 := "bc"; pubKeyHash := 0x00; scriptHash := 0x05 |}.
Definition testnet : Network :=
  {| bech32 := "tb"; pubKeyHash := 0x6f; scriptHash := 0xc4 |}.
Definition regtest : Network :=
  {| bech32 := "bcrt"; pubKeyHash := 0x6f; scriptHash := 0xc4 |}.

Definition networks : list Network := [bitcoin; testnet; regtest].

Section WithSha.
Context `{Sha256}.

(** [payments.p2pkh({ hash, network }).address]; a hash that is not 20
octets fails the type check. *)
Definition p2pkh_address (hash : list byte) (network : Network)
  : option string :=
  if Nat.eqb (length hash) 20
  then Some (Bs58check.encode (byte_of_Z (pubKeyHash network) :: hash))
  else None.

(** [payments.p2pkh({ address, network }).hash] *)
Definition p2pkh_hash (address : string) (network : Network)
  : option (list byte) :=
  match Bs58check.decode address with
  | Some (version :: hash) =>
      if negb (Z_of_byte version =? pubKeyHash network) then None
      else if negb (Nat.eqb (length hash) 20) then None
      else Some hash
  | _ => None
  end.

End WithSha.

(** [payments.p2wpkh({ hash, network }).address] *)
Definition p2wpkh_address (hash : list byte) (network : Network)
  : option string :=
  if Nat.eqb (length hash) 20
  then Bech32.encode (bech32 network) (0 :: Bech32.toWords hash)
  else None.

(** [payments.p2wpkh({ address, network }).hash] *)
Definition p2wpkh_hash (address : string) (network : Network)
  : option (list byte) :=
  match Bech32.decode address with
  | Some (prefix, version :: words) =>
      match Bech32.fromWords words with
      | Some data =>
          if negb (String.eqb (bech32 network) prefix) then None
          else if negb (version =? 0) then None
          else if negb (Nat.eqb (length data) 20) then None
          else Some data
      | None => None
      end
  | _ => None
  end.

End Payments.

(** [BitcoinAddressConverter] *)
Module Address.
Import Payments.

Inductive BitcoinNetwork := Unknown | Testnet | Mainnet.

Section Converter.
Context `{Sha256}.
(** [toBitcoinJsLibNetwork] is defined in a module that is not among the
sources; it is taken as given.  [None] stands for its "network not
supported" error. *)
Variable toBitcoinJsLibNetwork : BitcoinNetwork -> option Network.

Definition publicKeyHashToAddress (publicKeyHash : list byte) (witness : bool)
    (bitcoinNetwork : BitcoinNetwork) : option string :=
  match toBitcoinJsLibNetwork bitcoinNetwork with
  | None => None
  | Some network =>
      if witness then p2wpkh_address publicKeyHash network
      else p2pkh_address publicKeyHash network
  end.

Definition addressToPublicKeyHash (address : string)
    (bitcoinNetwork : BitcoinNetwork) : option (list byte) :=
  match toBitcoinJsLibNetwork bitcoinNetwork with
  | None => None
  | Some network =>
      match p2pkh_hash address network with
      | Some hash => Some hash
      | None =>
          match p2wpkh_hash address network with
          | Some hash => Some hash
          | None => None
          end
      end
  end.

End Converter.

(** The mapping of the library's network module: main net and test net
are supported. *)
Definition supportedNetwork (n : BitcoinNetwork) : option Network :=
  match n with
  | Mainnet => Some bitcoin
  | Testnet => Some testnet
  | Unknown => None
  end.

End Address.


(* ===================================================================== *)
(** ** Addresses and output scripts (bitcoinjs-lib [address])

The two remaining conversions of the address converter hand their
arguments to [address.toOutputScript] and [address.fromOutputScript].
Both try the payment types in a fixed order.  The branches for
Base58Check addresses and for version 0 witness programs are modelled
here; what the library does past them (later witness versions, Taproot)
depends on its release and is left as a parameter. *)
(* ===================================================================== *)

Module AddressScripts.
Import Payments Address.

(** [payments.p2pkh({ hash }).output]:
    OP_DUP OP_HASH160 <20 octets> OP_EQUALVERIFY OP_CHECKSIG. *)
Definition p2pkh_output (hash : list byte) : option (list byte) :=
  if Nat.eqb (length hash) 20
  then Some ([x76; xa9; x14] ++ hash ++ [x88; xac])
  else None.

(** [payments.p2sh({ hash }).output]: OP_HASH160 <20 octets> OP_EQUAL. *)
Definition p2sh_output (hash : list byte) : option (list byte) :=
  if Nat.eqb (length hash) 20
  then Some ([xa9; x14] ++ hash ++ [x87])
  else None.

(** [payments.p2wpkh({ hash }).output]: OP_0 <20 octets>. *)
Definition p2wpkh_output (hash : list byte) : option (list byte) :=
  if Nat.eqb (length hash) 20
  then Some ([x00; x14] ++ hash)
  else None.

(** [payments.p2wsh({ hash }).output]: OP_0 <32 octets>. *)
Definition p2wsh_output (hash : list byte) : option (list byte) :=
  if Nat.eqb (length hash) 32
  then Some ([x00; x20] ++ hash)
  else None.

(** [output[i] === op] *)
Definition byteAt (output : list byte) (i : nat) (op : byte) : bool :=
  match nth_error output i with
  | Some b => Byte.eqb b op
  | None => false
  end.

(** [output.slice(start, end)] *)
Definition sliceOf (output : list byte) (start finish : nat) : list byte :=
  firstn (finish - start) (skipn start output).

Section WithSha.
Context `{Sha256}.

(** [toBase58Check(hash, version)] *)
Definition toBase58Check (hash : list byte) (version : Z) : string :=
  Bs58check.encode (byte_of_Z version :: hash).

(** [fromBase58Check(address)]: version and hash of a 21-octet payload. *)
Definition fromBase58Check (address : string) : option (Z * list byte) :=
  match Bs58check.decode address with
  | Some payload =>
      if (length payload <? 21)%nat then None
      else if (21 <? length payload)%nat then None
      else
        match payload with
        | version :: hash => Some (Z_of_byte version, hash)
        | [] => None
        end
  | None => None
  end.

(** [payments.p2pkh({ output, network }).address] *)
Definition p2pkh_address_of_output (output : list byte) (network : Network)
  : option string :=
  if Nat.eqb (length output) 25
     && byteAt output 0 x76 && byteAt output 1 xa9 && byteAt output 2 x14
     && byteAt output 23 x88 && byteAt output 24 xac
  then Some (toBase58Check (sliceOf output 3 23) (pubKeyHash network))
  else None.

(** [payments.p2sh({ output, network }).address] *)
Definition p2sh_address_of_output (output : list byte) (network : Network)
  : option string :=
  if Nat.eqb (length output) 23
     && byteAt output 0 xa9 && byteAt output 1 x14 && byteAt output 22 x87
  then Some (toBase58Check (sliceOf output 2 22) (scriptHash network))
  else None.

End WithSha.

(** [payments.p2wpkh({ output, network }).address] *)
Definition p2wpkh_address_of_output (output : list byte) (network : Network)
  : option string :=
  if Nat.eqb (length output) 22 && byteAt output 0 x00 && byteAt output 1 x14
  then Bech32.encode (bech32 network) (0 :: Bech32.toWords (skipn 2 output))
  else None.

(** [payments.p2wsh({ output, network }).address] *)
Definition p2wsh_address_of_output (output : list byte) (network : Network)
  : option string :=
  if Nat.eqb (length output) 34 && byteAt output 0 x00 && byteAt output 1 x20
  then Bech32.encode (bech32 network) (0 :: Bech32.toWords (skipn 2 output))
  else None.

Section Library.
Context `{Sha256}.

(** What the library makes of a text that is neither a Base58Check
    address nor a Bech32 string (Bech32m addresses of later witness
    versions, where the release has them). *)
Variable laterWitnessScript : string -> Network -> option (list byte).

(** What the library makes of a script that is none of the four types
    above (Taproot and later witness programs, where the release has
    them). *)
Variable laterWitnessAddress : list byte -> Network -> option string.

(** [address.toOutputScript(address, network)]; [None] stands for a
    thrown error. *)
Definition toOutputScript (address : string) (network : Network)
  : option (list byte) :=
  match fromBase58Check address with
  | Some (version, hash) =>
      if version =? pubKeyHash network then p2pkh_output hash
      else if version =? scriptHash network then p2sh_output hash
      else None
  | None =>
      match Bech32.decode address with
      | Some (prefix, version :: words) =>
          if negb (version =? 0) then None
          else
            match Bech32.fromWords words with
            | Some data =>
                if negb (String.eqb prefix (bech32 network)) then None
                else if Nat.eqb (length data) 20 then p2wpkh_output data
                else if Nat.eqb (length data) 32 then p2wsh_output data
                else None
            | None => None
            end
      | Some (_, []) => None
      | None => laterWitnessScript address network
      end
  end.

(** [address.fromOutputScript(output, network)] *)
Definition fromOutputScript (output : list byte) (network : Network)
  : option string :=
  match p2pkh_address_of_output output network with
  | Some address => Some address
  | None =>
      match p2sh_address_of_output output network with
      | Some address => Some address
      | None =>
          match p2wpkh_address_of_output output network with
          | Some address => Some address
          | None =>
              match p2wsh_address_of_output output network with
              | Some address => Some address
              | None => laterWitnessAddress output network
              end
          end
      end
  end.

Variable toBitcoinJsLibNetwork : BitcoinNetwork -> option Network.

(** [addressToOutputScript] *)
Definition addressToOutputScript (address : string)
    (bitcoinNetwork : BitcoinNetwork) : option (list byte) :=
  match toBitcoinJsLibNetwork bitcoinNetwork with
  | None => None
  | Some network => toOutputScript address network
  end.

(** [outputScriptToAddress]; the network defaults to the main net. *)
Definition outputScriptToAddress (script : list byte)
    (bitcoinNetwork : option BitcoinNetwork) : option string :=
  match toBitcoinJsLibNetwork (default Mainnet bitcoinNetwork) with
  | None => None
  | Some network => fromOutputScript script network
  end.

End Library.

End AddressScripts.
(* ===================================================================== *)
(** ** Executable hash functions *)
(* ===================================================================== *)

(** Consecutive blocks of [size] elements; [fuel] bounds their number. *)
Fixpoint chunks {A} (fuel size : nat) (l : list A) : list (list A) :=
  match fuel with
  | O => []
  | S fuel' =>
      match l with
      | [] => []
      | _ => firstn size l :: chunks fuel' size (skipn size l)
      end
  end.

(** SHA-256 (FIPS 180-4) on 32-bit words held in [Z]. *)
Module Sha2.

Definition w32 (x : Z) : Z := x mod 2 ^ 32.
Definition rotr (n x : Z) : Z :=
  Z.lor (Z.shiftr x n) (w32 (Z.shiftl x (32 - n))).
Definition lnot32 (x : Z) : Z := 2 ^ 32 - 1 - x.

(** The first 64 primes. *)
Definition isPrime (n : Z) : bool :=
  (1 <? n) && forallb (fun d => negb (n mod d =? 0))
                      (map Z.of_nat (seq 2 (Z.to_nat (Z.sqrt n) - 1))).

Definition primes : list Z :=
  filter isPrime (map Z.of_nat (seq 2 310)).

(** Integer cube root by bisection: the largest [r] in [[lo, hi)] with
[r ^ 3 <= n]. *)
Fixpoint cbrtBetween (fuel : nat) (lo hi n : Z) : Z :=
  match fuel with
  | O => lo
  | S fuel' =>
      if hi - lo <=? 1 then lo
      else
        let mid := (lo + hi) / 2 in
        if mid * mid * mid <=? n
        then cbrtBetween fuel' mid hi n
        else cbrtBetween fuel' lo mid n
  end.

(** Round constants: the first 32 bits of the fractional parts of the cube
roots of the first 64 primes. *)
Definition K : list Z :=
  map (fun p => w32 (cbrtBetween 64 0 (2 ^ 40) (p * 2 ^ 96))) primes.

(** Initial hash value: the first 32 bits of the fractional parts of the
square roots of the first 8 primes. *)
Definition H0 : list Z :=
  map (fun p => w32 (Z.sqrt (p * 2 ^ 64))) (firstn 8 primes).

(** Message padding: 0x80, zeroes, the bit length on 8 octets. *)
Definition pad (msg : list byte) : list byte :=
  let len := length msg in
  let zeros := ((64 - (len + 9) mod 64) mod 64)%nat in
  msg ++ [x80] ++ repeat x00 zeros ++ beBytes 8 (8 * Z.of_nat len).

(** The message schedule, most recent word first. *)
Fixpoint schedule (n : nat) (recent : list Z) : list Z :=
  match n with
  | O => recent
  | S n' =>
      let g i := nth i recent 0 in
      let s0 := Z.lxor (Z.lxor (rotr 7 (g 14%nat)) (rotr 18 (g 14%nat)))
                       (Z.shiftr (g 14%nat) 3) in
      let s1 := Z.lxor (Z.lxor (rotr 17 (g 1%nat)) (rotr 19 (g 1%nat)))
                       (Z.shiftr (g 1%nat) 10) in
      schedule n' (w32 (g 15%nat + s0 + g 6%nat + s1) :: recent)
  end.

Definition round (st : list Z) (kw : Z * Z) : list Z :=
  match st with
  | [a; b; c; d; e; f; g; h] =>
      let S1 := Z.lxor (Z.lxor (rotr 6 e) (rotr 11 e)) (rotr 25 e) in
      let ch := Z.lxor (Z.land e f) (Z.land (lnot32 e) g) in
      let t1 := h + S1 + ch + fst kw + snd kw in
      let S0 := Z.lxor (Z.lxor (rotr 2 a) (rotr 13 a)) (rotr 22 a) in
      let maj := Z.lxor (Z.lxor (Z.land a b) (Z.land a c)) (Z.land b c) in
      [w32 (t1 + S0 + maj); a; b; c; w32 (d + t1); e; f; g]
  | _ => st
  end.

Definition compress (st : list Z) (block : list byte) : list Z :=
  let words := map beZ (chunks 16 4 block) in
  let w := rev (schedule 48 (rev words)) in
  let st' := fold_left round (combine K w) st in
  map (fun p => w32 (fst p + snd p)) (combine st st').

Definition digestWords (msg : list byte) : list Z :=
  let padded := pad msg in
  fold_left compress (chunks (length padded) 64 padded) H0.

Definition sha256 (msg : list byte) : list byte :=
  let st := digestWords msg in
  flat_map (fun i => beBytes 4 (nth i st 0)) (seq 0 8).

End Sha2.

(** Keccak-256 as used by the EVM: Keccak-f[1600], rate 136, 0x01 padding. *)
Module Keccak.

Definition w64 (x : Z) : Z := x mod 2 ^ 64.
Definition rotl (n x : Z) : Z :=
  Z.lor (w64 (Z.shiftl x n)) (Z.shiftr x (64 - n)).
Definition lnot64 (x : Z) : Z := 2 ^ 64 - 1 - x.

Definition RC : list Z :=
  [ 0x0000000000000001; 0x0000000000008082; 0x800000000000808A;
    0x8000000080008000; 0x000000000000808B; 0x0000000080000001;
    0x8000000080008081; 0x8000000000008009; 0x000000000000008A;
    0x0000000000000088; 0x0000000080008009; 0x000000008000000A;
    0x000000008000808B; 0x800000000000008B; 0x8000000000008089;
    0x8000000000008003; 0x8000000000008002; 0x8000000000000080;
    0x000000000000800A; 0x800000008000000A; 0x8000000080008081;
    0x8000000000008080; 0x0000000080000001; 0x8000000080008008 ].

(** Rotation offsets, indexed by [x + 5 * y]. *)
Definition rotc : list Z :=
  [  0;  1; 62; 28; 27;
    36; 44;  6; 55; 20;
     3; 10; 43; 25; 39;
    41; 45; 15; 21;  8;
    18;  2; 61; 56; 14 ].

Definition lane (st : list Z) (x y : nat) : Z :=
  nth (x mod 5 + 5 * (y mod 5)) st 0.

Definition positions : list (nat * nat) :=
  flat_map (fun y => map (fun x => (x, y)) (seq 0 5)) (seq 0 5).

Definition theta (st : list Z) : list Z :=
  let C x := fold_left Z.lxor (map (lane st x) (seq 0 5)) 0 in
  let D x := Z.lxor (C (x + 4)%nat) (rotl 1 (C (x + 1)%nat)) in
  map (fun p => Z.lxor (lane st (fst p) (snd p)) (D (fst p))) positions.

(** rho and pi: the lane at [(x, y)] moves to [(y, 2x + 3y)], rotated;
    read backwards, position [(X, Y)] receives lane [(x, y)] with
    [x = (X + 3Y) mod 5] and [y = X]. *)
Definition rhoPi (st : list Z) : list Z :=
  map (fun p =>
         let X := fst p in let Y := snd p in
         let x := ((X + 3 * Y) mod 5)%nat in
         let y := X in
         rotl (nth (x + 5 * y) rotc 0) (lane st x y))
      positions.

Definition chi (st : list Z) : list Z :=
  map (fun p =>
         let x := fst p in let y := snd p in
         Z.lxor (lane st x y)
                (Z.land (lnot64 (lane st (x + 1) y)) (lane st (x + 2) y)))
      positions.

Definition iota (rc : Z) (st : list Z) : list Z :=
  match st with
  | a :: rest => Z.lxor a rc :: rest
  | [] => []
  end.

Definition round (st : list Z) (rc : Z) : list Z :=
  iota rc (chi (rhoPi (theta st))).

Definition keccakF (st : list Z) : list Z := fold_left round RC st.

Definition rate : nat := 136.

Definition pad (msg : list byte) : list byte :=
  let r := (length msg mod rate)%nat in
  if Nat.eqb r (rate - 1) then msg ++ [x81]
  else msg ++ [x01] ++ repeat x00 (rate - 2 - r) ++ [x80].

Definition absorb (st : list Z) (block : list byte) : list Z :=
  let lanes := map leZ (chunks 17 8 block) ++ repeat 0 8 in
  keccakF (map (fun p => Z.lxor (fst p) (snd p)) (combine st lanes)).

Definition sponge (msg : list byte) : list Z :=
  let padded := pad msg in
  fold_left absorb (chunks (length padded) rate padded) (repeat 0 25).

Definition keccak256 (msg : list byte) : list byte :=
  let st := sponge msg in
  flat_map (fun i => leBytes 8 (nth i st 0)) (seq 0 4).

End Keccak.

(* ===================================================================== *)
(** ** Facts about bytes and hexadecimal text *)
(* ===================================================================== *)

Section HexFacts.

Lemma hexValue_hexDigit (n : N) :
  (n < 16)%N -> hexValue (hexDigit n) = Some n.
Proof.
  intros Hn.
  assert (Hcases : In n (map N.of_nat (seq 0 16))).
  { apply in_map_iff. exists (N.to_nat n). split; [lia|].
    apply in_seq. lia. }
  simpl in Hcases.
  repeat (destruct Hcases as [<- | Hcases]; [reflexivity|]).
  destruct Hcases.
Qed.

Lemma byte_of_N_to_N (b : byte) : byte_of_N (Byte.to_N b) = b.
Proof.
  unfold byte_of_N.
  pose proof (Byte.to_N_bounded b) as Hb.
  rewrite N.mod_small by lia.
  now rewrite Byte.of_to_N.
Qed.

Lemma to_N_byte_of_N (n : N) : Byte.to_N (byte_of_N n) = (n mod 256)%N.
Proof.
  unfold byte_of_N.
  destruct (Byte.of_N (n mod 256)%N) as [b|] eqn:E.
  - now apply Byte.to_of_N.
  - apply Byte.of_N_None_iff in E.
    pose proof (N.mod_upper_bound n 256). lia.
Qed.

Lemma byte_of_nibbles (b : byte) :
  byte_of_N (16 * (Byte.to_N b / 16) + Byte.to_N b mod 16) = b.
Proof.
  rewrite <- (N.div_mod (Byte.to_N b) 16) by lia.
  apply byte_of_N_to_N.
Qed.

Lemma parseHex_toHex (bs : list byte) : parseHex (toHex bs) = Some bs.
Proof.
  induction bs as [|b bs IH]; [reflexivity|].
  pose proof (Byte.to_N_bounded b) as Hb.
  cbn [toHex parseHex].
  rewrite !hexValue_hexDigit.
  - rewrite IH. now rewrite byte_of_nibbles.
  - apply N.mod_upper_bound. lia.
  - apply N.Div0.div_lt_upper_bound. lia.
Qed.

Lemma toHex_app (a b : list byte) :
  toHex (a ++ b) = String.append (toHex a) (toHex b).
Proof.
  induction a as [|x a IH]; [reflexivity|].
  cbn [toHex app String.append]. now rewrite IH.
Qed.

Lemma toHex_inj (a b : list byte) : toHex a = toHex b -> a = b.
Proof.
  intros Heq.
  assert (Some a = Some b) as [= ->]; [|reflexivity].
  now rewrite <- !parseHex_toHex, Heq.
Qed.

(** Induction over a string two characters at a time. *)
Lemma string_pair_ind (P : string -> Prop) :
  P EmptyString ->
  (forall a, P (String a EmptyString)) ->
  (forall a b s, P s -> P (String a (String b s))) ->
  forall s, P s.
Proof.
  intros H0 H1 H2.
  fix IH 1.
  intros [|a [|b s]]; [exact H0 | apply H1 | apply H2, IH].
Qed.

(** On well-formed hexadecimal text the lenient and the strict decoder
    agree. *)
Lemma Buffer_from_hex_strict (s : string) (bs : list byte) :
  parseHex s = Some bs -> Buffer_from_hex s = bs.
Proof.
  revert bs. induction s as [|a|a b s IH] using string_pair_ind;
    intros bs; cbn [parseHex Buffer_from_hex].
  - now intros [= <-].
  - discriminate.
  - destruct (hexValue a), (hexValue b); try discriminate.
    destruct (parseHex s) as [bs'|]; [|discriminate].
    intros [= <-]. now rewrite (IH bs').
Qed.

Lemma Buffer_from_hex_toHex (bs : list byte) : Buffer_from_hex (toHex bs) = bs.
Proof. apply Buffer_from_hex_strict, parseHex_toHex. Qed.

End HexFacts.

(* ===================================================================== *)
(** ** The TypeScript mock bridge: redemption keys and lookups *)
(* ===================================================================== *)

Module TsBridgeFacts.
Import TsBridge.

Section WithKeccak.
Context `{Keccak256}.

Lemma arrayify_hexlify (bs : list byte) : arrayify (hexlify bs) = Some bs.
Proof. unfold arrayify, hexlify. apply parseHex_toHex. Qed.

Lemma hexlify_inj (a b : list byte) : hexlify a = hexlify b -> a = b.
Proof. unfold hexlify. intros [= Heq]. now apply toHex_inj. Qed.

(** What [buildRedemptionKey] computes on any input, and when it
    throws. *)
Lemma buildRedemptionKey_unfold (walletPubKeyHash script : string) :
  buildRedemptionKey walletPubKeyHash script =
    match parseHex walletPubKeyHash with
    | Some wpkh =>
        if Nat.eqb (length wpkh) 20
        then Some (hexlify (keccak256
               (keccak256 (prefixedScript (Buffer_from_hex script)) ++ wpkh)))
        else None
    | None => None
    end.
Proof.
  unfold buildRedemptionKey, solidityKeccak256.
  cbn [solidityPack pack1 arrayify].
  rewrite parseHex_toHex. cbn [app Buffer_from_length].
  rewrite app_nil_r.
  cbn [Nat.eqb Nat.ltb Nat.leb orb].
  rewrite arrayify_hexlify, keccak256_length. cbn [Nat.eqb].
  fold (prefixedScript (Buffer_from_hex script)).
  destruct (parseHex walletPubKeyHash) as [wpkh|]; [|reflexivity].
  destruct (Nat.eqb (length wpkh) 20); [|reflexivity].
  now rewrite app_nil_r.
Qed.

Lemma prefixedScript_inj (a b : list byte) :
  prefixedScript a = prefixedScript b -> a = b.
Proof. unfold prefixedScript. now intros [= _ ->]. Qed.

End WithKeccak.


(** C8. Key derivation is a function of its two arguments (indeed of the
    octets they spell), and for a fixed wallet public key hash two scripts
    of different byte lengths get different keys, also when one is a prefix
    of the other, as long as the hash does not collide on the two pairs of
    preimages involved. *)
Theorem buildRedemptionKey_deterministic_no_length_collision `{Keccak256}
    (w : string) (wpkh : list byte) (s1 s2 : string) :
  parseHex w = Some wpkh ->
  length wpkh = 20%nat ->
  length (Buffer_from_hex s1) <> length (Buffer_from_hex s2) ->
  collisionFree (prefixedScript (Buffer_from_hex s1))
                (prefixedScript (Buffer_from_hex s2)) ->
  collisionFree (keccak256 (prefixedScript (Buffer_from_hex s1)) ++ wpkh)
                (keccak256 (prefixedScript (Buffer_from_hex s2)) ++ wpkh) ->
  (forall w' s' s'', w = w' -> s' = s'' ->
     buildRedemptionKey w s' = buildRedemptionKey w' s'')
  /\ (forall w' s' s'',
        parseHex w' = Some wpkh ->
        Buffer_from_hex s' = Buffer_from_hex s'' ->
        buildRedemptionKey w s' = buildRedemptionKey w' s'')
  /\ is_Some (buildRedemptionKey w s1)
  /\ is_Some (buildRedemptionKey w s2)
  /\ buildRedemptionKey w s1 <> buildRedemptionKey w s2.
Proof.
  intros Hw Hlen Hne Hinner Houter.
  split; [now intros w' s' s'' <- <-|].
  split.
  { intros w' s' s'' Hw' Hs.
    now rewrite !buildRedemptionKey_unfold, Hw, Hw', Hs. }
  rewrite !buildRedemptionKey_unfold, Hw, Hlen. cbn [Nat.eqb].
  split; [eauto|]. split; [eauto|].
  intros [= Heq%toHex_inj].
  apply Houter, app_inv_tail, Hinner, prefixedScript_inj in Heq.
  now rewrite Heq in Hne.
Qed.


(** The mock's own [submitRedemptionProof] records the call and leaves
    both maps alone. *)
Lemma submitRedemptionProof_keeps_maps (e : RedemptionProofLogEntry)
    (b : MockBridge) :
  _pendingRedemptions (submitRedemptionProof e b) = _pendingRedemptions b
  /\ _timedOutRedemptions (submitRedemptionProof e b) = _timedOutRedemptions b.
Proof. now split. Qed.

(** A wallet public key hash that is not 20 octets of hexadecimal text
    makes the key derivation, and with it both lookups, throw. *)
Lemma buildRedemptionKey_throws `{Keccak256} (w s : string) :
  (forall wpkh, parseHex w = Some wpkh -> length wpkh <> 20%nat) ->
  buildRedemptionKey w s = None.
Proof.
  intros Hbad. rewrite buildRedemptionKey_unfold.
  destruct (parseHex w) as [wpkh|]; [|reflexivity].
  destruct (Nat.eqb_spec (length wpkh) 20) as [Heq|]; [|reflexivity].
  now destruct (Hbad wpkh eq_refl).
Qed.

(** The length octet wraps modulo 256. *)
Lemma prefixedScript_prefix (raw : list byte) :
  exists p, prefixedScript raw = p :: raw
            /\ Byte.to_N p = (N.of_nat (length raw) mod 256)%N.
Proof.
  eexists. split; [reflexivity|]. apply to_N_byte_of_N.
Qed.

End TsBridgeFacts.
Lemma length_beBytes n z : length (beBytes n z) = n.
Proof.
  revert z. induction n as [|n IH]; intros z; [reflexivity|].
  cbn [beBytes]. rewrite length_app, IH. cbn. lia.
Qed.

Lemma length_leBytes n z : length (leBytes n z) = n.
Proof.
  revert z. induction n as [|n IH]; intros z; [reflexivity|].
  cbn [leBytes length]. now rewrite IH.
Qed.

Lemma Sha2_sha256_length bs : length (Sha2.sha256 bs) = 32%nat.
Proof.
  unfold Sha2.sha256. cbn [seq flat_map].
  now rewrite !length_app, !length_beBytes.
Qed.

Lemma Keccak_keccak256_length bs : length (Keccak.keccak256 bs) = 32%nat.
Proof.
  unfold Keccak.keccak256. cbn [seq flat_map].
  now rewrite !length_app, !length_leBytes.
Qed.

#[global] Instance Sha2_Sha256 : Sha256 :=
  {| sha256 := Sha2.sha256; sha256_length := Sha2_sha256_length |}.
#[global] Instance Keccak_Keccak256 : Keccak256 :=
  {| keccak256 := Keccak.keccak256; keccak256_length := Keccak_keccak256_length |}.


Definition bytesOfString (s : string) : list byte :=
  map byte_of_ascii (list_ascii_of_string s).

Example sha256_empty :
  toHex (Sha2.sha256 []) =
  "e3b0c44298fc1c149afbf4c8996fb92427ae41e4649b934ca495991b7852b855"%string.
Proof. vm_compute. reflexivity. Qed.

Example sha256_abc :
  toHex (Sha2.sha256 (bytesOfString "abc")) =
  "ba7816bf8f01cfea414140de5dae2223b00361a396177a9cb410ff61f20015ad"%string.
Proof. vm_compute. reflexivity. Qed.

Example keccak256_empty :
  toHex (Keccak.keccak256 []) =
  "c5d2460186f7233c927e7db2dcc703c0e500b653ca82273b7bfad8045d85a470"%string.
Proof. vm_compute. reflexivity. Qed.

Example keccak256_abc :
  toHex (Keccak.keccak256 (bytesOfString "abc")) =
  "4e03657aea45a94fc7d47ba826c8d667c0d1e6e33a64a036ec44f58fa12d6c45"%string.
Proof. vm_compute. reflexivity. Qed.
Section ByteValueFacts.

Lemma Z_of_byte_range (b : byte) : 0 <= Z_of_byte b < 256.
Proof.
  unfold Z_of_byte. pose proof (Byte.to_N_bounded b). lia.
Qed.

Lemma leZ_range (bs : list byte) : 0 <= leZ bs < 256 ^ Z.of_nat (length bs).
Proof.
  induction bs as [|b bs IH]; [cbn; lia|].
  cbn [leZ fold_right length]. fold (leZ bs).
  pose proof (Z_of_byte_range b).
  rewrite Nat2Z.inj_succ, Z.pow_succ_r by lia. lia.
Qed.

End ByteValueFacts.

Module SolBridgeFacts.
Import SolBridge.

Lemma deposits_set_eq (k : Z) (d : DepositRequest) (st : MockBridge) :
  deposits (set_deposit k d st) k = d.
Proof. unfold deposits, set_deposit. cbn. now rewrite lookup_insert_eq. Qed.

Lemma deposits_set_ne (k k' : Z) (d : DepositRequest) (st : MockBridge) :
  k <> k' -> deposits (set_deposit k d st) k' = deposits st k'.
Proof.
  intros Hne. unfold deposits, set_deposit. cbn.
  now rewrite lookup_insert_ne.
Qed.

Lemma extractValue_range (output : list byte) (v : Z) :
  BTCUtils.extractValue output = Ok v -> 0 <= v < 2 ^ 64.
Proof.
  unfold BTCUtils.extractValue, BTCUtils.slice.
  destruct (_ <=? _)%nat eqn:Hlen; cbn; [|discriminate].
  intros [= <-].
  pose proof (leZ_range (firstn 8 (skipn 0 output))) as Hr.
  apply Nat.leb_le in Hlen.
  rewrite length_firstn, length_skipn in Hr.
  replace (Nat.min 8 (length output - 0)) with 8%nat in Hr by lia.
  exact Hr.
Qed.

(** What a successful sweep did. *)
Lemma sweepDeposit_Ok (env : Env) (k : Z) (st st' : MockBridge)
    (evs : list Event) :
  sweepDeposit env k st = Ok (st', evs) ->
  revealedAt (deposits st k) <> 0
  /\ sweptAt (deposits st k) = 0
  /\ st' = set_deposit k
             (with_sweptAt (uint32 (block_timestamp env)) (deposits st k)) st
  /\ evs = [].
Proof.
  unfold sweepDeposit, require.
  destruct (Z.eqb_spec (revealedAt (deposits st k)) 0); cbn; [discriminate|].
  destruct (Z.eqb_spec (sweptAt (deposits st k)) 0); cbn; [|discriminate].
  now intros [= <- <-].
Qed.

Section WithHashes.
Context `{Keccak256} `{Sha256}.

(** What a successful reveal did. *)
Lemma revealDepositWithExtraData_Ok (env : Env) (fundingTx : BitcoinTxInfo)
    (reveal : DepositRevealInfo) (extra : list byte)
    (st st' : MockBridge) (evs : list Event) :
  revealDepositWithExtraData env fundingTx reveal extra st = Ok (st', evs) ->
  let key := depositKeyOf fundingTx (fundingOutputIndex reveal) in
  revealedAt (deposits st key) = 0
  /\ exists fundingOutput fundingOutputAmount,
       BTCUtils.extractOutputAtIndex (outputVector fundingTx)
         (fundingOutputIndex reveal) = Ok fundingOutput
       /\ BTCUtils.extractValue fundingOutput = Ok fundingOutputAmount
       /\ st' = set_deposit key
            {| depositor := msg_sender env;
               amount := fundingOutputAmount;
               revealedAt := uint32 (block_timestamp env);
               vault := reveal_vault reveal;
               treasuryFee :=
                 if _depositTreasuryFeeDivisor st >? 0
                 then fundingOutputAmount / _depositTreasuryFeeDivisor st
                 else 0;
               sweptAt := 0;
               extraData := extra |} st
       /\ evs = [DepositRevealed key].
Proof.
  intros Hok. cbn zeta.
  set (key := depositKeyOf fundingTx (fundingOutputIndex reveal)).
  unfold revealDepositWithExtraData, require in Hok. fold key in Hok.
  destruct (Z.eqb_spec (revealedAt (deposits st key)) 0) as [Hz|];
    cbn in Hok; [|discriminate].
  split; [exact Hz|].
  destruct (BTCUtils.extractOutputAtIndex _ _) as [fundingOutput|] eqn:Hout;
    cbn in Hok; [|discriminate].
  destruct (BTCUtils.extractValue fundingOutput) as [v|] eqn:Hval;
    cbn in Hok; [|discriminate].
  injection Hok as <- <-.
  exists fundingOutput, v. repeat split; [exact Hval].
Qed.

(** How one transaction changes the record stored under a key. *)
Lemma transact_record (env : Env) (c : Call) (st : MockBridge) (k : Z) :
  let d := deposits st k in
  let d' := deposits (transact env c st) k in
  d' = d
  \/ (revealedAt d = 0 /\ sweptAt d' = 0 /\ (exists f r e, c = CallReveal f r e))
  \/ (revealedAt d <> 0 /\ sweptAt d = 0 /\ c = CallSweep k
      /\ d' = with_sweptAt (uint32 (block_timestamp env)) d).
Proof.
  cbn zeta. unfold transact.
  destruct (call env c st) as [[st' evs]|] eqn:Hcall; [|now left].
  destruct c as [f r e|k'| |]; cbn [call] in Hcall.
  - apply revealDepositWithExtraData_Ok in Hcall as (Hz & fo & v & _ & _ & -> & _).
    destruct (Z.eq_dec (depositKeyOf f (fundingOutputIndex r)) k) as [<-|Hne].
    + right; left. rewrite deposits_set_eq. eauto 6.
    + left. now apply deposits_set_ne.
  - apply sweepDeposit_Ok in Hcall as (Hr & Hs & -> & _).
    destruct (Z.eq_dec k' k) as [->|Hne].
    + right; right. now rewrite deposits_set_eq.
    + left. now apply deposits_set_ne.
  - injection Hcall as <- _. now left.
  - injection Hcall as <- _. now left.
Qed.

Lemma transact_sweptImpliesRevealed (env : Env) (c : Call) (st : MockBridge) :
  sweptImpliesRevealed st -> sweptImpliesRevealed (transact env c st).
Proof.
  intros Hinv k.
  destruct (transact_record env c st k) as [-> | [(_ & -> & _) | (Hr & _ & _ & ->)]].
  - apply Hinv.
  - now intros [].
  - now intros _.
Qed.

Lemma reachable_sweptImpliesRevealed (st : MockBridge) :
  reachable st -> sweptImpliesRevealed st.
Proof.
  induction 1 as [|env c st _ IH].
  - intros k. unfold deposits, initial. cbn. now rewrite lookup_empty.
  - now apply transact_sweptImpliesRevealed.
Qed.

Lemma reachable_run (txs : list (Env * Call)) (st : MockBridge) :
  reachable st -> reachable (run txs st).
Proof.
  revert st. induction txs as [|[env c] txs IH]; intros st Hr; [exact Hr|].
  cbn [run]. apply IH. now constructor.
Qed.

(** One transaction either keeps [sweptAt] or takes it from 0 to a
    nonzero value by sweeping a revealed deposit. *)
Lemma transact_sweptAt (env : Env) (c : Call) (st : MockBridge) (k : Z) :
  reachable st ->
  let d := deposits st k in
  let d' := deposits (transact env c st) k in
  sweptAt d' = sweptAt d
  \/ (sweptAt d = 0 /\ sweptAt d' <> 0 /\ revealedAt d <> 0
      /\ revealedAt d' = revealedAt d /\ c = CallSweep k).
Proof.
  intros Hreach. cbn zeta.
  pose proof (reachable_sweptImpliesRevealed st Hreach k) as Hinv.
  destruct (transact_record env c st k)
    as [-> | [(Hz & -> & _) | (Hr & Hs & -> & ->)]].
  - now left.
  - left. destruct (Z.eq_dec (sweptAt (deposits st k)) 0) as [->|Hnz];
      [reflexivity|]. now destruct (Hinv Hnz).
  - cbn [sweptAt revealedAt with_sweptAt].
    destruct (Z.eq_dec (uint32 (block_timestamp env)) 0) as [Hw|Hw].
    + left. now rewrite Hw, Hs.
    + right. now rewrite Hs.
Qed.

Lemma run_sweptAt_stable (txs : list (Env * Call)) (st : MockBridge) (k : Z) :
  reachable st ->
  sweptAt (deposits st k) <> 0 ->
  sweptAt (deposits (run txs st) k) = sweptAt (deposits st k).
Proof.
  revert st. induction txs as [|[env c] txs IH]; intros st Hreach Hnz;
    [reflexivity|].
  cbn [run].
  destruct (transact_sweptAt env c st k Hreach) as [Heq | (Hz & _)];
    [|contradiction].
  rewrite IH; [exact Heq | now constructor | now rewrite Heq].
Qed.

End WithHashes.

(** C4. The [sweptAt] field of a deposit record changes only from 0 to a
    nonzero timestamp, at most once, and only while [revealedAt] is
    nonzero: sweeping an unrevealed deposit fails, sweeping an already
    swept deposit fails, and a failed sweep leaves the record as it
    was. *)
Theorem sweptAt_set_once `{Keccak256} `{Sha256}
    (st : MockBridge) (env : Env) (c : Call) (k : Z)
    (later : list (Env * Call)) :
  reachable st ->
  let d := deposits st k in
  let d' := deposits (transact env c st) k in
  (sweptAt d' = sweptAt d
   \/ (sweptAt d = 0 /\ sweptAt d' <> 0 /\ revealedAt d <> 0
       /\ revealedAt d' = revealedAt d /\ c = CallSweep k))
  /\ (sweptAt d <> 0 ->
      sweptAt (deposits (run later st) k) = sweptAt d)
  /\ (revealedAt d = 0 ->
      sweepDeposit env k st = Revert "Deposit not revealed")
  /\ (revealedAt d <> 0 -> sweptAt d <> 0 ->
      sweepDeposit env k st = Revert "Deposit already swept")
  /\ (revealedAt d <> 0 -> sweptAt d = 0 ->
      sweepDeposit env k st =
        Ok (set_deposit k (with_sweptAt (uint32 (block_timestamp env)) d) st, []))
  /\ (forall reason, sweepDeposit env k st = Revert reason ->
      transact env (CallSweep k) st = st
      /\ deposits (transact env (CallSweep k) st) k = d).
Proof.
  intros Hreach d d'. subst d d'.
  split; [now apply transact_sweptAt|].
  split; [now apply run_sweptAt_stable|].
  split; [|split; [|split]].
  - unfold sweepDeposit, require. now intros ->.
  - unfold sweepDeposit, require. intros Hr Hs.
    destruct (Z.eqb_spec (revealedAt (deposits st k)) 0); [contradiction|].
    destruct (Z.eqb_spec (sweptAt (deposits st k)) 0); [contradiction|].
    reflexivity.
  - unfold sweepDeposit, require. intros Hr Hs.
    destruct (Z.eqb_spec (revealedAt (deposits st k)) 0); [contradiction|].
    now rewrite Hs.
  - intros reason Hfail. unfold transact. cbn [call]. now rewrite Hfail.
Qed.

(** C7. A deposit revealed while the treasury fee divisor is positive is
    stored with treasury fee = funding output amount / divisor, integer
    division with the remainder dropped; the amount is the value read from
    the funding transaction's output at the revealed index. *)
Theorem reveal_treasuryFee `{Keccak256} `{Sha256}
    (env : Env) (fundingTx : BitcoinTxInfo) (reveal : DepositRevealInfo)
    (extra : list byte) (st st' : MockBridge) (evs : list Event) :
  0 < _depositTreasuryFeeDivisor st ->
  revealDepositWithExtraData env fundingTx reveal extra st = Ok (st', evs) ->
  exists fundingOutput fundingOutputAmount,
    BTCUtils.extractOutputAtIndex (outputVector fundingTx)
      (fundingOutputIndex reveal) = Ok fundingOutput
    /\ BTCUtils.extractValue fundingOutput = Ok fundingOutputAmount
    /\ 0 <= fundingOutputAmount < 2 ^ 64
    /\ let d := deposits st'
                  (depositKeyOf fundingTx (fundingOutputIndex reveal)) in
       amount d = fundingOutputAmount
       /\ treasuryFee d = fundingOutputAmount / _depositTreasuryFeeDivisor st
       /\ _depositTreasuryFeeDivisor st * treasuryFee d <= fundingOutputAmount
            < _depositTreasuryFeeDivisor st * (treasuryFee d + 1).
Proof.
  intros Hdiv Hok.
  apply revealDepositWithExtraData_Ok in Hok
    as (_ & fo & v & Hout & Hval & -> & _).
  exists fo, v. repeat split; try assumption;
    try apply (extractValue_range _ _ Hval).
  all: rewrite deposits_set_eq; cbn [amount treasuryFee]; try reflexivity.
  all: destruct (Z.gtb_spec (_depositTreasuryFeeDivisor st) 0); [|lia].
  - reflexivity.
  - apply Z.mul_div_le; lia.
  - pose proof (Z.mul_succ_div_gt v (_depositTreasuryFeeDivisor st)). lia.
Qed.

(** C9. Revealing is create-once: when the deposit key of a funding
    transaction and output index already has a nonzero [revealedAt], a
    further [revealDepositWithExtraData] fails with "Deposit already
    revealed" and the stored record (depositor, amount, treasury fee,
    revealedAt, sweptAt, extraData) stays as it was. *)
Theorem reveal_twice_fails `{Keccak256} `{Sha256}
    (env : Env) (fundingTx : BitcoinTxInfo) (reveal : DepositRevealInfo)
    (extra : list byte) (st : MockBridge) :
  let key := depositKeyOf fundingTx (fundingOutputIndex reveal) in
  revealedAt (deposits st key) <> 0 ->
  revealDepositWithExtraData env fundingTx reveal extra st
    = Revert "Deposit already revealed"
  /\ transact env (CallReveal fundingTx reveal extra) st = st
  /\ deposits (transact env (CallReveal fundingTx reveal extra) st) key
     = deposits st key.
Proof.
  intros key Hrev.
  assert (Hfail : revealDepositWithExtraData env fundingTx reveal extra st
                  = Revert "Deposit already revealed").
  { unfold revealDepositWithExtraData, require. fold key.
    now destruct (Z.eqb_spec (revealedAt (deposits st key)) 0). }
  split; [exact Hfail|].
  unfold transact. cbn [call]. now rewrite Hfail.
Qed.

End SolBridgeFacts.
Module CoreFacts.
Import Core Fixtures.

Lemma forallb_bounds (q r : Z) (values : list Z) :
  forallb (fun v => (q <=? v) && (v <=? q + r)) values = true <->
  forall v, In v values -> q <= v <= q + r.
Proof.
  rewrite forallb_forall. split; intros Hall v Hin.
  - specialize (Hall v Hin). lia.
  - specialize (Hall v Hin). lia.
Qed.

Section WithSha.
Context `{Sha256}.
Variable verify : list byte -> Proof -> outcome unit.

(** Everything an accepted moving-funds proof has passed. *)
Lemma submitMovingFundsProof_Accepted (evenly : list Z -> bool)
    (w : list byte) (tx : BitcoinTxInfo) (proof : Proof) (utxo : Utxo)
    (commitment : list (list byte)) (b b' : Bridge) :
  submitMovingFundsProof verify evenly w tx proof utxo commitment b
    = Accepted b' ->
  exists wal ins outs,
    wallets b !! w = Some wal
    /\ state wal = MovingFunds
    /\ verify (computeTxId tx) proof = Accepted tt
    /\ parseInputs (inputVector tx) = Accepted ins
    /\ parseOutputs (outputVector tx) = Accepted outs
    /\ spendsExactly utxo ins = true
    /\ map targetOf outs = map Some commitment
    /\ evenly (map outValue outs) = true.
Proof.
  unfold submitMovingFundsProof, walletOf, ensure.
  destruct (wallets b !! w) as [wal|]; cbn [andThen]; [|discriminate].
  destruct (state wal) eqn:Hst; cbn [WalletState_eqb andThen];
    try discriminate.
  destruct (verify _ _) as [[]|] eqn:Hv; cbn [andThen]; [|discriminate].
  destruct (parseInputs _) as [ins|] eqn:Hi; cbn [andThen]; [|discriminate].
  destruct (parseOutputs _) as [outs|] eqn:Ho; cbn [andThen]; [|discriminate].
  destruct (spendsExactly utxo ins) eqn:Hsp; cbn [andThen]; [|discriminate].
  destruct (forallb _ outs) eqn:Hty; cbn [andThen]; [|discriminate].
  destruct (bool_decide _) eqn:Hcm; cbn [andThen]; [|discriminate].
  destruct (evenly _) eqn:Hev; cbn [andThen]; [|discriminate].
  intros _. apply bool_decide_eq_true in Hcm.
  exists wal, ins, outs. now repeat split.
Qed.

(** The outcome once the checks that precede the output checks have
    passed. *)
Lemma submitMovingFundsProof_outputs (evenly : list Z -> bool)
    (w : list byte) (tx : BitcoinTxInfo) (proof : Proof) (utxo : Utxo)
    (commitment : list (list byte)) (b : Bridge)
    (wal : Wallet) (ins : list TxInput) (outs : list TxOutput) :
  wallets b !! w = Some wal ->
  state wal = MovingFunds ->
  verify (computeTxId tx) proof = Accepted tt ->
  parseInputs (inputVector tx) = Accepted ins ->
  parseOutputs (outputVector tx) = Accepted outs ->
  spendsExactly utxo ins = true ->
  (forallb (fun o => bool_decide (is_Some (targetOf o))) outs = false ->
   submitMovingFundsProof verify evenly w tx proof utxo commitment b
     = Rejected IllegalOutputType)
  /\ (forallb (fun o => bool_decide (is_Some (targetOf o))) outs = true ->
      map targetOf outs = map Some commitment ->
      evenly (map outValue outs) = false ->
      submitMovingFundsProof verify evenly w tx proof utxo commitment b
        = Rejected UnevenDistribution).
Proof.
  intros Hw Hst Hv Hi Ho Hsp.
  unfold submitMovingFundsProof, walletOf, ensure.
  rewrite Hw. cbn [andThen]. rewrite Hst. cbn [WalletState_eqb andThen].
  rewrite Hv. cbn [andThen]. rewrite Hi. cbn [andThen].
  rewrite Ho. cbn [andThen]. rewrite Hsp. cbn [andThen].
  split.
  - now intros ->.
  - intros -> Hcm ->. rewrite bool_decide_eq_true_2 by exact Hcm.
    reflexivity.
Qed.

Lemma scriptHash_not_target (o : TxOutput) :
  isScriptHash o = true -> targetOf o = None.
Proof.
  unfold isScriptHash, targetOf. now destruct (classify (outScript o)).
Qed.

Lemma scriptHash_fails_forallb (outs : list TxOutput) (o : TxOutput) :
  In o outs -> isScriptHash o = true ->
  forallb (fun o => bool_decide (is_Some (targetOf o))) outs = false.
Proof.
  intros Hin Hsh.
  destruct (forallb _ outs) eqn:Hall; [|reflexivity].
  rewrite forallb_forall in Hall. specialize (Hall o Hin).
  rewrite (scriptHash_not_target o Hsh) in Hall.
  apply bool_decide_eq_true in Hall. now destruct Hall.
Qed.

End WithSha.

(** C5, as stated, fails on the fixture the sources document as valid:
    [MultipleTargetWalletsAndIndivisibleAmount] pays 595484, 595485 and
    595484 out of a main UTXO of 1795453 (fee 9000); the quotient is
    595484 and the remainder 1 sits on the middle output, so a bridge that
    wanted the remainder on the last output would reject it. *)
Lemma remainder_on_last_rejects_indivisible_fixture :
  outputValues MultipleTargetWalletsAndIndivisibleAmount
    = Accepted [595484; 595485; 595484]
  /\ txOutputValue (fixtureMainUtxo MultipleTargetWalletsAndIndivisibleAmount)
       - sumZ [595484; 595485; 595484] = 9000
  /\ quotient [595484; 595485; 595484] = 595484
  /\ remainder [595484; 595485; 595484] = 1
  /\ List.last [595484; 595485; 595484] 0 <> 595484 + 1
  /\ evenWithRemainderOnLast [595484; 595485; 595484] = false
  /\ submitFixture proofHolds evenWithRemainderOnLast
       MultipleTargetWalletsAndIndivisibleAmount
     = Rejected UnevenDistribution.
Proof. vm_compute. repeat split; congruence. Qed.

(** C5, amended. An accepted moving-funds transaction pays every committed
    target wallet, in commitment order, at least the per-wallet quotient of
    the distributable total (main UTXO value minus fee) and at most the
    quotient plus the indivisible remainder; the remainder need not sit on
    the last output.  A transaction that passes the earlier checks but has
    an output outside that range fails with UnevenDistribution.  With a
    valid proof the fixture MultipleTargetWalletsAndIndivisibleAmount is
    accepted and MultipleTargetWalletsButAmountDistributedUnevenly is
    rejected with UnevenDistribution. *)
Theorem moving_funds_even_up_to_remainder `{Sha256}
    (verify : list byte -> Proof -> outcome unit)
    (w : list byte) (tx : BitcoinTxInfo) (proof : Proof) (utxo : Utxo)
    (commitment : list (list byte)) (b b' : Bridge) :
  submitMovingFundsProof verify evenUpToRemainder w tx proof utxo commitment b
    = Accepted b' ->
  (exists outs,
     parseOutputs (outputVector tx) = Accepted outs
     /\ map targetOf outs = map Some commitment
     /\ let values := map outValue outs in
        let fee := txOutputValue utxo - sumZ values in
        let total := txOutputValue utxo - fee in
        let n := Z.of_nat (length commitment) in
        forall v, In v values ->
          total / n <= v <= total / n + total mod n)
  /\ (forall w tx proof utxo commitment b wal ins outs,
        wallets b !! w = Some wal ->
        state wal = MovingFunds ->
        verify (computeTxId tx) proof = Accepted tt ->
        parseInputs (inputVector tx) = Accepted ins ->
        parseOutputs (outputVector tx) = Accepted outs ->
        spendsExactly utxo ins = true ->
        map targetOf outs = map Some commitment ->
        (exists v, In v (map outValue outs)
                   /\ (v < quotient (map outValue outs)
                       \/ quotient (map outValue outs)
                            + remainder (map outValue outs) < v)) ->
        submitMovingFundsProof verify evenUpToRemainder w tx proof utxo
          commitment b = Rejected UnevenDistribution)
  /\ (exists accepted,
        submitFixture proofHolds evenUpToRemainder
          MultipleTargetWalletsAndIndivisibleAmount = Accepted accepted)
  /\ submitFixture proofHolds evenUpToRemainder
       MultipleTargetWalletsButAmountDistributedUnevenly
     = Rejected UnevenDistribution
  /\ (forall anyVerify accepted,
        submitFixture anyVerify evenUpToRemainder
          MultipleTargetWalletsButAmountDistributedUnevenly
        <> Accepted accepted).
Proof.
  intros Hacc.
  apply submitMovingFundsProof_Accepted in Hacc
    as (wal & ins & outs & _ & _ & _ & _ & Ho & _ & Hcm & Hev).
  split; [|split; [|split; [|split]]].
  - exists outs. split; [exact Ho|]. split; [exact Hcm|].
    cbn zeta. intros v Hin.
    replace (txOutputValue utxo
             - (txOutputValue utxo - sumZ (map outValue outs)))
      with (sumZ (map outValue outs)) by lia.
    assert (Hlen : length commitment = length (map outValue outs)).
    { rewrite length_map, <- (length_map Some commitment), <- Hcm.
      now rewrite length_map. }
    rewrite Hlen.
    unfold evenUpToRemainder in Hev.
    now apply (proj1 (forallb_bounds _ _ _) Hev).
  - clear. intros w tx proof utxo commitment b wal ins outs
      Hw Hst Hv Hi Ho Hsp Hcm (v & Hin & Hout).
    eapply submitMovingFundsProof_outputs; eauto.
    + apply forallb_forall. intros o Hino. apply bool_decide_eq_true.
      assert (Hin' : In (targetOf o) (map Some commitment))
        by (rewrite <- Hcm; now apply in_map).
      apply in_map_iff in Hin' as (h & <- & _). eauto.
    + destruct (evenUpToRemainder _) eqn:Hev; [|reflexivity].
      unfold evenUpToRemainder in Hev.
      pose proof (proj1 (forallb_bounds _ _ _) Hev v Hin) as Hb.
      unfold quotient, remainder in Hout. lia.
  - eexists. vm_compute. reflexivity.
  - vm_compute. reflexivity.
  - intros anyVerify accepted Hacc.
    apply submitMovingFundsProof_Accepted in Hacc
      as (_ & _ & outs2 & _ & _ & _ & _ & Ho2 & _ & _ & Hev2).
    vm_compute in Ho2. injection Ho2 as <-. vm_compute in Hev2. discriminate.
Qed.

(** C6. A moving-funds transaction with a P2SH or P2WSH output is rejected
    with IllegalOutputType once the wallet-state, proof and input checks
    have passed, whether or not the script hash equals the committed
    target wallet hash, and is accepted under no circumstances; the fixture
    SingleTargetWalletButP2SH, whose script hash is the committed hash, is
    rejected that way. *)
Theorem moving_funds_script_hash_output_rejected `{Sha256}
    (verify : list byte -> Proof -> outcome unit) (evenly : list Z -> bool)
    (w : list byte) (tx : BitcoinTxInfo) (proof : Proof) (utxo : Utxo)
    (commitment : list (list byte)) (b : Bridge)
    (outs : list TxOutput) (o : TxOutput) :
  parseOutputs (outputVector tx) = Accepted outs ->
  In o outs ->
  isScriptHash o = true ->
  (forall wal ins,
     wallets b !! w = Some wal ->
     state wal = MovingFunds ->
     verify (computeTxId tx) proof = Accepted tt ->
     parseInputs (inputVector tx) = Accepted ins ->
     spendsExactly utxo ins = true ->
     submitMovingFundsProof verify evenly w tx proof utxo commitment b
       = Rejected IllegalOutputType)
  /\ (forall accepted,
        submitMovingFundsProof verify evenly w tx proof utxo commitment b
        <> Accepted accepted)
  /\ (exists fixtureOutput,
        parseOutputs (outputVector (movingFundsTx SingleTargetWalletButP2SH))
          = Accepted [fixtureOutput]
        /\ map (fun h => P2SH h) (targetWalletsCommitment SingleTargetWalletButP2SH)
           = [classify (outScript fixtureOutput)])
  /\ submitFixture proofHolds evenly SingleTargetWalletButP2SH
     = Rejected IllegalOutputType.
Proof.
  intros Ho Hin Hsh.
  pose proof (scriptHash_fails_forallb outs o Hin Hsh) as Hall.
  split; [|split; [|split]].
  - intros wal ins Hw Hst Hv Hi Hsp.
    now eapply submitMovingFundsProof_outputs; eauto.
  - intros accepted Hacc.
    apply submitMovingFundsProof_Accepted in Hacc
      as (_ & _ & outs' & _ & _ & _ & _ & Ho' & _ & Hcm & _).
    rewrite Ho in Ho'. injection Ho' as <-.
    assert (Hty : In (targetOf o) (map Some commitment))
      by (rewrite <- Hcm; now apply in_map).
    rewrite (scriptHash_not_target o Hsh) in Hty.
    apply in_map_iff in Hty as (h & [=] & _).
  - eexists. split; vm_compute; reflexivity.
  - vm_compute. reflexivity.
Qed.

(** C3. A successful sweep of one revealed deposit by a wallet that has no
    main UTXO yet raises the depositor's balance by exactly the deposit
    amount minus the treasury fee recorded at reveal time minus the sweep
    transaction's fee (inputs minus output); for a 10,000,000 sat deposit
    and a 10,000 sat fee that is 10,000,000 - treasuryFee - 10,000. *)
Theorem sweep_single_deposit_credit `{Sha256}
    (verify : list byte -> Proof -> outcome unit) (now : Z)
    (w : list byte) (sweepTx : BitcoinTxInfo) (proof : Proof)
    (priorMainUtxo : Utxo) (b : Bridge)
    (wal : Wallet) (i : TxInput) (d : Deposit) (out : TxOutput) :
  wallets b !! w = Some wal ->
  mainUtxo wal = None ->
  verify (computeTxId sweepTx) proof = Accepted tt ->
  parseInputs (inputVector sweepTx) = Accepted [i] ->
  deposits b !! (prevTxHash i, prevIndex i) = Some d ->
  revealedAt d <> 0 ->
  sweptAt d = 0 ->
  parseOutputs (outputVector sweepTx) = Accepted [out] ->
  0 <= amount d - outValue out <= sweepTxMaxFee b ->
  exists b',
    submitDepositSweepProof verify now w sweepTx proof priorMainUtxo b
      = Accepted b'
    /\ balanceOf b' (depositor d)
       = balanceOf b (depositor d)
         + (amount d - treasuryFee d - (amount d - outValue out))
    /\ (amount d = 10000000 -> amount d - outValue out = 10000 ->
        balanceOf b' (depositor d) - balanceOf b (depositor d)
        = 10000000 - treasuryFee d - 10000)
    /\ deposits b' !! (prevTxHash i, prevIndex i) = Some (markSwept now d)
    /\ wallets b' !! w
       = Some {| state := state wal;
                 mainUtxo := Some {| txHash := computeTxId sweepTx;
                                     txOutputIndex := 0;
                                     txOutputValue := outValue out |} |}.
Proof.
  intros Hw Hmain Hv Hi Hd Hrev Hswept Ho Hfee.
  unfold submitDepositSweepProof, walletOf.
  rewrite Hw. cbn [andThen]. rewrite Hv. cbn [andThen].
  rewrite Hi. cbn [andThen]. rewrite Ho. cbn [andThen].
  cbn [traverse]. unfold resolveInput, ensure.
  rewrite Hmain, Hd, Hswept.
  destruct (Z.eqb_spec (revealedAt d) 0) as [|_]; [contradiction|].
  cbn [negb andThen Z.eqb map inputValue sumZ fold_right].
  rewrite Z.add_0_r.
  destruct (Z.leb_spec 0 (amount d - outValue out)); [|lia].
  destruct (Z.leb_spec (amount d - outValue out) (sweepTxMaxFee b)); [|lia].
  cbn [andThen sweptDeposits flat_map app map snd fst feeShares combine
       fold_left netValue sumZ fold_right].
  eexists. split; [reflexivity|].
  unfold balanceOf, credit. cbn [balances deposits wallets].
  rewrite !lookup_insert_eq. cbn [default].
  unfold netValue, id.
  split; [lia|]. split; [lia|]. split; reflexivity.
Qed.

End CoreFacts.

(* ===================================================================== *)
(** ** Positional notation *)
(* ===================================================================== *)

Module RadixFacts.
Import Radix.

(** Every digit lies in [[0, base)]. *)
Definition inRange (base : Z) (ds : list Z) : Prop :=
  Forall (fun d => 0 <= d < base) ds.

(** No leading zero digit. *)
Definition headNonzero (ds : list Z) : Prop :=
  match ds with
  | [] => True
  | d :: _ => d <> 0
  end.

Section Base.
Variable base : Z.
Hypothesis base_ge_2 : 2 <= base.

Lemma fromDigits_app (xs ys : list Z) :
  fromDigits base (xs ++ ys)
  = fromDigits base xs * base ^ Z.of_nat (length ys) + fromDigits base ys.
Proof.
  unfold fromDigits. rewrite fold_left_app.
  generalize (fold_left (fun acc d => acc * base + d) xs 0) as a.
  induction ys as [|y ys IH]; intros a.
  - cbn. lia.
  - cbn [fold_left length]. rewrite IH, (IH (0 * base + y)).
    rewrite Nat2Z.inj_succ, Z.pow_succ_r by lia. ring.
Qed.

Lemma fromDigits_cons (d : Z) (ds : list Z) :
  fromDigits base (d :: ds)
  = d * base ^ Z.of_nat (length ds) + fromDigits base ds.
Proof.
  change (d :: ds) with ([d] ++ ds). rewrite fromDigits_app.
  unfold fromDigits at 1. cbn. lia.
Qed.

Lemma fromDigits_range (ds : list Z) :
  inRange base ds -> 0 <= fromDigits base ds < base ^ Z.of_nat (length ds).
Proof.
  induction 1 as [|d ds Hd _ IH].
  - cbn. lia.
  - rewrite fromDigits_cons. cbn [length].
    rewrite Nat2Z.inj_succ, Z.pow_succ_r by lia.
    assert (0 < base ^ Z.of_nat (length ds)) by (apply Z.pow_pos_nonneg; lia).
    nia.
Qed.

Lemma fromDigits_lower (d : Z) (ds : list Z) :
  inRange base (d :: ds) -> d <> 0 ->
  base ^ Z.of_nat (length ds) <= fromDigits base (d :: ds).
Proof.
  intros Hr Hd. inversion Hr as [|? ? Hd0 Hds]; subst.
  rewrite fromDigits_cons.
  pose proof (fromDigits_range ds Hds).
  assert (0 < base ^ Z.of_nat (length ds)) by (apply Z.pow_pos_nonneg; lia).
  nia.
Qed.

(** In-range digit strings of equal length with equal value are equal. *)
Lemma fromDigits_inj_length (ds es : list Z) :
  inRange base ds -> inRange base es -> length ds = length es ->
  fromDigits base ds = fromDigits base es -> ds = es.
Proof.
  intros Hds. revert es.
  induction Hds as [|d ds Hd Hds IH]; intros [|e es] Hes Hlen Hval;
    try discriminate; [reflexivity|].
  inversion Hes as [|? ? He Hes']; subst.
  injection Hlen as Hlen.
  rewrite !fromDigits_cons, <- Hlen in Hval.
  pose proof (fromDigits_range ds Hds) as R1.
  pose proof (fromDigits_range es Hes') as R2. rewrite <- Hlen in R2.
  assert (d = e) by nia. subst e.
  f_equal. apply IH; [assumption | assumption | lia].
Qed.

(** Canonical digit strings with equal value are equal. *)
Lemma fromDigits_inj (ds es : list Z) :
  inRange base ds -> headNonzero ds ->
  inRange base es -> headNonzero es ->
  fromDigits base ds = fromDigits base es -> ds = es.
Proof.
  intros Hds Hnd Hes Hne Hval.
  apply fromDigits_inj_length; try assumption.
  assert (Hlt : forall xs ys,
             inRange base xs -> inRange base ys -> headNonzero ys ->
             fromDigits base xs = fromDigits base ys ->
             (length ys <= length xs)%nat).
  { intros xs [|y ys] Hxs Hys Hny Heq; [cbn; lia|].
    pose proof (fromDigits_range xs Hxs) as Rx.
    pose proof (fromDigits_lower y ys Hys Hny) as Ry.
    rewrite <- Heq in Ry.
    destruct (Nat.le_gt_cases (length (y :: ys)) (length xs)) as [|Hgt];
      [assumption|].
    cbn [length] in Hgt.
    assert (base ^ Z.of_nat (length xs) <= base ^ Z.of_nat (length ys))
      by (apply Z.pow_le_mono_r; lia).
    lia. }
  apply Nat.le_antisymm; [apply (Hlt es ds) | apply (Hlt ds es)]; auto.
Qed.

Lemma digitsOf_value (fuel : nat) (n : Z) (acc : list Z) :
  0 <= n < 2 ^ Z.of_nat fuel ->
  fromDigits base (digitsOf fuel base n acc)
  = n * base ^ Z.of_nat (length acc) + fromDigits base acc.
Proof.
  revert n acc. induction fuel as [|fuel IH]; intros n acc Hn.
  - cbn in Hn. cbn [digitsOf]. assert (n = 0) by lia. subst. lia.
  - cbn [digitsOf]. destruct (Z.leb_spec n 0) as [Hle|Hgt]; [lia|].
    rewrite Nat2Z.inj_succ, Z.pow_succ_r in Hn by lia.
    rewrite IH.
    + rewrite fromDigits_cons. cbn [length].
      rewrite Nat2Z.inj_succ, Z.pow_succ_r by lia.
      pose proof (Z.div_mod n base ltac:(lia)) as Hdm.
      remember (n / base) as q. remember (n mod base) as r.
      rewrite Hdm. ring.
    + split; [apply Z.div_pos; lia|].
      apply Z.div_lt_upper_bound; [lia|]. nia.
Qed.

Lemma digitsOf_inRange (fuel : nat) (n : Z) (acc : list Z) :
  inRange base acc -> inRange base (digitsOf fuel base n acc).
Proof.
  revert n acc. induction fuel as [|fuel IH]; intros n acc Hacc; [exact Hacc|].
  cbn [digitsOf]. destruct (n <=? 0); [exact Hacc|].
  apply IH. constructor; [|exact Hacc]. apply Z.mod_pos_bound. lia.
Qed.

Lemma digitsOf_headNonzero (fuel : nat) (n : Z) (acc : list Z) :
  0 <= n < 2 ^ Z.of_nat fuel ->
  (n = 0 -> headNonzero acc) ->
  headNonzero (digitsOf fuel base n acc).
Proof.
  revert n acc. induction fuel as [|fuel IH]; intros n acc Hn Hacc.
  - cbn in Hn. apply Hacc. lia.
  - cbn [digitsOf]. destruct (Z.leb_spec n 0) as [Hle|Hgt]; [apply Hacc; lia|].
    rewrite Nat2Z.inj_succ, Z.pow_succ_r in Hn by lia.
    apply IH.
    + split; [apply Z.div_pos; lia|].
      apply Z.div_lt_upper_bound; [lia|]. nia.
    + intros Hq. cbn.
      rewrite Z.mod_eq by lia. rewrite Hq. lia.
Qed.

Lemma toDigits_fuel (n : Z) :
  0 <= n -> 0 <= n < 2 ^ Z.of_nat (S (Z.to_nat (Z.log2 n))).
Proof.
  intros Hn. split; [exact Hn|].
  rewrite Nat2Z.inj_succ, Z2Nat.id by apply Z.log2_nonneg.
  destruct (Z.eq_dec n 0) as [->|Hnz]; [cbn; lia|].
  apply Z.log2_spec. lia.
Qed.

Lemma toDigits_value (n : Z) : 0 <= n -> fromDigits base (toDigits base n) = n.
Proof.
  intros Hn. unfold toDigits.
  rewrite digitsOf_value by now apply toDigits_fuel. cbn. lia.
Qed.

Lemma toDigits_inRange (n : Z) : inRange base (toDigits base n).
Proof. apply digitsOf_inRange. constructor. Qed.

Lemma toDigits_headNonzero (n : Z) : 0 <= n -> headNonzero (toDigits base n).
Proof.
  intros Hn. apply digitsOf_headNonzero; [now apply toDigits_fuel | now cbn].
Qed.

(** Writing out the value of a canonical digit string gives it back. *)
Lemma toDigits_fromDigits (ds : list Z) :
  inRange base ds -> headNonzero ds ->
  toDigits base (fromDigits base ds) = ds.
Proof.
  intros Hr Hh.
  pose proof (fromDigits_range ds Hr) as [Hnn _].
  apply fromDigits_inj;
    auto using toDigits_inRange, toDigits_headNonzero, toDigits_value.
Qed.

(** A number of at least [base ^ k] has more than [k] digits. *)
Lemma toDigits_length (n : Z) (k : nat) :
  base ^ Z.of_nat k <= n -> (k < length (toDigits base n))%nat.
Proof.
  intros Hk.
  assert (0 <= n).
  { assert (0 < base ^ Z.of_nat k) by (apply Z.pow_pos_nonneg; lia). lia. }
  pose proof (fromDigits_range _ (toDigits_inRange n)) as Hr.
  rewrite toDigits_value in Hr by assumption.
  destruct (Nat.lt_ge_cases k (length (toDigits base n))) as [|Hge];
    [assumption|].
  assert (base ^ Z.of_nat (length (toDigits base n)) <= base ^ Z.of_nat k)
    by (apply Z.pow_le_mono_r; lia).
  lia.
Qed.

End Base.

Lemma leadingZeros_app (z : nat) (ds : list Z) :
  headNonzero ds -> leadingZeros (repeat 0 z ++ ds) = z.
Proof.
  intros Hh. induction z as [|z IH]; cbn.
  - destruct ds as [|d ds]; [reflexivity|]. cbn in Hh.
    destruct d; try reflexivity. now destruct Hh.
  - now rewrite IH.
Qed.

Lemma leadingZeros_split (ds : list Z) :
  ds = repeat 0 (leadingZeros ds) ++ skipn (leadingZeros ds) ds
  /\ headNonzero (skipn (leadingZeros ds) ds).
Proof.
  induction ds as [|d ds [IH1 IH2]]; [now cbn|].
  destruct d; cbn [leadingZeros]; try (cbn; split; [reflexivity | discriminate]).
  cbn [repeat skipn app]. split; [now rewrite <- IH1 | exact IH2].
Qed.

End RadixFacts.

(* ===================================================================== *)
(** ** Base58Check *)
(* ===================================================================== *)

Section ByteConversions.

Lemma byte_of_Z_of_byte (b : byte) : byte_of_Z (Z_of_byte b) = b.
Proof.
  unfold byte_of_Z, Z_of_byte.
  pose proof (Byte.to_N_bounded b).
  rewrite Z.mod_small by lia. rewrite N2Z.id. apply byte_of_N_to_N.
Qed.

Lemma Z_of_byte_of_Z (z : Z) : 0 <= z < 256 -> Z_of_byte (byte_of_Z z) = z.
Proof.
  intros Hz. unfold byte_of_Z, Z_of_byte.
  rewrite to_N_byte_of_N, Z.mod_small by lia.
  rewrite N.mod_small by lia. lia.
Qed.

Lemma map_byte_of_Z_of_byte (bs : list byte) :
  map byte_of_Z (map Z_of_byte bs) = bs.
Proof.
  rewrite map_map. rewrite <- (map_id bs) at 2.
  apply map_ext. intros b. apply byte_of_Z_of_byte.
Qed.

Lemma map_Z_of_byte_of_Z (zs : list Z) :
  RadixFacts.inRange 256 zs -> map Z_of_byte (map byte_of_Z zs) = zs.
Proof.
  induction 1 as [|z zs Hz _ IH]; [reflexivity|].
  cbn [map]. now rewrite IH, Z_of_byte_of_Z.
Qed.

Lemma bytes_inRange (bs : list byte) : RadixFacts.inRange 256 (map Z_of_byte bs).
Proof.
  induction bs as [|b bs IH]; constructor; [apply Z_of_byte_range | exact IH].
Qed.

Lemma beZ_fromDigits (bs : list byte) :
  beZ bs = Radix.fromDigits 256 (map Z_of_byte bs).
Proof.
  unfold beZ, Radix.fromDigits.
  generalize 0 as a. induction bs as [|b bs IH]; intros a; [reflexivity|].
  cbn [fold_left map]. rewrite IH. f_equal. lia.
Qed.

End ByteConversions.

(** A property checked on every number below a bound. *)
Lemma forall_below (P : Z -> bool) (n : nat) :
  forallb P (map Z.of_nat (seq 0 n)) = true ->
  forall d, 0 <= d < Z.of_nat n -> P d = true.
Proof.
  rewrite forallb_forall. intros Hall d Hd. apply Hall.
  apply in_map_iff. exists (Z.to_nat d). split; [lia|]. apply in_seq. lia.
Qed.

Module Base58Facts.
Import Radix RadixFacts Base58.

Lemma indexIn_range (c : ascii) (l : list ascii) (i d : Z) :
  indexIn c l i = Some d -> i <= d < i + Z.of_nat (length l).
Proof.
  revert i. induction l as [|a l IH]; intros i; [discriminate|].
  cbn [indexIn length]. destruct (Ascii.eqb a c).
  - intros [= <-]. lia.
  - intros Hd%IH. lia.
Qed.

Lemma indexOf_range (c : ascii) (d : Z) : indexOf c = Some d -> 0 <= d < 58.
Proof. intros Hd%indexIn_range. cbn in Hd. lia. Qed.

Lemma base58_indexOf_charOf (d : Z) : 0 <= d < 58 -> indexOf (charOf d) = Some d.
Proof.
  intros Hd.
  apply (bool_decide_eq_true_1 (indexOf (charOf d) = Some d)).
  revert d Hd.
  apply (forall_below (fun d => bool_decide (indexOf (charOf d) = Some d)) 58).
  vm_compute. reflexivity.
Qed.

Lemma mapM_indexOf_encoded (zeroes : nat) (digs : list Z) :
  inRange 58 digs ->
  mapM indexOf (repeat "1"%char zeroes ++ map charOf digs)
  = Some (repeat 0 zeroes ++ digs).
Proof.
  intros Hr. apply mapM_Some. apply Forall2_app.
  - induction zeroes as [|z IH]; constructor; [reflexivity | exact IH].
  - induction Hr as [|d digs Hd _ IH]; constructor;
      [now apply base58_indexOf_charOf | exact IH].
Qed.

Lemma skipn_repeat_app {A} (x : A) (n : nat) (l : list A) :
  skipn n (repeat x n ++ l) = l.
Proof. induction n as [|n IH]; [reflexivity | exact IH]. Qed.

Lemma leadingZeros_bytes (bs : list byte) :
  repeat x00 (leadingZeros (map Z_of_byte bs))
    ++ skipn (leadingZeros (map Z_of_byte bs)) bs = bs.
Proof.
  induction bs as [|b bs IH]; [reflexivity|].
  cbn [map leadingZeros].
  destruct (Z_of_byte b) eqn:Hb; try reflexivity.
  cbn [repeat skipn app]. rewrite IH. f_equal.
  now rewrite <- (byte_of_Z_of_byte b), Hb.
Qed.

(** Decoding what [encode] produced gives the octets back. *)
Lemma base58_decode_encode (bs : list byte) : decode (encode bs) = Some bs.
Proof.
  unfold decode, encode.
  set (values := map Z_of_byte bs).
  set (zeroes := leadingZeros values).
  destruct (leadingZeros_split values) as [_ Hhead]. fold zeroes in Hhead.
  assert (Hrange : inRange 256 (skipn zeroes values)).
  { apply Forall_drop, bytes_inRange. }
  pose proof (fromDigits_range 256 ltac:(lia) _ Hrange) as [Hnn _].
  rewrite list_ascii_of_string_of_list_ascii.
  rewrite mapM_indexOf_encoded by (apply toDigits_inRange; lia).
  rewrite leadingZeros_app by (apply toDigits_headNonzero; lia).
  rewrite skipn_repeat_app.
  rewrite toDigits_value by lia.
  rewrite toDigits_fromDigits by (assumption || lia).
  subst values. rewrite skipn_map, map_byte_of_Z_of_byte.
  f_equal. apply leadingZeros_bytes.
Qed.

(** A text whose first character is not "1" decodes, if at all, to at
least [k + 1] octets once [58 ^ (length - 1)] reaches [256 ^ k]. *)
Lemma base58_decode_length (c : ascii) (s : string) (k : nat) (buffer : list byte) :
  indexOf c <> Some 0 ->
  256 ^ Z.of_nat k <= 58 ^ Z.of_nat (String.length s) ->
  decode (String c s) = Some buffer ->
  (k < length buffer)%nat.
Proof.
  intros Hc Hk. unfold decode.
  destruct (mapM indexOf (list_ascii_of_string (String c s))) as [ds|] eqn:Hds;
    [|discriminate].
  intros [= <-].
  apply mapM_Some in Hds. cbn [list_ascii_of_string] in Hds.
  inversion Hds as [|? d ? ds' Hd Hrest]; subst.
  assert (Hall : inRange 58 (d :: ds')).
  { apply Forall_forall. intros x Hin.
    apply list_elem_of_lookup in Hin as [i Hi].
    destruct (Forall2_lookup_r _ _ _ _ _ Hds Hi) as (ch & _ & Hch).
    now apply indexOf_range in Hch. }
  assert (Hd0 : d <> 0) by (intros ->; now apply Hc).
  assert (Hz : leadingZeros (d :: ds') = 0%nat).
  { cbn. destruct d; try reflexivity. now destruct Hd0. }
  rewrite Hz. cbn [repeat app skipn].
  rewrite length_map.
  apply toDigits_length; [lia|].
  etransitivity; [exact Hk|].
  pose proof (fromDigits_lower 58 ltac:(lia) d ds' Hall Hd0) as Hlow.
  apply Forall2_length in Hrest.
  rewrite <- Hrest in Hlow.
  replace (length (list_ascii_of_string s)) with (String.length s) in Hlow;
    [exact Hlow|].
  clear. induction s as [|a s IH]; [reflexivity|]. cbn. now rewrite IH.
Qed.

End Base58Facts.

Module Bs58checkFacts.
Import Bs58check.

Section WithSha.
Context `{Sha256}.

Lemma checksumOf_length (payload : list byte) :
  length (checksumOf payload) = 4%nat.
Proof.
  unfold checksumOf, hash256. rewrite length_firstn, sha256_length. lia.
Qed.

Lemma bs58check_decode_encode (payload : list byte) :
  decode (encode payload) = Some payload.
Proof.
  unfold decode, encode. rewrite Base58Facts.base58_decode_encode.
  pose proof (checksumOf_length payload) as Hlen.
  rewrite length_app, Hlen.
  replace (length payload + 4 - 4)%nat with (length payload) by lia.
  rewrite firstn_app, firstn_all, Nat.sub_diag, firstn_0, app_nil_r.
  rewrite skipn_app, skipn_all, Nat.sub_diag. cbn [skipn app].
  replace (forallb _ _) with true; [reflexivity|].
  symmetry. apply forallb_forall. intros i _. apply Z.eqb_refl.
Qed.

(** [decode] drops four octets from what Base58 yields. *)
Lemma bs58check_decode_length (s : string) (payload : list byte) :
  decode s = Some payload ->
  exists buffer, Base58.decode s = Some buffer
                 /\ length payload = (length buffer - 4)%nat.
Proof.
  unfold decode. destruct (Base58.decode s) as [buffer|]; [|discriminate].
  destruct (forallb _ _); [|discriminate].
  intros [= <-]. exists buffer. split; [reflexivity|].
  rewrite length_firstn. lia.
Qed.

End WithSha.
End Bs58checkFacts.

(* ===================================================================== *)
(** ** Bech32: regrouping bits *)
(* ===================================================================== *)

Module ConvertFacts.
Import Radix RadixFacts Bech32.

Lemma land_mask (a n : Z) :
  0 <= n -> Z.land a (Z.shiftl 1 n - 1) = a mod 2 ^ n.
Proof.
  intros Hn. rewrite Z.shiftl_1_l, Z.sub_1_r, <- Z.ones_equiv.
  now apply Z.land_ones.
Qed.

Lemma land_shiftl_small (a d n : Z) :
  0 <= n -> 0 <= d < 2 ^ n -> Z.land (Z.shiftl a n) d = 0.
Proof.
  intros Hn Hd.
  apply Z.bits_inj'. intros i Hi.
  rewrite Z.land_spec, Z.bits_0.
  destruct (Z.lt_ge_cases i n) as [Hlt|Hge].
  - now rewrite Z.shiftl_spec_low.
  - rewrite andb_comm.
    destruct (Z.eq_dec d 0) as [->|Hd0]; [now rewrite Z.bits_0|].
    assert (Hlog : Z.log2 d < i).
    { apply Z.lt_le_trans with n; [|exact Hge].
      apply Z.log2_lt_pow2; lia. }
    rewrite (Z.bits_above_log2 d i) by lia. reflexivity.
Qed.

Lemma lxor_shiftl_small (a d n : Z) :
  0 <= n -> 0 <= d < 2 ^ n -> Z.lxor (Z.shiftl a n) d = a * 2 ^ n + d.
Proof.
  intros Hn Hd.
  rewrite <- Z.add_nocarry_lxor by now apply land_shiftl_small.
  now rewrite Z.shiftl_mul_pow2.
Qed.

Lemma lor_shiftl_small (a d n : Z) :
  0 <= n -> 0 <= d < 2 ^ n -> Z.lor (Z.shiftl a n) d = a * 2 ^ n + d.
Proof.
  intros Hn Hd.
  rewrite <- Z.lxor_lor by now apply land_shiftl_small.
  now apply lxor_shiftl_small.
Qed.

Section Regroup.
Variables inBits outBits : Z.
Hypothesis inBits_pos : 0 < inBits.
Hypothesis outBits_pos : 0 < outBits.

(** What the loop of [convert] maintains after consuming [consumed]. *)
Definition regrouped (consumed : list Z) (st : Z * Z * list Z) : Prop :=
  let '(value, bits, result) := st in
  value = fromDigits (2 ^ inBits) consumed
  /\ 0 <= value
  /\ 0 <= bits < outBits
  /\ inRange (2 ^ outBits) result
  /\ fromDigits (2 ^ outBits) result = value / 2 ^ bits
  /\ Z.of_nat (length result) * outBits + bits
     = Z.of_nat (length consumed) * inBits.

Lemma pow2_ge_2 (n : Z) : 0 < n -> 2 <= 2 ^ n.
Proof.
  intros Hn. change 2 with (2 ^ 1) at 1. apply Z.pow_le_mono_r; lia.
Qed.

Lemma drain_spec (fuel : nat) (value bits : Z) (result : list Z) :
  0 <= value -> 0 <= bits -> (Z.to_nat bits <= fuel)%nat ->
  inRange (2 ^ outBits) result ->
  fromDigits (2 ^ outBits) result = value / 2 ^ bits ->
  exists bits' result',
    drain fuel value bits outBits result = (bits', result')
    /\ 0 <= bits' < outBits
    /\ inRange (2 ^ outBits) result'
    /\ fromDigits (2 ^ outBits) result' = value / 2 ^ bits'
    /\ Z.of_nat (length result') * outBits + bits'
       = Z.of_nat (length result) * outBits + bits.
Proof.
  pose proof (pow2_ge_2 outBits outBits_pos) as Hbase.
  revert bits result. induction fuel as [|fuel IH];
    intros bits result Hv Hb Hfuel Hr Hval.
  - exists bits, result. cbn [drain]. repeat split; try assumption; lia.
  - cbn [drain]. destruct (Z.leb_spec outBits bits) as [Hle|Hgt].
    + destruct (IH (bits - outBits)
                  (result ++ [Z.land (Z.shiftr value (bits - outBits))
                                     (Z.shiftl 1 outBits - 1)]))
        as (bits' & result' & Hd & Hb' & Hr' & Hval' & Hlen');
        try lia.
      * apply Forall_app. split; [exact Hr|]. constructor; [|constructor].
        rewrite land_mask by lia. apply Z.mod_pos_bound. lia.
      * rewrite fromDigits_app, Hval. cbn [length].
        unfold fromDigits at 1. cbn [fold_left].
        rewrite land_mask, Z.shiftr_div_pow2 by lia.
        replace (2 ^ bits) with (2 ^ (bits - outBits) * 2 ^ outBits)
          by (rewrite <- Z.pow_add_r by lia; f_equal; lia).
        assert (0 < 2 ^ (bits - outBits)) by (apply Z.pow_pos_nonneg; lia).
        rewrite <- Z.div_div by lia.
        change (Z.of_nat 1) with 1. rewrite Z.pow_1_r.
        pose proof (Z.div_mod (value / 2 ^ (bits - outBits)) (2 ^ outBits)
                      ltac:(lia)).
        lia.
      * exists bits', result'. rewrite Hd.
        repeat split; try assumption; try lia.
        rewrite Hlen', length_app. cbn [length]. lia.
    + exists bits, result. repeat split; try assumption; lia.
Qed.

Lemma convertStep_regrouped (consumed : list Z) (st : Z * Z * list Z) (d : Z) :
  0 <= d < 2 ^ inBits ->
  regrouped consumed st ->
  regrouped (consumed ++ [d]) (convertStep inBits outBits st d).
Proof.
  intros Hd. destruct st as [[value bits] result].
  intros (Hval & Hnn & Hb & Hr & Hres & Hlen).
  unfold convertStep.
  rewrite lor_shiftl_small by lia.
  assert (Hnn' : 0 <= value * 2 ^ inBits + d).
  { assert (0 < 2 ^ inBits) by (apply Z.pow_pos_nonneg; lia). nia. }
  destruct (drain_spec (Z.to_nat inBits + Z.to_nat bits)
              (value * 2 ^ inBits + d) (bits + inBits) result)
    as (bits' & result' & Hdr & Hb' & Hr' & Hval' & Hlen');
    try assumption; try lia.
  - rewrite Hres.
    rewrite Z.add_comm with (n := bits), Z.pow_add_r by lia.
    assert (0 < 2 ^ inBits) by (apply Z.pow_pos_nonneg; lia).
    assert (0 < 2 ^ bits) by (apply Z.pow_pos_nonneg; lia).
    rewrite <- Z.div_div by lia.
    rewrite Z.div_add_l by lia.
    rewrite (Z.div_small d) by lia. f_equal. lia.
  - rewrite Hdr. unfold regrouped.
    split.
    { rewrite fromDigits_app, <- Hval. cbn [length].
      unfold fromDigits. cbn [fold_left].
      change (Z.of_nat 1) with 1. rewrite Z.pow_1_r. lia. }
    repeat split; try assumption; try lia.
    rewrite Hlen', length_app. cbn [length]. lia.
Qed.

Lemma fold_regrouped (data consumed : list Z) (st : Z * Z * list Z) :
  inRange (2 ^ inBits) data ->
  regrouped consumed st ->
  regrouped (consumed ++ data)
            (fold_left (convertStep inBits outBits) data st).
Proof.
  intros Hdata. revert consumed st.
  induction Hdata as [|d data Hd _ IH]; intros consumed st Hst.
  - now rewrite app_nil_r.
  - cbn [fold_left].
    replace (consumed ++ d :: data) with ((consumed ++ [d]) ++ data)
      by now rewrite <- app_assoc.
    apply IH. now apply convertStep_regrouped.
Qed.

Lemma convert_regrouped (data : list Z) :
  inRange (2 ^ inBits) data ->
  regrouped data (fold_left (convertStep inBits outBits) data (0, 0, [])).
Proof.
  intros Hdata.
  apply (fold_regrouped data [] (0, 0, []) Hdata).
  unfold regrouped, fromDigits. cbn.
  repeat split; try lia; constructor.
Qed.

End Regroup.

(** Twenty octets make thirty-two 5-bit words, and come back from
them. *)
Lemma toWords_fromWords (bytes : list byte) :
  length bytes = 20%nat ->
  length (toWords bytes) = 32%nat
  /\ inRange 32 (toWords bytes)
  /\ fromWords (toWords bytes) = Some bytes.
Proof.
  intros Hlen.
  pose proof (convert_regrouped 8 5 ltac:(lia) ltac:(lia)
                (map Z_of_byte bytes) (bytes_inRange bytes)) as Hto.
  assert (Htw : exists value words,
             fold_left (convertStep 8 5) (map Z_of_byte bytes) (0, 0, [])
             = (value, 0, words)
             /\ value = fromDigits (2 ^ 8) (map Z_of_byte bytes)
             /\ inRange (2 ^ 5) words
             /\ fromDigits (2 ^ 5) words = value
             /\ length words = 32%nat).
  { destruct (fold_left (convertStep 8 5) (map Z_of_byte bytes) (0, 0, []))
      as [[value bits] words].
    destruct Hto as (Hval & Hnn & Hb & Hr & Hres & Hcount).
    rewrite length_map, Hlen in Hcount.
    assert (bits = 0) by lia. subst bits.
    rewrite Z.pow_0_r, Z.div_1_r in Hres.
    exists value, words. repeat split; try assumption. lia. }
  destruct Htw as (value & words & Hfold & Hval & Hr & Hres & Hwords).
  assert (Hto' : toWords bytes = words).
  { unfold toWords, convert. now rewrite Hfold. }
  rewrite Hto'. clear Hto Hto' Hfold.
  split; [exact Hwords|]. split; [exact Hr|].
  pose proof (convert_regrouped 5 8 ltac:(lia) ltac:(lia) words Hr) as Hfrom.
  unfold fromWords, convert.
  destruct (fold_left (convertStep 5 8) words (0, 0, []))
    as [[value2 bits2] octets].
  destruct Hfrom as (Hval2 & Hnn2 & Hb2 & Hr2 & Hres2 & Hcount2).
  rewrite Hwords in Hcount2.
  assert (bits2 = 0) by lia. subst bits2.
  assert (Hoctets : length octets = 20%nat) by lia.
  destruct (Z.leb_spec 5 0); [lia|].
  rewrite land_mask by lia.
  rewrite Z.shiftl_mul_pow2 by lia.
  rewrite Z.sub_0_r, Z.mod_mul by lia.
  cbn [Z.eqb negb option_map].
  f_equal.
  rewrite Z.pow_0_r, Z.div_1_r in Hres2.
  assert (Heq : octets = map Z_of_byte bytes).
  { apply (fromDigits_inj_length (2 ^ 8));
      [ lia | exact Hr2 | apply bytes_inRange
      | now rewrite length_map, Hlen
      | rewrite Hres2, Hval2, Hres; exact Hval ]. }
  rewrite Heq. apply map_byte_of_Z_of_byte.
Qed.

End ConvertFacts.

(* ===================================================================== *)
(** ** Bech32: the checksum *)
(* ===================================================================== *)

Module PolymodFacts.
Import Radix RadixFacts Bech32.

(** A map on numbers that commutes with exclusive or. *)
Definition xorLinear (f : Z -> Z) : Prop :=
  forall a b, f (Z.lxor a b) = Z.lxor (f a) (f b).

Lemma xorLinear_lxor (f g : Z -> Z) :
  xorLinear f -> xorLinear g -> xorLinear (fun x => Z.lxor (f x) (g x)).
Proof.
  intros Hf Hg a b. rewrite Hf, Hg.
  rewrite !Z.lxor_assoc. f_equal.
  rewrite <- !Z.lxor_assoc. f_equal. apply Z.lxor_comm.
Qed.

Lemma land_lxor_distr_l (a b c : Z) :
  Z.land (Z.lxor a b) c = Z.lxor (Z.land a c) (Z.land b c).
Proof.
  apply Z.bits_inj'. intros n Hn.
  rewrite Z.land_spec, !Z.lxor_spec, !Z.land_spec.
  now destruct (Z.testbit a n), (Z.testbit b n), (Z.testbit c n).
Qed.

Lemma land_1_cases (x : Z) : Z.land x 1 = 0 \/ Z.land x 1 = 1.
Proof.
  assert (Hmod : Z.land x 1 = x mod 2)
    by (apply (Z.land_ones x 1); lia).
  pose proof (Z.mod_pos_bound x 2 ltac:(lia)). lia.
Qed.

(** The generator selected by one of the five top bits. *)
Definition generatorTerm (k G : Z) (pre : Z) : Z :=
  Z.land (- Z.land (Z.shiftr (Z.shiftr pre 25) k) 1) G.

Lemma generatorTerm_linear (k G : Z) : xorLinear (generatorTerm k G).
Proof.
  intros a b. unfold generatorTerm.
  rewrite !Z.shiftr_lxor, land_lxor_distr_l.
  destruct (land_1_cases (Z.shiftr (Z.shiftr a 25) k)) as [-> | ->],
           (land_1_cases (Z.shiftr (Z.shiftr b 25) k)) as [-> | ->].
  - change (- Z.lxor 0 0) with 0. change (- 0) with 0.
    now rewrite Z.land_0_l.
  - change (- Z.lxor 0 1) with (-1). change (- 0) with 0.
    now rewrite Z.land_0_l, Z.lxor_0_l.
  - change (- Z.lxor 1 0) with (-1). change (- 0) with 0.
    now rewrite Z.land_0_l, Z.lxor_0_r.
  - change (- Z.lxor 1 1) with 0.
    now rewrite Z.land_0_l, Z.lxor_nilpotent.
Qed.

Lemma generatorTerm_cases (k G pre : Z) :
  generatorTerm k G pre = 0 \/ generatorTerm k G pre = G.
Proof.
  unfold generatorTerm.
  destruct (land_1_cases (Z.shiftr (Z.shiftr pre 25) k)) as [-> | ->].
  - left. apply Z.land_0_l.
  - right. apply Z.land_m1_l.
Qed.

Lemma polymodStep_terms (pre : Z) :
  polymodStep pre =
  Z.lxor (Z.lxor (Z.lxor (Z.lxor (Z.lxor
    (Z.shiftl (Z.land pre 0x1ffffff) 5)
    (generatorTerm 0 0x3b6a57b2 pre))
    (generatorTerm 1 0x26508e6d pre))
    (generatorTerm 2 0x1ea119fa pre))
    (generatorTerm 3 0x3d4233dd pre))
    (generatorTerm 4 0x2a1462b3 pre).
Proof. reflexivity. Qed.

Lemma polymodStep_linear : xorLinear polymodStep.
Proof.
  intros a b. rewrite !polymodStep_terms.
  apply (xorLinear_lxor
           (fun x => Z.lxor (Z.lxor (Z.lxor (Z.lxor
              (Z.shiftl (Z.land x 0x1ffffff) 5)
              (generatorTerm 0 0x3b6a57b2 x))
              (generatorTerm 1 0x26508e6d x))
              (generatorTerm 2 0x1ea119fa x))
              (generatorTerm 3 0x3d4233dd x))
           (generatorTerm 4 0x2a1462b3)); [|apply generatorTerm_linear].
  apply (xorLinear_lxor
           (fun x => Z.lxor (Z.lxor (Z.lxor
              (Z.shiftl (Z.land x 0x1ffffff) 5)
              (generatorTerm 0 0x3b6a57b2 x))
              (generatorTerm 1 0x26508e6d x))
              (generatorTerm 2 0x1ea119fa x))
           (generatorTerm 3 0x3d4233dd)); [|apply generatorTerm_linear].
  apply (xorLinear_lxor
           (fun x => Z.lxor (Z.lxor
              (Z.shiftl (Z.land x 0x1ffffff) 5)
              (generatorTerm 0 0x3b6a57b2 x))
              (generatorTerm 1 0x26508e6d x))
           (generatorTerm 2 0x1ea119fa)); [|apply generatorTerm_linear].
  apply (xorLinear_lxor
           (fun x => Z.lxor
              (Z.shiftl (Z.land x 0x1ffffff) 5)
              (generatorTerm 0 0x3b6a57b2 x))
           (generatorTerm 1 0x26508e6d)); [|apply generatorTerm_linear].
  apply (xorLinear_lxor
           (fun x => Z.shiftl (Z.land x 0x1ffffff) 5)
           (generatorTerm 0 0x3b6a57b2)); [|apply generatorTerm_linear].
  intros x y. now rewrite land_lxor_distr_l, Z.shiftl_lxor.
Qed.

Lemma lxor_range (n a b : Z) :
  0 <= a < 2 ^ n -> 0 <= b < 2 ^ n -> 0 <= Z.lxor a b < 2 ^ n.
Proof.
  intros Ha Hb.
  assert (Hnn : 0 <= Z.lxor a b) by (apply Z.lxor_nonneg; lia).
  split; [exact Hnn|].
  destruct (Z.eq_dec (Z.lxor a b) 0) as [->|Hnz]; [lia|].
  assert (Hn : 0 < n).
  { destruct (Z.lt_ge_cases 0 n) as [|Hle]; [assumption|].
    assert (2 ^ n <= 1).
    { destruct (Z.eq_dec n 0) as [->|]; [cbn; lia|].
      rewrite Z.pow_neg_r by lia. lia. }
    assert (a = 0) by lia. assert (b = 0) by lia. subst.
    now cbn in Hnz. }
  apply Z.log2_lt_pow2; [lia|].
  eapply Z.le_lt_trans; [apply Z.log2_lxor; lia|].
  assert (Hlog : forall x, 0 <= x < 2 ^ n -> Z.log2 x < n).
  { intros x Hx. destruct (Z.eq_dec x 0) as [->|]; [cbn; lia|].
    apply Z.log2_lt_pow2; lia. }
  pose proof (Hlog a Ha). pose proof (Hlog b Hb). lia.
Qed.

Lemma polymodStep_range (pre : Z) :
  0 <= pre < 2 ^ 30 -> 0 <= polymodStep pre < 2 ^ 30.
Proof.
  intros Hpre. rewrite polymodStep_terms.
  repeat apply lxor_range.
  - change 0x1ffffff with (Z.ones 25). rewrite Z.land_ones by lia.
    rewrite Z.shiftl_mul_pow2 by lia.
    pose proof (Z.mod_pos_bound pre (2 ^ 25) ltac:(lia)). lia.
  - destruct (generatorTerm_cases 0 0x3b6a57b2 pre) as [-> | ->]; lia.
  - destruct (generatorTerm_cases 1 0x26508e6d pre) as [-> | ->]; lia.
  - destruct (generatorTerm_cases 2 0x1ea119fa pre) as [-> | ->]; lia.
  - destruct (generatorTerm_cases 3 0x3d4233dd pre) as [-> | ->]; lia.
  - destruct (generatorTerm_cases 4 0x2a1462b3 pre) as [-> | ->]; lia.
Qed.

(** Below [2 ^ 25] a step is a shift by one word. *)
Lemma polymodStep_small (v : Z) :
  0 <= v < 2 ^ 25 -> polymodStep v = v * 32.
Proof.
  intros Hv. rewrite polymodStep_terms. unfold generatorTerm.
  rewrite (Z.shiftr_div_pow2 v 25), Z.div_small by lia.
  rewrite !Z.shiftr_0_l. cbn [Z.land Z.opp]. rewrite !Z.lxor_0_r.
  change 0x1ffffff with (Z.ones 25). rewrite Z.land_ones by lia.
  rewrite Z.mod_small by lia. now rewrite Z.shiftl_mul_pow2 by lia.
Qed.

(** Feeding one value into the running checksum. *)
Definition feed (chk v : Z) : Z := Z.lxor (polymodStep chk) v.

Lemma feed_range (chk v : Z) :
  0 <= chk < 2 ^ 30 -> 0 <= v < 32 -> 0 <= feed chk v < 2 ^ 30.
Proof.
  intros Hc Hv. apply lxor_range; [now apply polymodStep_range | lia].
Qed.

Lemma fold_feed_range (vs : list Z) (chk : Z) :
  inRange 32 vs -> 0 <= chk < 2 ^ 30 ->
  0 <= fold_left feed vs chk < 2 ^ 30.
Proof.
  intros Hvs. revert chk. induction Hvs as [|v vs Hv _ IH]; intros chk Hc;
    [exact Hc|].
  cbn [fold_left]. apply IH. now apply feed_range.
Qed.

Lemma fold_feed_linear (vs : list Z) (a b : Z) :
  fold_left feed vs (Z.lxor a b)
  = Z.lxor (Nat.iter (length vs) polymodStep a) (fold_left feed vs b).
Proof.
  revert a b. induction vs as [|v vs IH]; intros a b; [reflexivity|].
  cbn [fold_left length].
  assert (Hfeed : feed (Z.lxor a b) v = Z.lxor (polymodStep a) (feed b v))
    by (unfold feed; rewrite polymodStep_linear; apply Z.lxor_assoc).
  rewrite Hfeed, IH. now rewrite Nat.iter_succ_r.
Qed.

(** Fed from zero, at most six words just spell their value in base 32. *)
Lemma fold_feed_digits (vs : list Z) :
  inRange 32 vs -> (length vs <= 6)%nat ->
  fold_left feed vs 0 = fromDigits 32 vs.
Proof.
  induction vs as [|v vs IH] using rev_ind; intros Hr Hlen; [reflexivity|].
  apply Forall_app in Hr as [Hvs Hv]. inversion Hv as [|? ? Hv0 _]; subst.
  rewrite length_app in Hlen. cbn [length] in Hlen.
  rewrite fold_left_app. cbn [fold_left].
  rewrite IH by (assumption || lia).
  pose proof (fromDigits_range 32 ltac:(lia) vs Hvs) as Hrange.
  assert (32 ^ Z.of_nat (length vs) <= 32 ^ 5)
    by (apply Z.pow_le_mono_r; lia).
  unfold feed. rewrite polymodStep_small by lia.
  rewrite fromDigits_app. cbn [length].
  change (Z.of_nat 1) with 1. rewrite Z.pow_1_r.
  unfold fromDigits at 3. cbn [fold_left].
  change 32 with (2 ^ 5) at 1 3.
  rewrite <- (Z.shiftl_mul_pow2 _ 5) by lia.
  rewrite (ConvertFacts.lxor_shiftl_small _ v 5) by lia.
  now rewrite Z.shiftl_mul_pow2 by lia.
Qed.

(** The six checksum words appended by [encode]. *)
Definition checksumWords (chk1 : Z) : list Z :=
  let chk3 := Z.lxor (Nat.iter 6 polymodStep chk1) 1 in
  map (fun i => Z.land (Z.shiftr chk3 ((5 - Z.of_nat i) * 5)) 0x1f) (seq 0 6).

Lemma checksumWords_inRange (chk1 : Z) : inRange 32 (checksumWords chk1).
Proof.
  unfold checksumWords. apply Forall_map, Forall_forall. intros i _. cbn beta.
  change 0x1f with (Z.ones 5). rewrite Z.land_ones by lia.
  apply Z.mod_pos_bound. lia.
Qed.

Lemma checksumWords_value (chk1 : Z) :
  0 <= chk1 < 2 ^ 30 ->
  fromDigits 32 (checksumWords chk1)
  = Z.lxor (Nat.iter 6 polymodStep chk1) 1.
Proof.
  intros Hc.
  assert (Hr : 0 <= Z.lxor (Nat.iter 6 polymodStep chk1) 1 < 2 ^ 30).
  { apply lxor_range; [|lia]. cbn [Nat.iter].
    now do 6 apply polymodStep_range. }
  unfold checksumWords.
  generalize dependent (Z.lxor (Nat.iter 6 polymodStep chk1) 1).
  intros c Hr. cbn [seq map]. unfold fromDigits. cbn [fold_left].
  change 0x1f with (Z.ones 5). rewrite !Z.land_ones by lia.
  rewrite !Z.shiftr_div_pow2 by lia.
  cbn [Z.of_nat Z.sub Z.mul Z.add Z.opp Z.pos_sub Pos.of_succ_nat Pos.succ
       Pos.mul Pos.add Z.pow Z.pow_pos Pos.iter Z.succ_double Z.pred_double
       Z.double Pos.pred_double].
  change (2 ^ 30) with 1073741824 in Hr.
  Z.div_mod_to_equations. lia.
Qed.

(** The checksum [encode] appends makes the running value end at 1. *)
Lemma checksum_verifies (chk1 : Z) :
  0 <= chk1 < 2 ^ 30 ->
  fold_left feed (checksumWords chk1) chk1 = 1.
Proof.
  intros Hc.
  rewrite <- (Z.lxor_0_r chk1) at 2.
  rewrite fold_feed_linear.
  rewrite fold_feed_digits by (apply checksumWords_inRange || (cbn; lia)).
  rewrite checksumWords_value by assumption.
  replace (length (checksumWords chk1)) with 6%nat by reflexivity.
  now rewrite <- Z.lxor_assoc, Z.lxor_nilpotent, Z.lxor_0_l.
Qed.

End PolymodFacts.

(* ===================================================================== *)
(** ** Bech32: text *)
(* ===================================================================== *)

Section StringFacts.

Lemma list_ascii_of_string_app (a b : string) :
  list_ascii_of_string (a +:+ b)
  = list_ascii_of_string a ++ list_ascii_of_string b.
Proof.
  induction a as [|c a IH]; [reflexivity|].
  change (list_ascii_of_string (String c (a +:+ b))
          = c :: (list_ascii_of_string a ++ list_ascii_of_string b)).
  cbn [list_ascii_of_string]. now rewrite IH.
Qed.

Lemma string_length_list (s : string) :
  String.length s = length (list_ascii_of_string s).
Proof. induction s as [|c s IH]; [reflexivity|]. cbn. now rewrite IH. Qed.

Lemma string_of_list_ascii_app (a b : list ascii) :
  string_of_list_ascii (a ++ b)
  = string_of_list_ascii a +:+ string_of_list_ascii b.
Proof.
  induction a as [|c a IH]; [reflexivity|].
  change (String c (string_of_list_ascii (a ++ b))
          = String c (string_of_list_ascii a +:+ string_of_list_ascii b)).
  now rewrite IH.
Qed.

End StringFacts.

Module Bech32Facts.
Import Radix RadixFacts Bech32 PolymodFacts.

Lemma bech32_indexOf_charOf (w : Z) : 0 <= w < 32 -> indexOf (charOf w) = Some w.
Proof.
  intros Hw.
  apply (bool_decide_eq_true_1 (indexOf (charOf w) = Some w)).
  revert w Hw.
  apply (forall_below (fun w => bool_decide (indexOf (charOf w) = Some w)) 32).
  vm_compute. reflexivity.
Qed.

Lemma charOf_lower (w : Z) : 0 <= w < 32 -> lowerChar (charOf w) = charOf w.
Proof.
  intros Hw.
  apply (bool_decide_eq_true_1 (lowerChar (charOf w) = charOf w)).
  revert w Hw.
  apply (forall_below
           (fun w => bool_decide (lowerChar (charOf w) = charOf w)) 32).
  vm_compute. reflexivity.
Qed.

Lemma charOf_not_separator (w : Z) : 0 <= w < 32 -> charOf w <> "1"%char.
Proof.
  intros Hw.
  apply (bool_decide_eq_true_1 (charOf w <> "1"%char)).
  revert w Hw.
  apply (forall_below (fun w => bool_decide (charOf w <> "1"%char)) 32).
  vm_compute. reflexivity.
Qed.

Lemma mapM_bech32_indexOf_charOf (ws : list Z) :
  inRange 32 ws -> mapM indexOf (map charOf ws) = Some ws.
Proof.
  intros Hr. apply mapM_Some.
  induction Hr as [|w ws Hw _ IH]; constructor;
    [now apply bech32_indexOf_charOf | exact IH].
Qed.

Lemma map_lower_charOf (ws : list Z) :
  inRange 32 ws -> map lowerChar (map charOf ws) = map charOf ws.
Proof.
  induction 1 as [|w ws Hw _ IH]; [reflexivity|].
  cbn [map]. now rewrite IH, charOf_lower.
Qed.

Lemma lastIndexOf_absent (c : ascii) (l : list ascii) :
  ~ In c l -> lastIndexOf c l = None.
Proof.
  induction l as [|a l IH]; [reflexivity|].
  intros Hnot. cbn [lastIndexOf].
  rewrite IH by (intros Hin; apply Hnot; now right).
  destruct (Ascii.eqb_spec a c) as [->|]; [|reflexivity].
  destruct Hnot. now left.
Qed.

Lemma lastIndexOf_separator (c : ascii) (before after : list ascii) :
  ~ In c after ->
  lastIndexOf c (before ++ c :: after) = Some (length before).
Proof.
  intros Hnot. induction before as [|a before IH].
  - cbn [app lastIndexOf length]. rewrite lastIndexOf_absent by assumption.
    now rewrite Ascii.eqb_refl.
  - cbn [app lastIndexOf length]. now rewrite IH.
Qed.

Lemma separator_not_in_words (ws : list Z) :
  inRange 32 ws -> ~ In "1"%char (map charOf ws).
Proof.
  intros Hr Hin. apply in_map_iff in Hin as (w & Hw & Hin).
  unfold inRange in Hr. rewrite Forall_forall in Hr.
  apply list_elem_of_In in Hin.
  now apply (charOf_not_separator w (Hr w Hin)).
Qed.

(** What [encode] returns for a well-formed prefix. *)
Lemma encode_Some (prefix : string) (chk0 : Z) (words : list Z) :
  (String.length prefix + 7 + length words <= LIMIT)%nat ->
  prefixChk prefix = Some chk0 ->
  inRange 32 words ->
  encode prefix words
  = Some (string_of_list_ascii
            (list_ascii_of_string prefix
               ++ "1"%char
               :: map charOf (words
                                ++ checksumWords (fold_left feed words chk0)))).
Proof.
  intros Hlen Hchk Hr. unfold encode.
  destruct (Nat.ltb_spec LIMIT (String.length prefix + 7 + length words));
    [lia|].
  rewrite Hchk.
  replace (forallb _ words) with true.
  - f_equal.
    rewrite string_of_list_ascii_app, string_of_list_ascii_of_string.
    reflexivity.
  - symmetry. apply forallb_forall. intros w Hw.
    unfold inRange in Hr. rewrite Forall_forall in Hr.
    apply list_elem_of_In in Hw. specialize (Hr w Hw).
    rewrite Z.shiftr_div_pow2, Z.div_small by lia. reflexivity.
Qed.

(** Decoding what [encode] produced gives the prefix and the words back. *)
Lemma decode_encoded (prefix : string) (chk0 : Z) (words : list Z) :
  prefix <> EmptyString ->
  (String.length prefix + 7 + length words <= LIMIT)%nat ->
  mapString lowerChar prefix = prefix ->
  prefixChk prefix = Some chk0 ->
  0 <= chk0 < 2 ^ 30 ->
  inRange 32 words ->
  decode (string_of_list_ascii
            (list_ascii_of_string prefix
               ++ "1"%char
               :: map charOf (words
                                ++ checksumWords (fold_left feed words chk0))))
  = Some (prefix, words).
Proof.
  intros Hne Hlen Hlow Hchk Hc0 Hr.
  pose proof (checksumWords_inRange (fold_left feed words chk0)) as Htail.
  pose proof (checksum_verifies (fold_left feed words chk0)
                (fold_feed_range words chk0 Hr Hc0)) as Hverify.
  assert (Htl : length (checksumWords (fold_left feed words chk0)) = 6%nat)
    by (unfold checksumWords; now rewrite length_map).
  generalize dependent (checksumWords (fold_left feed words chk0)).
  intros tail Htail Hverify Htl.
  assert (Hall : inRange 32 (words ++ tail))
    by (apply Forall_app; split; assumption).
  set (P := list_ascii_of_string prefix).
  assert (HP : (0 < length P)%nat).
  { subst P. destruct prefix; [now destruct Hne | cbn; lia]. }
  assert (HPlen : length P = String.length prefix)
    by (subst P; now rewrite string_length_list).
  set (D := map charOf (words ++ tail)).
  assert (HD : length D = (length words + 6)%nat)
    by (subst D; now rewrite length_map, length_app, Htl).
  unfold decode.
  rewrite string_length_list, list_ascii_of_string_of_list_ascii.
  rewrite length_app. cbn [length]. rewrite HD, HPlen.
  destruct (Nat.ltb_spec (String.length prefix + S (length words + 6)) 8);
    [lia|].
  destruct (Nat.ltb_spec LIMIT (String.length prefix + S (length words + 6)));
    [lia|].
  assert (Hlowered : mapString lowerChar (string_of_list_ascii (P ++ "1"%char :: D))
                     = string_of_list_ascii (P ++ "1"%char :: D)).
  { unfold mapString. rewrite list_ascii_of_string_of_list_ascii.
    f_equal. rewrite map_app. cbn [map]. f_equal.
    - subst P. unfold mapString in Hlow.
      rewrite <- Hlow at 2.
      now rewrite list_ascii_of_string_of_list_ascii.
    - f_equal. subst D. now apply map_lower_charOf. }
  rewrite Hlowered, String.eqb_refl. cbn [negb andb].
  rewrite list_ascii_of_string_of_list_ascii.
  rewrite lastIndexOf_separator by (subst D; now apply separator_not_in_words).
  destruct (length P) as [|split] eqn:Hsplit; [lia|].
  rewrite <- Hsplit.
  rewrite firstn_app, firstn_all, Nat.sub_diag, firstn_0, app_nil_r.
  replace (skipn (S (length P)) (P ++ "1"%char :: D)) with D.
  2:{ change (P ++ "1"%char :: D) with (P ++ ["1"%char] ++ D).
      rewrite app_assoc.
      replace (S (length P)) with (length (P ++ ["1"%char]))
        by (rewrite length_app; cbn; lia).
      now rewrite skipn_app, skipn_all, Nat.sub_diag. }
  rewrite HD.
  destruct (Nat.ltb_spec (length words + 6) 6); [lia|].
  subst P. rewrite string_of_list_ascii_of_string, Hchk.
  subst D. rewrite mapM_bech32_indexOf_charOf by assumption.
  change (fun chk v : Z => Z.lxor (polymodStep chk) v) with feed.
  rewrite fold_left_app.
  rewrite Hverify. cbn [Z.eqb Pos.eqb].
  rewrite length_app, Htl.
  replace (length words + 6 - 6)%nat with (length words) by lia.
  now rewrite firstn_app, firstn_all, Nat.sub_diag, firstn_0, app_nil_r.
Qed.

End Bech32Facts.

(* ===================================================================== *)
(** ** The address converter *)
(* ===================================================================== *)

Module AddressFacts.
Import Radix RadixFacts Payments Address.

(** What the proofs need to know about a network description; it holds of
each of bitcoinjs-lib's networks. *)
Definition networkFacts (network : Network) : Prop :=
  0 <= pubKeyHash network < 256
  /\ exists (first : ascii) (rest : string) (chk : Z),
       bech32 network = String first rest
       /\ (String.length (bech32 network) + 7 + 33 <= Bech32.LIMIT)%nat
       /\ Bech32.mapString Bech32.lowerChar (bech32 network) = bech32 network
       /\ Bech32.prefixChk (bech32 network) = Some chk
       /\ 0 <= chk < 2 ^ 30
       /\ Base58.indexOf first <> Some 0
       /\ 256 ^ 30 <= 58 ^ Z.of_nat (String.length rest + 40).

Lemma networkFacts_intro (network : Network) (first : ascii) (rest : string) :
  bech32 network = String first rest ->
  bool_decide (0 <= pubKeyHash network < 256)
  && (String.length (bech32 network) + 7 + 33 <=? Bech32.LIMIT)%nat
  && String.eqb (Bech32.mapString Bech32.lowerChar (bech32 network))
                (bech32 network)
  && match Bech32.prefixChk (bech32 network) with
     | Some chk => (0 <=? chk) && (chk <? 2 ^ 30)
     | None => false
     end
  && negb (bool_decide (Base58.indexOf first = Some 0))
  && (256 ^ 30 <=? 58 ^ Z.of_nat (String.length rest + 40)) = true ->
  networkFacts network.
Proof.
  intros Hprefix Hchecks.
  apply andb_prop in Hchecks as [Hchecks Hlong].
  apply andb_prop in Hchecks as [Hchecks Hleader].
  apply andb_prop in Hchecks as [Hchecks Hchk].
  apply andb_prop in Hchecks as [Hchecks Hlower].
  apply andb_prop in Hchecks as [Hversion Hlimit].
  destruct (Bech32.prefixChk (bech32 network)) as [chk|] eqn:Hchk';
    [|discriminate].
  apply andb_prop in Hchk as [Hlo Hhi].
  split; [now apply bool_decide_eq_true_1 in Hversion|].
  exists first, rest, chk.
  split; [exact Hprefix|].
  split; [now apply Nat.leb_le|].
  split; [now apply String.eqb_eq|].
  split; [exact Hchk'|].
  split; [lia|].
  split; [|now apply Z.leb_le].
  intros Heq. rewrite bool_decide_eq_true_2 in Hleader by exact Heq.
  discriminate.
Qed.

Lemma networks_facts (network : Network) :
  In network networks -> networkFacts network.
Proof.
  intros [<- | [<- | [<- | []]]].
  - apply (networkFacts_intro bitcoin "b" "c"); vm_compute; reflexivity.
  - apply (networkFacts_intro testnet "t" "b"); vm_compute; reflexivity.
  - apply (networkFacts_intro regtest "b" "crt"); vm_compute; reflexivity.
Qed.

Section WithSha.
Context `{Sha256}.

(** A P2PKH address decodes to the hash it was made from. *)
Lemma p2pkh_roundtrip (hash : list byte) (network : Network) :
  0 <= pubKeyHash network < 256 ->
  length hash = 20%nat ->
  exists address,
    p2pkh_address hash network = Some address
    /\ p2pkh_hash address network = Some hash.
Proof.
  intros Hv Hlen. unfold p2pkh_address, p2pkh_hash.
  rewrite Hlen. cbn [Nat.eqb]. eexists. split; [reflexivity|].
  rewrite Bs58checkFacts.bs58check_decode_encode.
  rewrite Z_of_byte_of_Z, Z.eqb_refl, Hlen by assumption.
  reflexivity.
Qed.

(** A text of the shape of a P2WPKH address is never a P2PKH address:
Base58 would yield too many octets. *)
Lemma p2pkh_rejects_long (c : ascii) (s : string) (network : Network) :
  Base58.indexOf c <> Some 0 ->
  256 ^ 30 <= 58 ^ Z.of_nat (String.length s) ->
  p2pkh_hash (String c s) network = None.
Proof.
  intros Hc Hlong. unfold p2pkh_hash.
  destruct (Bs58check.decode (String c s)) as [payload|] eqn:Hdec;
    [|reflexivity].
  apply Bs58checkFacts.bs58check_decode_length in Hdec as (buffer & Hbuf & Hlen).
  apply (Base58Facts.base58_decode_length c s 30) in Hbuf; [|assumption..].
  destruct payload as [|version hash]; [reflexivity|].
  cbn [length] in Hlen.
  destruct (negb _); [reflexivity|].
  destruct (Nat.eqb_spec (length hash) 20) as [Heq|]; [lia|reflexivity].
Qed.

End WithSha.

(** A P2WPKH address decodes to the hash it was made from, and is not
taken for a P2PKH address. *)
Lemma p2wpkh_roundtrip `{Sha256} (hash : list byte) (network : Network) :
  networkFacts network ->
  length hash = 20%nat ->
  exists address,
    p2wpkh_address hash network = Some address
    /\ p2wpkh_hash address network = Some hash
    /\ p2pkh_hash address network = None.
Proof.
  intros (_ & first & rest & chk & Hprefix & Hlimit & Hlower & Hchk & Hrange
          & Hleader & Hlong) Hlen.
  destruct (ConvertFacts.toWords_fromWords hash Hlen)
    as (Hwlen & Hwrange & Hback).
  assert (Hwords : inRange 32 (0 :: Bech32.toWords hash))
    by (constructor; [lia | exact Hwrange]).
  unfold p2wpkh_address, p2wpkh_hash. rewrite Hlen. cbn [Nat.eqb].
  rewrite (Bech32Facts.encode_Some _ chk) by
    (assumption || (cbn [length]; rewrite Hwlen; exact Hlimit)).
  eexists. split; [reflexivity|].
  rewrite (Bech32Facts.decode_encoded _ chk);
    try assumption;
    [| rewrite Hprefix; discriminate
     | cbn [length]; rewrite Hwlen; exact Hlimit ].
  split.
  - rewrite Hback, String.eqb_refl, Z.eqb_refl, Hlen. reflexivity.
  - rewrite Hprefix. cbn [list_ascii_of_string app string_of_list_ascii].
    apply p2pkh_rejects_long; [exact Hleader|].
    rewrite string_length_list, list_ascii_of_string_of_list_ascii.
    rewrite length_app. cbn [length].
    rewrite length_map. cbn [length]. rewrite length_app, Hwlen.
    rewrite <- string_length_list.
    replace (length (PolymodFacts.checksumWords
                       (fold_left PolymodFacts.feed
                                  (0 :: Bech32.toWords hash) chk)))
      with 6%nat
      by (unfold PolymodFacts.checksumWords; now rewrite length_map).
    replace (String.length rest + S (S (32 + 6)))%nat
      with (String.length rest + 40)%nat by lia.
    exact Hlong.
Qed.

(** C10. For every 20-byte public key hash, supported network and witness
flag, the address made by [publicKeyHashToAddress] is decoded by
[addressToPublicKeyHash] on the same network to exactly that hash, for
the P2WPKH as for the P2PKH encoding. *)
Theorem address_roundtrip `{Sha256}
    (toBitcoinJsLibNetwork : BitcoinNetwork -> option Network)
    (publicKeyHash : list byte) (witness : bool)
    (bitcoinNetwork : BitcoinNetwork) (network : Network) :
  length publicKeyHash = 20%nat ->
  toBitcoinJsLibNetwork bitcoinNetwork = Some network ->
  In network networks ->
  exists address,
    publicKeyHashToAddress toBitcoinJsLibNetwork publicKeyHash witness
      bitcoinNetwork = Some address
    /\ addressToPublicKeyHash toBitcoinJsLibNetwork address bitcoinNetwork
       = Some publicKeyHash.
Proof.
  intros Hlen Hnet Hin.
  pose proof (networks_facts network Hin) as Hfacts.
  unfold publicKeyHashToAddress, addressToPublicKeyHash. rewrite Hnet.
  destruct witness.
  - destruct (p2wpkh_roundtrip publicKeyHash network Hfacts Hlen)
      as (address & Henc & Hdec & Hnot).
    exists address. split; [exact Henc|]. now rewrite Hnot, Hdec.
  - destruct (p2pkh_roundtrip publicKeyHash network (proj1 Hfacts) Hlen)
      as (address & Henc & Hdec).
    exists address. split; [exact Henc|]. now rewrite Hdec.
Qed.

End AddressFacts.


(* ===================================================================== *)
(** ** The Solidity mock bridge: further properties of the registry *)
(* ===================================================================== *)

Module DepositRegistryFacts.
Import SolBridge SolBridgeFacts.

(** A deposit record whose fields respect their Solidity types and the
    order of the deposit's life. *)
Definition wellFormed (d : DepositRequest) : Prop :=
  0 <= amount d < 2 ^ 64
  /\ 0 <= treasuryFee d <= amount d
  /\ 0 <= revealedAt d < 2 ^ 32
  /\ 0 <= sweptAt d < 2 ^ 32
  /\ (sweptAt d <> 0 -> revealedAt d <> 0).

Lemma uint32_range (x : Z) : 0 <= uint32 x < 2 ^ 32.
Proof. unfold uint32, uint32_max. apply Z.mod_pos_bound. lia. Qed.

Lemma wellFormed_zero : wellFormed zeroDepositRequest.
Proof. unfold wellFormed. cbn. lia. Qed.

Lemma treasuryFee_bounds (v divisor : Z) :
  0 <= v ->
  0 <= (if divisor >? 0 then v / divisor else 0) <= v.
Proof.
  intros Hv. destruct (Z.gtb_spec divisor 0) as [Hd|]; [|lia].
  split; [apply Z.div_pos; lia|].
  apply Z.div_le_upper_bound; [lia|]. nia.
Qed.

Section WithHashes.
Context `{Keccak256} `{Sha256}.

(** The record a call may write: the one under the revealed or swept
    key. *)
Definition touchedKey (c : Call) : option Z :=
  match c with
  | CallReveal fundingTx reveal _ =>
      Some (depositKeyOf fundingTx (fundingOutputIndex reveal))
  | CallSweep depositKey => Some depositKey
  | CallSetDivisor _ | CallSetTxMaxFee _ => None
  end.

Lemma transact_wellFormed (env : Env) (c : Call) (st : MockBridge) :
  (forall k, wellFormed (deposits st k)) ->
  forall k, wellFormed (deposits (transact env c st) k).
Proof.
  intros Hinv k. unfold transact.
  destruct (call env c st) as [[st' evs]|] eqn:Hcall; [|apply Hinv].
  destruct c as [f r e|k'| |]; cbn [call] in Hcall.
  - apply revealDepositWithExtraData_Ok in Hcall
      as (_ & fo & v & _ & Hval & -> & _).
    destruct (Z.eq_dec (depositKeyOf f (fundingOutputIndex r)) k) as [<-|Hne];
      [|rewrite deposits_set_ne by exact Hne; apply Hinv].
    rewrite deposits_set_eq. unfold wellFormed.
    cbn [amount treasuryFee revealedAt sweptAt].
    pose proof (extractValue_range _ _ Hval) as Hv.
    pose proof (uint32_range (block_timestamp env)).
    pose proof (treasuryFee_bounds v (_depositTreasuryFeeDivisor st)).
    repeat split; lia.
  - apply sweepDeposit_Ok in Hcall as (Hr & _ & -> & _).
    destruct (Z.eq_dec k' k) as [->|Hne];
      [|rewrite deposits_set_ne by exact Hne; apply Hinv].
    rewrite deposits_set_eq.
    destruct (Hinv k) as (Ha & Hf & Hrev & _ & _).
    unfold wellFormed. cbn [amount treasuryFee revealedAt sweptAt with_sweptAt].
    pose proof (uint32_range (block_timestamp env)).
    repeat split; lia.
  - injection Hcall as <- _. apply Hinv.
  - injection Hcall as <- _. apply Hinv.
Qed.

(** X1. In every storage the mock can reach from deployment, every deposit
    record, revealed or not, has an amount that fits 64 bits, a treasury
    fee between 0 and the amount, 32-bit time stamps, and is marked swept
    only if it is marked revealed. *)
Theorem reachable_wellFormed (st : MockBridge) (depositKey : Z) :
  reachable st -> wellFormed (deposits st depositKey).
Proof.
  intros Hreach. revert depositKey.
  induction Hreach as [|env c st _ IH].
  - intros k. unfold deposits, initial. cbn. rewrite lookup_empty.
    apply wellFormed_zero.
  - now apply transact_wellFormed.
Qed.

(** X2. A transaction writes at most the deposit record under the key it
    reveals or sweeps: every other record, and with the two setters every
    record, reads the same before and after; and only the setters change
    the two parameters. *)
Theorem transact_frame (env : Env) (c : Call) (st : MockBridge) (k : Z) :
  touchedKey c <> Some k ->
  deposits (transact env c st) k = deposits st k
  /\ ((forall v, c <> CallSetDivisor v) ->
      _depositTreasuryFeeDivisor (transact env c st)
      = _depositTreasuryFeeDivisor st)
  /\ ((forall v, c <> CallSetTxMaxFee v) ->
      _depositTxMaxFee (transact env c st) = _depositTxMaxFee st).
Proof.
  intros Hk. unfold transact.
  destruct (call env c st) as [[st' evs]|] eqn:Hcall; [|now repeat split].
  destruct c as [f r e|k'|v|v]; cbn [call touchedKey] in Hcall, Hk.
  - apply revealDepositWithExtraData_Ok in Hcall
      as (_ & fo & amt & _ & _ & -> & _).
    split; [apply deposits_set_ne; congruence|]. now split.
  - apply sweepDeposit_Ok in Hcall as (_ & _ & -> & _).
    split; [apply deposits_set_ne; congruence|]. now split.
  - injection Hcall as <- _. split; [reflexivity|]. split; [|reflexivity].
    intros Hno. now destruct (Hno v).
  - injection Hcall as <- _. split; [reflexivity|]. split; [reflexivity|].
    intros Hno. now destruct (Hno v).
Qed.


(** The value [setDepositTxMaxFee] was last called with in a sequence of
    transactions, [init] if it never was. *)
Definition lastTxMaxFee (txs : list (Env * Call)) (init : Z) : Z :=
  fold_left (fun acc tx => match snd tx with
                           | CallSetTxMaxFee v => v
                           | _ => acc
                           end) txs init.

Lemma transact_depositTxMaxFee (env : Env) (c : Call) (st : MockBridge) :
  _depositTxMaxFee (transact env c st)
  = match c with CallSetTxMaxFee v => v | _ => _depositTxMaxFee st end.
Proof.
  unfold transact.
  destruct (call env c st) as [[st' evs]|] eqn:Hcall.
  - destruct c as [f r e|k'|v|v]; cbn [call] in Hcall.
    + now apply revealDepositWithExtraData_Ok in Hcall
        as (_ & fo & amt & _ & _ & -> & _).
    + now apply sweepDeposit_Ok in Hcall as (_ & _ & -> & _).
    + now injection Hcall as <- _.
    + now injection Hcall as <- _.
  - destruct c; try reflexivity. discriminate.
Qed.

(** X4. Whatever transactions the mock has processed, [depositParameters]
    reports a dust threshold, a treasury fee divisor and a reveal-ahead
    period of 0, also after [setDepositTreasuryFeeDivisor], and as
    [depositTxMaxFee] the value last passed to [setDepositTxMaxFee]
    (10^7 right after deployment). *)
Theorem depositParameters_run (txs : list (Env * Call)) (st : MockBridge) :
  depositParameters (run txs st)
  = (0, 0, lastTxMaxFee txs (_depositTxMaxFee st), 0)
  /\ depositParameters (run txs initial)
     = (0, 0, lastTxMaxFee txs (10 ^ 7), 0).
Proof.
  assert (Hgen : forall st0, depositParameters (run txs st0)
                   = (0, 0, lastTxMaxFee txs (_depositTxMaxFee st0), 0)).
  { induction txs as [|[env c] txs IH]; intros st0; [reflexivity|].
    cbn [run]. rewrite IH, transact_depositTxMaxFee.
    unfold lastTxMaxFee. cbn [fold_left snd]. reflexivity. }
  split; [apply Hgen|]. now rewrite Hgen.
Qed.

(** X5. The reveal time is stored in 32 bits: a reveal in a block whose
    time stamp is a multiple of 2^32 succeeds but leaves [revealedAt] at
    0, so the deposit still reads as not revealed: sweeping it fails with
    "Deposit not revealed" and the same funding output can be revealed
    once more. *)
Theorem reveal_at_wrapped_timestamp (env1 env2 : Env)
    (fundingTx : BitcoinTxInfo) (reveal : DepositRevealInfo)
    (extra : list byte) (st st1 : MockBridge) (evs : list Event) :
  revealDepositWithExtraData env1 fundingTx reveal extra st = Ok (st1, evs) ->
  block_timestamp env1 mod 2 ^ 32 = 0 ->
  let key := depositKeyOf fundingTx (fundingOutputIndex reveal) in
  revealedAt (deposits st1 key) = 0
  /\ sweepDeposit env2 key st1 = Revert "Deposit not revealed"
  /\ exists st2,
       revealDepositWithExtraData env2 fundingTx reveal extra st1
       = Ok (st2, [DepositRevealed key])
       /\ revealedAt (deposits st2 key) = uint32 (block_timestamp env2).
Proof.
  intros Hreveal Hwrap key.
  pose proof Hreveal as Hagain.
  apply revealDepositWithExtraData_Ok in Hreveal
    as (_ & fo & v & Hout & Hval & -> & _). fold key.
  assert (Hz : revealedAt (deposits (set_deposit key
                  {| depositor := msg_sender env1; amount := v;
                     revealedAt := uint32 (block_timestamp env1);
                     vault := reveal_vault reveal;
                     treasuryFee := if _depositTreasuryFeeDivisor st >? 0
                                    then v / _depositTreasuryFeeDivisor st
                                    else 0;
                     sweptAt := 0; extraData := extra |} st) key) = 0).
  { rewrite deposits_set_eq. cbn [revealedAt]. exact Hwrap. }
  split; [exact Hz|]. split.
  - unfold sweepDeposit, require. now rewrite Hz.
  - unfold revealDepositWithExtraData, require. fold key.
    rewrite Hz, Hout. cbn [Z.eqb bind]. rewrite Hval. cbn [bind].
    eexists. split; [reflexivity|].
    now rewrite deposits_set_eq.
Qed.

End WithHashes.

End DepositRegistryFacts.

(* ===================================================================== *)
(** ** The output vector a reveal reads *)
(* ===================================================================== *)

Module OutputVectorFacts.
Import BTCUtils SolBridge SolBridgeFacts.

(** The wire format the parser reads, for fewer than 253 outputs whose
    scripts are shorter than 253 octets (one-octet counts): the number of
    outputs, then per output 8 octets of value, little-endian, the length
    of the script and the script. *)
Definition serializedOutput (o : Z * list byte) : list byte :=
  leBytes 8 (fst o) ++ byte_of_N (N.of_nat (length (snd o))) :: snd o.

Definition serializedOutputs (outs : list (Z * list byte)) : list byte :=
  byte_of_N (N.of_nat (length outs)) :: concat (map serializedOutput outs).

Definition shortOutput (o : Z * list byte) : Prop :=
  0 <= fst o < 2 ^ 64 /\ (length (snd o) < 253)%nat.

Lemma Z_of_byte_of_Z_mod (z : Z) : Z_of_byte (byte_of_Z z) = z mod 256.
Proof.
  unfold Z_of_byte, byte_of_Z. rewrite to_N_byte_of_N.
  pose proof (Z.mod_pos_bound z 256 ltac:(lia)) as Hr.
  rewrite N.mod_small by lia. lia.
Qed.

Lemma leZ_leBytes (len : nat) (n : Z) :
  leZ (leBytes len n) = n mod 256 ^ Z.of_nat len.
Proof.
  revert n. induction len as [|len IH]; intros n.
  - cbn. now rewrite Z.mod_1_r.
  - cbn [leBytes leZ fold_right]. fold (leZ (leBytes len (n / 256))).
    rewrite IH, Z_of_byte_of_Z_mod.
    rewrite Nat2Z.inj_succ, Z.pow_succ_r by lia.
    rewrite Z.rem_mul_r by lia. reflexivity.
Qed.

Lemma shortCount (n : nat) :
  (n < 253)%nat ->
  determineVarIntDataLength (byte_of_N (N.of_nat n)) = 0%nat
  /\ Z_of_byte (byte_of_N (N.of_nat n)) = Z.of_nat n.
Proof.
  intros Hn.
  assert (Hto : Byte.to_N (byte_of_N (N.of_nat n)) = N.of_nat n)
    by (rewrite to_N_byte_of_N; apply N.mod_small; lia).
  split.
  - destruct (byte_of_N (N.of_nat n)); try reflexivity;
      cbn in Hto; lia.
  - unfold Z_of_byte. rewrite Hto. lia.
Qed.

Lemma length_serializedOutput (o : Z * list byte) :
  length (serializedOutput o) = (9 + length (snd o))%nat.
Proof.
  unfold serializedOutput. rewrite length_app, length_leBytes.
  cbn [length]. lia.
Qed.

(** The length the parser finds for a serialized output sitting at
    [length pre]. *)
Lemma determineOutputLengthAt_serialized (pre rest : list byte)
    (o : Z * list byte) :
  shortOutput o ->
  determineOutputLengthAt (pre ++ serializedOutput o ++ rest) (length pre)
  = Ok (Some (length (serializedOutput o))).
Proof.
  intros [_ Hlen]. unfold determineOutputLengthAt.
  rewrite !length_app, length_serializedOutput.
  destruct (Nat.ltb_spec (length pre + (9 + length (snd o) + length rest))
                         (9 + length pre)) as [Hlt|_]; [lia|].
  unfold parseVarIntAt.
  replace (nth_error (pre ++ serializedOutput o ++ rest) (8 + length pre))
    with (Some (byte_of_N (N.of_nat (length (snd o))))).
  - destruct (shortCount _ Hlen) as [-> ->]. cbn [Nat.eqb bind].
    now rewrite Nat2Z.id.
  - symmetry. rewrite nth_error_app2 by lia.
    replace (8 + length pre - length pre)%nat with 8%nat by lia.
    unfold serializedOutput. rewrite <- app_assoc.
    rewrite nth_error_app2 by (rewrite length_leBytes; lia).
    rewrite length_leBytes. reflexivity.
Qed.

Lemma skipOutputs_serialized (skipped : list (Z * list byte))
    (pre rest : list byte) :
  Forall shortOutput skipped ->
  skipOutputs (pre ++ concat (map serializedOutput skipped) ++ rest)
    (length pre) (length skipped)
  = Ok (length pre + length (concat (map serializedOutput skipped)))%nat.
Proof.
  revert pre. induction skipped as [|o skipped IH]; intros pre Hshort.
  - cbn. f_equal. lia.
  - apply Forall_cons in Hshort as [Ho Hshort].
    cbn [map concat length skipOutputs]. rewrite <- app_assoc.
    rewrite (determineOutputLengthAt_serialized pre _ o Ho). cbn [bind].
    specialize (IH (pre ++ serializedOutput o) Hshort).
    rewrite length_app, <- app_assoc in IH. rewrite IH.
    f_equal. rewrite length_app. lia.
Qed.

(** The parser finds each output of a serialized vector, its value and
    its script. *)
Lemma extractOutputAtIndex_serialized (outs : list (Z * list byte))
    (i : nat) (o : Z * list byte) :
  (length outs < 253)%nat ->
  Forall shortOutput outs ->
  outs !! i = Some o ->
  extractOutputAtIndex (serializedOutputs outs) (Z.of_nat i)
  = Ok (serializedOutput o)
  /\ extractValue (serializedOutput o) = Ok (fst o)
  /\ extractScript (serializedOutput o) = Ok (snd o).
Proof.
  intros Hcount Hshort Hi.
  pose proof (lookup_lt_Some _ _ _ Hi) as Hlt.
  destruct (shortCount _ Hcount) as [Hflag Hval].
  assert (Ho : shortOutput o).
  { eapply Forall_lookup_1; eassumption. }
  split; [|split].
  - unfold extractOutputAtIndex, parseVarInt, parseVarIntAt, serializedOutputs.
    cbn [nth_error]. rewrite Hflag, Hval. cbn [Nat.eqb bind].
    unfold require.
    destruct (Z.ltb_spec (Z.of_nat i) (Z.of_nat (length outs))); [|lia].
    cbn [bind]. rewrite Nat2Z.id.
    apply list_elem_of_split_length in Hi as (l1 & l2 & -> & ->).
    apply Forall_app in Hshort as [Hshort1 _].
    rewrite map_app, concat_app. cbn [map concat].
    generalize (byte_of_N (N.of_nat (length (l1 ++ o :: l2)))). intros count.
    change (count :: ?l) with ([count] ++ l).
    change (1 + 0)%nat with (length [count]).
    rewrite (skipOutputs_serialized l1 [count]) by exact Hshort1.
    cbn [bind].
    rewrite <- length_app.
    rewrite (app_assoc [count]).
    rewrite (determineOutputLengthAt_serialized _ _ o Ho). cbn [bind].
    unfold slice. rewrite drop_app_length, take_app_length.
    rewrite (length_app (_ ++ _)), (length_app (serializedOutput o)).
    destruct (Nat.leb_spec
                (length ([count] ++ concat (map serializedOutput l1))
                 + length (serializedOutput o))
                (length ([count] ++ concat (map serializedOutput l1))
                 + (length (serializedOutput o)
                    + length (concat (map serializedOutput l2)))))
      as [_|]; [reflexivity|lia].
  - unfold extractValue, slice. rewrite length_serializedOutput.
    destruct (Nat.leb_spec (0 + 8) (9 + length (snd o))) as [_|]; [|lia].
    cbn [bind]. rewrite drop_0. unfold serializedOutput.
    pose proof (take_app_length (leBytes 8 (fst o))
                  (byte_of_N (N.of_nat (length (snd o))) :: snd o)) as Htake.
    rewrite length_leBytes in Htake. rewrite Htake, leZ_leBytes.
    f_equal. apply Z.mod_small. destruct Ho as [Hv _].
    change (256 ^ Z.of_nat 8) with (2 ^ 64). exact Hv.
  - destruct Ho as [_ Hs].
    unfold extractScript, parseVarIntAt, serializedOutput.
    rewrite nth_error_app2 by (rewrite length_leBytes; lia).
    rewrite length_leBytes. cbn [Nat.sub nth_error].
    destruct (shortCount _ Hs) as [-> ->]. cbn [Nat.eqb bind].
    unfold slice. rewrite Nat2Z.id, length_app, length_leBytes.
    cbn [length].
    destruct (Nat.leb_spec (9 + 0 + length (snd o))
                           (8 + S (length (snd o)))) as [_|]; [|lia].
    f_equal.
    change (leBytes 8 (fst o) ++ ?b :: snd o)
      with (leBytes 8 (fst o) ++ [b] ++ snd o).
    rewrite app_assoc.
    replace (9 + 0)%nat
      with (length (leBytes 8 (fst o)
                      ++ [byte_of_N (N.of_nat (length (snd o)))]))
      by (rewrite length_app, length_leBytes; reflexivity).
    rewrite drop_app_length. apply firstn_all.
Qed.

Section WithHashes.
Context `{Keccak256} `{Sha256}.

(** X6. Revealing output [i] of a funding transaction whose output vector
    is the serialization of fewer than 253 short outputs, under a key not
    yet revealed, succeeds, emits [DepositRevealed] with the key, and
    stores the caller as depositor, the value of output [i] as amount, the
    truncated block time, the vault and the extra data given, the treasury
    fee amount / divisor (0 when the divisor is 0) and [sweptAt] 0. *)
Theorem reveal_records_funding_output (env : Env) (fundingTx : BitcoinTxInfo)
    (reveal : DepositRevealInfo) (extra : list byte) (st : MockBridge)
    (outs : list (Z * list byte)) (i : nat) (o : Z * list byte) :
  outputVector fundingTx = serializedOutputs outs ->
  (length outs < 253)%nat ->
  Forall shortOutput outs ->
  fundingOutputIndex reveal = Z.of_nat i ->
  outs !! i = Some o ->
  let key := depositKeyOf fundingTx (fundingOutputIndex reveal) in
  revealedAt (deposits st key) = 0 ->
  exists st',
    revealDepositWithExtraData env fundingTx reveal extra st
    = Ok (st', [DepositRevealed key])
    /\ deposits st' key
       = {| depositor := msg_sender env;
            amount := fst o;
            revealedAt := uint32 (block_timestamp env);
            vault := reveal_vault reveal;
            treasuryFee :=
              if _depositTreasuryFeeDivisor st >? 0
              then fst o / _depositTreasuryFeeDivisor st
              else 0;
            sweptAt := 0;
            extraData := extra |}.
Proof.
  intros Hvout Hcount Hshort Hidx Hi key Hfresh.
  destruct (extractOutputAtIndex_serialized outs i o Hcount Hshort Hi)
    as (Hout & Hval & _).
  unfold revealDepositWithExtraData, require. fold key.
  rewrite Hfresh, Hvout, Hidx, Hout. cbn [Z.eqb bind]. rewrite Hval.
  cbn [bind]. eexists. split; [reflexivity|].
  apply deposits_set_eq.
Qed.

(** X7. Revealing an output index that is not below the number of outputs
    of the serialized vector reverts with "Vout read overrun", and the
    transaction leaves the storage as it was. *)
Theorem reveal_index_out_of_range (env : Env) (fundingTx : BitcoinTxInfo)
    (reveal : DepositRevealInfo) (extra : list byte) (st : MockBridge)
    (outs : list (Z * list byte)) :
  outputVector fundingTx = serializedOutputs outs ->
  (length outs < 253)%nat ->
  Z.of_nat (length outs) <= fundingOutputIndex reveal ->
  revealedAt (deposits st (depositKeyOf fundingTx (fundingOutputIndex reveal)))
  = 0 ->
  revealDepositWithExtraData env fundingTx reveal extra st
  = Revert "Vout read overrun"
  /\ transact env (CallReveal fundingTx reveal extra) st = st.
Proof.
  intros Hvout Hcount Hidx Hfresh.
  assert (Hfail : revealDepositWithExtraData env fundingTx reveal extra st
                  = Revert "Vout read overrun").
  { unfold revealDepositWithExtraData, require.
    rewrite Hfresh, Hvout. cbn [Z.eqb bind].
    unfold extractOutputAtIndex, parseVarInt, parseVarIntAt, serializedOutputs.
    cbn [nth_error]. destruct (shortCount _ Hcount) as [-> ->].
    cbn [Nat.eqb bind]. unfold require.
    now destruct (Z.ltb_spec (fundingOutputIndex reveal)
                             (Z.of_nat (length outs))); [lia|]. }
  split; [exact Hfail|].
  unfold transact. cbn [call]. now rewrite Hfail.
Qed.

End WithHashes.

End OutputVectorFacts.

(* ===================================================================== *)
(** ** The Solidity mock vault: the life of a minting request *)
(* ===================================================================== *)

Module SolVaultFacts.
Import SolVault.

Lemma uint64_range (x : Z) : 0 <= uint64 x < 2 ^ 64.
Proof. unfold uint64, SolBridge.uint64_max. apply Z.mod_pos_bound. lia. Qed.

Lemma requests_set_eq (k : Z) (r : Request) (st : MockTBTCVault) :
  requests (set_request k r st) k = r.
Proof. unfold requests, set_request. cbn. now rewrite lookup_insert_eq. Qed.

Lemma requests_set_ne (k k' : Z) (r : Request) (st : MockTBTCVault) :
  k <> k' -> requests (set_request k r st) k' = requests st k'.
Proof.
  intros Hne. unfold requests, set_request. cbn.
  now rewrite lookup_insert_ne.
Qed.

(** What a successful creation did. *)
Lemma create_Ok (env : SolBridge.Env) (k : Z) (st st' : MockTBTCVault) :
  createOptimisticMintingRequest env k st = Ok st' ->
  requestedAt (requests st k) = 0
  /\ st' = set_request k
             {| requestedAt := uint64 (SolBridge.block_timestamp env);
                finalizedAt := finalizedAt (requests st k) |} st.
Proof.
  unfold createOptimisticMintingRequest, require.
  destruct (Z.eqb_spec (requestedAt (requests st k)) 0); cbn; [|discriminate].
  now intros [= <-].
Qed.

(** What a successful finalization did. *)
Lemma finalize_Ok (env : SolBridge.Env) (k : Z) (st st' : MockTBTCVault) :
  finalizeOptimisticMintingRequest env k st = Ok st' ->
  requestedAt (requests st k) <> 0
  /\ finalizedAt (requests st k) = 0
  /\ st' = set_request k
             {| requestedAt := requestedAt (requests st k);
                finalizedAt := uint64 (SolBridge.block_timestamp env) |} st.
Proof.
  unfold finalizeOptimisticMintingRequest, require.
  destruct (Z.eqb_spec (requestedAt (requests st k)) 0); cbn; [discriminate|].
  destruct (Z.eqb_spec (finalizedAt (requests st k)) 0); cbn; [|discriminate].
  now intros [= <-].
Qed.

(** The request a call may write. *)
Definition touchedKey (c : Call) : option Z :=
  match c with
  | CallCreate k | CallFinalize k => Some k
  | CallSetFeeDivisor _ => None
  end.

(** How one transaction changes the request stored under a key. *)
Lemma transact_request (env : SolBridge.Env) (c : Call) (st : MockTBTCVault)
    (k : Z) :
  let r := requests st k in
  let r' := requests (transact env c st) k in
  r' = r
  \/ (c = CallCreate k /\ requestedAt r = 0
      /\ r' = {| requestedAt := uint64 (SolBridge.block_timestamp env);
                 finalizedAt := finalizedAt r |})
  \/ (c = CallFinalize k /\ requestedAt r <> 0 /\ finalizedAt r = 0
      /\ r' = {| requestedAt := requestedAt r;
                 finalizedAt := uint64 (SolBridge.block_timestamp env) |}).
Proof.
  cbn zeta. unfold transact.
  destruct (call env c st) as [st'|] eqn:Hcall; [|now left].
  destruct c as [k'|k'|v]; cbn [call] in Hcall.
  - apply create_Ok in Hcall as (Hz & ->).
    destruct (Z.eq_dec k' k) as [->|Hne].
    + right; left. now rewrite requests_set_eq.
    + left. now apply requests_set_ne.
  - apply finalize_Ok in Hcall as (Hr & Hf & ->).
    destruct (Z.eq_dec k' k) as [->|Hne].
    + right; right. now rewrite requests_set_eq.
    + left. now apply requests_set_ne.
  - injection Hcall as <-. now left.
Qed.

(** A request whose fields fit their types and that is finalized only if
    it was created. *)
Definition ordered (r : Request) : Prop :=
  0 <= requestedAt r < 2 ^ 64
  /\ 0 <= finalizedAt r < 2 ^ 64
  /\ (finalizedAt r <> 0 -> requestedAt r <> 0).

(** X8. In every storage the mock vault can reach from deployment, every
    request has 64-bit time stamps and carries a finalization time only
    if it carries a creation time: nothing is finalized that was never
    requested. *)
Theorem reachable_ordered (st : MockTBTCVault) (depositKey : Z) :
  reachable st -> ordered (requests st depositKey).
Proof.
  intros Hreach. revert depositKey.
  induction Hreach as [|env c st _ IH]; intros k.
  - unfold requests, initial. cbn. rewrite lookup_empty.
    unfold ordered. cbn. lia.
  - pose proof (uint64_range (SolBridge.block_timestamp env)) as Ht.
    destruct (IH k) as (Hr & Hf & Hord).
    destruct (transact_request env c st k)
      as [-> | [(_ & Hz & ->) | (_ & Hnz & Hfz & ->)]].
    + now repeat split.
    + unfold ordered. cbn [requestedAt finalizedAt].
      repeat split; lia.
    + unfold ordered. cbn [requestedAt finalizedAt]. repeat split; lia.
Qed.

(** X9. The two time stamps of a request are written once: whatever
    transactions follow, a nonzero [requestedAt] and a nonzero
    [finalizedAt] keep their values. *)
Theorem request_times_set_once (txs : list (SolBridge.Env * Call))
    (st : MockTBTCVault) (depositKey : Z) :
  (requestedAt (requests st depositKey) <> 0 ->
   requestedAt (requests (run txs st) depositKey)
   = requestedAt (requests st depositKey))
  /\ (finalizedAt (requests st depositKey) <> 0 ->
      finalizedAt (requests (run txs st) depositKey)
      = finalizedAt (requests st depositKey)).
Proof.
  revert st. induction txs as [|[env c] txs IH]; intros st; [now split|].
  cbn [run]. destruct (IH (transact env c st)) as [IHr IHf].
  destruct (transact_request env c st depositKey)
    as [Heq | [(_ & Hz & Heq) | (_ & Hnz & Hfz & Heq)]].
  - rewrite Heq in IHr, IHf. now split.
  - split; [intros Hne; contradiction|].
    intros Hne. rewrite IHf; rewrite Heq; cbn [finalizedAt]; auto.
  - split; [|intros Hne; contradiction].
    intros Hne. rewrite IHr; rewrite Heq; cbn [requestedAt]; auto.
Qed.

(** X10. The life of a request on a reachable storage, for a key not yet
    requested and block time stamps that are not multiples of 2^64:
    finalizing first fails with "Request does not exist"; creating
    succeeds; creating again fails with "Request already exists";
    finalizing succeeds, after which the getter returns the two truncated
    time stamps; and then finalizing or creating again fails. *)
Theorem create_then_finalize (env1 env2 : SolBridge.Env)
    (st : MockTBTCVault) (depositKey : Z) :
  reachable st ->
  requestedAt (requests st depositKey) = 0 ->
  uint64 (SolBridge.block_timestamp env1) <> 0 ->
  uint64 (SolBridge.block_timestamp env2) <> 0 ->
  (forall env, finalizeOptimisticMintingRequest env depositKey st
               = Revert "Request does not exist")
  /\ exists st1 st2,
       createOptimisticMintingRequest env1 depositKey st = Ok st1
       /\ (forall env, createOptimisticMintingRequest env depositKey st1
                       = Revert "Request already exists")
       /\ finalizeOptimisticMintingRequest env2 depositKey st1 = Ok st2
       /\ optimisticMintingRequests st2 depositKey
          = (uint64 (SolBridge.block_timestamp env1),
             uint64 (SolBridge.block_timestamp env2))
       /\ (forall env, finalizeOptimisticMintingRequest env depositKey st2
                       = Revert "Request already finalized")
       /\ (forall env, createOptimisticMintingRequest env depositKey st2
                       = Revert "Request already exists").
Proof.
  intros Hreach Hfresh Ht1 Ht2.
  destruct (reachable_ordered st depositKey Hreach) as (_ & _ & Hord).
  assert (Hfin : finalizedAt (requests st depositKey) = 0).
  { destruct (Z.eq_dec (finalizedAt (requests st depositKey)) 0) as [|Hne];
      [assumption|]. now destruct (Hord Hne). }
  split.
  { intros env. unfold finalizeOptimisticMintingRequest, require.
    now rewrite Hfresh. }
  set (r1 := {| requestedAt := uint64 (SolBridge.block_timestamp env1);
                finalizedAt := 0 |}).
  set (r2 := {| requestedAt := uint64 (SolBridge.block_timestamp env1);
                finalizedAt := uint64 (SolBridge.block_timestamp env2) |}).
  exists (set_request depositKey r1 st),
         (set_request depositKey r2 (set_request depositKey r1 st)).
  split.
  { unfold createOptimisticMintingRequest, require.
    now rewrite Hfresh, Hfin. }
  split.
  { intros env. unfold createOptimisticMintingRequest, require.
    rewrite requests_set_eq. cbn [requestedAt r1].
    now destruct (Z.eqb_spec (uint64 (SolBridge.block_timestamp env1)) 0). }
  split.
  { unfold finalizeOptimisticMintingRequest, require.
    rewrite requests_set_eq. cbn [requestedAt finalizedAt r1].
    now destruct (Z.eqb_spec (uint64 (SolBridge.block_timestamp env1)) 0). }
  split.
  { unfold optimisticMintingRequests. now rewrite requests_set_eq. }
  split.
  - intros env. unfold finalizeOptimisticMintingRequest, require.
    rewrite requests_set_eq. cbn [requestedAt finalizedAt r2].
    destruct (Z.eqb_spec (uint64 (SolBridge.block_timestamp env1)) 0);
      [contradiction|].
    now destruct (Z.eqb_spec (uint64 (SolBridge.block_timestamp env2)) 0).
  - intros env. unfold createOptimisticMintingRequest, require.
    rewrite requests_set_eq. cbn [requestedAt r2].
    now destruct (Z.eqb_spec (uint64 (SolBridge.block_timestamp env1)) 0).
Qed.

(** X11. A transaction writes at most the request under the key it
    creates or finalizes, and the fee divisor changes only through its
    setter, which in turn leaves every request alone. *)
Theorem request_frame (env : SolBridge.Env) (c : Call) (st : MockTBTCVault)
    (depositKey : Z) :
  touchedKey c <> Some depositKey ->
  requests (transact env c st) depositKey = requests st depositKey
  /\ optimisticMintingFeeDivisor (transact env c st)
     = match c with
       | CallSetFeeDivisor value => value
       | _ => optimisticMintingFeeDivisor st
       end.
Proof.
  intros Hk. unfold transact.
  destruct (call env c st) as [st'|] eqn:Hcall.
  - destruct c as [k'|k'|v]; cbn [call touchedKey] in Hcall, Hk.
    + apply create_Ok in Hcall as (_ & ->).
      split; [apply requests_set_ne; congruence|reflexivity].
    + apply finalize_Ok in Hcall as (_ & _ & ->).
      split; [apply requests_set_ne; congruence|reflexivity].
    + injection Hcall as <-. now split.
  - split; [reflexivity|]. destruct c; try reflexivity. discriminate.
Qed.

End SolVaultFacts.

(* ===================================================================== *)
(** ** The TypeScript mock bridge: further properties of keys and lookups *)
(* ===================================================================== *)

Module RedemptionKeyFacts.
Import TsBridge TsBridgeFacts.

(** Text that spells exactly 20 octets in hexadecimal. *)
Definition spellsHash (w : string) : Prop :=
  exists wpkh, parseHex w = Some wpkh /\ length wpkh = 20%nat.

Lemma length_toHex (bs : list byte) :
  String.length (toHex bs) = (2 * length bs)%nat.
Proof.
  induction bs as [|b bs IH]; [reflexivity|].
  cbn [toHex String.length length]. rewrite IH. lia.
Qed.

Lemma buildRedemptionKey_Some `{Keccak256} (w s key : string) :
  buildRedemptionKey w s = Some key ->
  exists wpkh,
    parseHex w = Some wpkh /\ length wpkh = 20%nat
    /\ key = hexlify (keccak256
               (keccak256 (prefixedScript (Buffer_from_hex s)) ++ wpkh)).
Proof.
  rewrite buildRedemptionKey_unfold.
  destruct (parseHex w) as [wpkh|]; [|discriminate].
  destruct (Nat.eqb_spec (length wpkh) 20) as [Hlen|]; [|discriminate].
  intros [= <-]. now exists wpkh.
Qed.

Lemma redemptions_is_Some `{Keccak256} (w s : string)
    (m : gmap string RedemptionRequest) :
  is_Some (redemptions w s m) <-> is_Some (buildRedemptionKey w s).
Proof.
  unfold redemptions.
  destruct (buildRedemptionKey w s) as [key|].
  - destruct (m !! key); split; eauto.
  - split; intros [? ?]; discriminate.
Qed.

(** X12. The key derivation succeeds exactly when the wallet public key
    hash is 40 hexadecimal digits, whatever the script text is; the key is
    then "0x" followed by 64 digits.  Both lookups resolve under the same
    condition and reject otherwise. *)
Theorem buildRedemptionKey_defined_iff `{Keccak256} (b : MockBridge)
    (w s : string) :
  (is_Some (buildRedemptionKey w s) <-> spellsHash w)
  /\ (is_Some (pendingRedemptions b w s) <-> spellsHash w)
  /\ (is_Some (timedOutRedemptions b w s) <-> spellsHash w)
  /\ (forall key, buildRedemptionKey w s = Some key ->
                  String.length key = 66%nat).
Proof.
  assert (Hkey : is_Some (buildRedemptionKey w s) <-> spellsHash w).
  { split.
    - intros [key Hk]. apply buildRedemptionKey_Some in Hk
        as (wpkh & Hw & Hlen & _). now exists wpkh.
    - intros (wpkh & Hw & Hlen).
      rewrite buildRedemptionKey_unfold, Hw, Hlen. cbn [Nat.eqb]. eauto. }
  split; [exact Hkey|].
  unfold pendingRedemptions, timedOutRedemptions.
  split; [now rewrite redemptions_is_Some|].
  split; [now rewrite redemptions_is_Some|].
  intros key Hk. apply buildRedemptionKey_Some in Hk as (wpkh & _ & _ & ->).
  unfold hexlify. cbn [String.length].
  now rewrite length_toHex, keccak256_length.
Qed.

(** X13. Equal keys mean equal inputs: when two derivations give the same
    key and the hash does not collide on the two pairs of preimages
    involved, the wallet public key hashes are the same 20 octets and the
    scripts decode to the same octets. *)
Theorem buildRedemptionKey_injective `{Keccak256}
    (w1 s1 w2 s2 key : string) (wpkh1 wpkh2 : list byte) :
  parseHex w1 = Some wpkh1 ->
  parseHex w2 = Some wpkh2 ->
  buildRedemptionKey w1 s1 = Some key ->
  buildRedemptionKey w2 s2 = Some key ->
  collisionFree (prefixedScript (Buffer_from_hex s1))
                (prefixedScript (Buffer_from_hex s2)) ->
  collisionFree (keccak256 (prefixedScript (Buffer_from_hex s1)) ++ wpkh1)
                (keccak256 (prefixedScript (Buffer_from_hex s2)) ++ wpkh2) ->
  wpkh1 = wpkh2 /\ Buffer_from_hex s1 = Buffer_from_hex s2.
Proof.
  intros Hw1 Hw2 Hk1 Hk2 Hinner Houter.
  apply buildRedemptionKey_Some in Hk1 as (x1 & Hx1 & _ & ->).
  apply buildRedemptionKey_Some in Hk2 as (x2 & Hx2 & _ & Heq).
  rewrite Hw1 in Hx1. rewrite Hw2 in Hx2.
  injection Hx1 as <-. injection Hx2 as <-.
  apply hexlify_inj, Houter in Heq.
  apply app_inj_1 in Heq as [Hhash ->];
    [|now rewrite !keccak256_length].
  split; [reflexivity|].
  now apply prefixedScript_inj, Hinner.
Qed.

Lemma Buffer_from_hex_app (s t : string) (bs : list byte) :
  parseHex s = Some bs ->
  Buffer_from_hex (s +:+ t) = bs ++ Buffer_from_hex t.
Proof.
  revert bs. induction s as [|a|a b s IH] using string_pair_ind;
    intros bs; cbn [parseHex].
  - now intros [= <-].
  - discriminate.
  - destruct (hexValue a) as [h|] eqn:Ha; [|discriminate].
    destruct (hexValue b) as [l|] eqn:Hb; [|discriminate].
    destruct (parseHex s) as [bs'|]; [|discriminate].
    intros [= <-].
    change (String a (String b s) +:+ t) with (String a (String b (s +:+ t))).
    cbn [Buffer_from_hex]. rewrite Ha, Hb.
    now rewrite (IH bs').
Qed.

(** X14. The script text is decoded leniently and never rejected: what
    follows the last complete pair of hexadecimal digits does not reach
    the key.  A trailing odd character is dropped, and a script written
    with a "0x" prefix gets the key of the empty script. *)
Theorem buildRedemptionKey_lenient_script `{Keccak256}
    (w s junk : string) (bs : list byte) :
  parseHex s = Some bs ->
  Buffer_from_hex junk = [] ->
  buildRedemptionKey w (s +:+ junk) = buildRedemptionKey w s
  /\ (forall c, buildRedemptionKey w (s +:+ String c "")
                = buildRedemptionKey w s)
  /\ (forall rest, buildRedemptionKey w ("0x" +:+ rest)
                   = buildRedemptionKey w "").
Proof.
  intros Hs Hjunk.
  assert (Hsame : forall t, Buffer_from_hex t = [] ->
            buildRedemptionKey w (s +:+ t) = buildRedemptionKey w s).
  { intros t Ht. rewrite !buildRedemptionKey_unfold.
    rewrite (Buffer_from_hex_app s t bs Hs), Ht, app_nil_r.
    now rewrite (Buffer_from_hex_strict s bs Hs). }
  split; [now apply Hsame|]. split.
  - intros c. now apply Hsame.
  - intros rest. now rewrite !buildRedemptionKey_unfold.
Qed.

(** X15. Storing and finding: after the pending map has been given an
    entry under the key of a wallet and script, the pending lookup of
    that wallet and script returns the entry, the timed-out lookup answers
    as before, and pending lookups whose key is another one answer as
    before. *)
Theorem stored_request_found `{Keccak256} (b : MockBridge) (w s key : string)
    (r : RedemptionRequest) :
  buildRedemptionKey w s = Some key ->
  let b' := setPendingRedemptions (<[key := r]> (_pendingRedemptions b)) b in
  pendingRedemptions b' w s = Some r
  /\ timedOutRedemptions b' w s = timedOutRedemptions b w s
  /\ (forall w' s' key',
        buildRedemptionKey w' s' = Some key' ->
        key' <> key ->
        pendingRedemptions b' w' s' = pendingRedemptions b w' s').
Proof.
  intros Hkey b'. subst b'.
  unfold pendingRedemptions, timedOutRedemptions, redemptions.
  cbn [setPendingRedemptions _pendingRedemptions _timedOutRedemptions].
  rewrite Hkey, lookup_insert_eq.
  split; [reflexivity|]. split; [reflexivity|].
  intros w' s' key' -> Hne. now rewrite lookup_insert_ne.
Qed.

(** The calls the mock only records. *)
Inductive Recorded :=
| RecordedRequestRedemption (e : RequestRedemptionLogEntry)
| RecordedRedemptionProof (e : RedemptionProofLogEntry).

Definition perform (b : MockBridge) (c : Recorded) : MockBridge :=
  match c with
  | RecordedRequestRedemption e => requestRedemption e b
  | RecordedRedemptionProof e => submitRedemptionProof e b
  end.

Definition requestsIn (cs : list Recorded) : list RequestRedemptionLogEntry :=
  omap (fun c => match c with
                 | RecordedRequestRedemption e => Some e
                 | RecordedRedemptionProof _ => None
                 end) cs.

Definition proofsIn (cs : list Recorded) : list RedemptionProofLogEntry :=
  omap (fun c => match c with
                 | RecordedRedemptionProof e => Some e
                 | RecordedRequestRedemption _ => None
                 end) cs.

(** X16. [requestRedemption] and [submitRedemptionProof] of the mock only
    record their arguments: after any sequence of such calls each log has
    grown by exactly the calls of its kind, in the order made, and both
    lookups answer as before; in particular requesting a redemption does
    not create a pending request and proving one does not close it. *)
Theorem recorded_calls_keep_lookups `{Keccak256} (cs : list Recorded)
    (b : MockBridge) (w s : string) :
  _requestRedemptionLog (fold_left perform cs b)
  = _requestRedemptionLog b ++ requestsIn cs
  /\ _redemptionProofLog (fold_left perform cs b)
     = _redemptionProofLog b ++ proofsIn cs
  /\ pendingRedemptions (fold_left perform cs b) w s
     = pendingRedemptions b w s
  /\ timedOutRedemptions (fold_left perform cs b) w s
     = timedOutRedemptions b w s.
Proof.
  revert b. induction cs as [|c cs IH]; intros b.
  - cbn. now rewrite !app_nil_r.
  - cbn [fold_left]. destruct (IH (perform b c)) as (Hr & Hp & Hpend & Hto).
    rewrite Hr, Hp, Hpend, Hto.
    destruct c as [e|e]; cbn; rewrite <- ?app_assoc; now repeat split.
Qed.

End RedemptionKeyFacts.

(* ===================================================================== *)
(** ** The address converter: further properties *)
(* ===================================================================== *)

Module ConverterFacts.
Import Radix RadixFacts Payments Address AddressFacts.

(** The text of a P2WPKH address and what the two decoders make of it. *)
Lemma p2wpkh_address_decoded `{Sha256} (hash : list byte) (network : Network) :
  networkFacts network ->
  length hash = 20%nat ->
  exists body,
    p2wpkh_address hash network
    = Some (string_of_list_ascii
              (list_ascii_of_string (bech32 network) ++ "1"%char :: body))
    /\ length body = 39%nat
    /\ map Bech32.lowerChar body = body
    /\ Bech32.decode (string_of_list_ascii
                        (list_ascii_of_string (bech32 network)
                           ++ "1"%char :: body))
       = Some (bech32 network, 0 :: Bech32.toWords hash)
    /\ forall network',
         p2pkh_hash (string_of_list_ascii
                       (list_ascii_of_string (bech32 network)
                          ++ "1"%char :: body)) network' = None.
Proof.
  intros (_ & first & rest & chk & Hprefix & Hlimit & Hlower & Hchk & Hrange
          & Hleader & Hlong) Hlen.
  destruct (ConvertFacts.toWords_fromWords hash Hlen)
    as (Hwlen & Hwrange & Hback).
  assert (Hwords : inRange 32 (0 :: Bech32.toWords hash))
    by (constructor; [lia | exact Hwrange]).
  pose proof (PolymodFacts.checksumWords_inRange
                (fold_left PolymodFacts.feed (0 :: Bech32.toWords hash) chk))
    as Htail.
  assert (Htlen : length (PolymodFacts.checksumWords
                    (fold_left PolymodFacts.feed (0 :: Bech32.toWords hash) chk))
                  = 6%nat)
    by (unfold PolymodFacts.checksumWords; now rewrite length_map).
  pose proof (Bech32Facts.encode_Some (bech32 network) chk
                (0 :: Bech32.toWords hash)) as Henc.
  pose proof (Bech32Facts.decode_encoded (bech32 network) chk
                (0 :: Bech32.toWords hash)) as Hdec.
  generalize dependent (PolymodFacts.checksumWords
    (fold_left PolymodFacts.feed (0 :: Bech32.toWords hash) chk)).
  intros tail Htail Htlen Henc Hdec.
  exists (map Bech32.charOf ((0 :: Bech32.toWords hash) ++ tail)).
  assert (Hblen : length (map Bech32.charOf ((0 :: Bech32.toWords hash) ++ tail))
                  = 39%nat).
  { rewrite length_map, length_app. cbn [length]. rewrite Hwlen, Htlen.
    reflexivity. }
  split.
  { unfold p2wpkh_address. rewrite Hlen. cbn [Nat.eqb].
    apply Henc; try assumption.
    cbn [length]. rewrite Hwlen. exact Hlimit. }
  split; [exact Hblen|].
  split.
  { apply Bech32Facts.map_lower_charOf.
    apply Forall_app. split; assumption. }
  split.
  { apply Hdec; try assumption.
    - rewrite Hprefix. discriminate.
    - cbn [length]. rewrite Hwlen. exact Hlimit. }
  intros network'.
  rewrite Hprefix. cbn [list_ascii_of_string app string_of_list_ascii].
  apply p2pkh_rejects_long; [exact Hleader|].
  rewrite string_length_list, list_ascii_of_string_of_list_ascii.
  cbn [app] in Hblen.
  rewrite length_app, length_cons, Hblen.
  rewrite <- string_length_list.
  exact Hlong.
Qed.

Section Converter.
Context `{Sha256}.
Variable toBitcoinJsLibNetwork : BitcoinNetwork -> option Network.

(** X17. Different inputs never share an address: when
    [publicKeyHashToAddress] gives the same address for two 20-byte
    hashes on a supported network, the hashes are equal and so are the
    witness flags. *)
Theorem publicKeyHashToAddress_injective
    (hash1 hash2 : list byte) (witness1 witness2 : bool)
    (bitcoinNetwork : BitcoinNetwork) (network : Network) (address : string) :
  length hash1 = 20%nat ->
  length hash2 = 20%nat ->
  toBitcoinJsLibNetwork bitcoinNetwork = Some network ->
  In network networks ->
  publicKeyHashToAddress toBitcoinJsLibNetwork hash1 witness1 bitcoinNetwork
  = Some address ->
  publicKeyHashToAddress toBitcoinJsLibNetwork hash2 witness2 bitcoinNetwork
  = Some address ->
  hash1 = hash2 /\ witness1 = witness2.
Proof.
  intros Hlen1 Hlen2 Hnet Hin.
  pose proof (networks_facts network Hin) as Hfacts.
  unfold publicKeyHashToAddress. rewrite Hnet.
  assert (Hlegacy : forall hash, length hash = 20%nat ->
            p2pkh_address hash network = Some address ->
            p2pkh_hash address network = Some hash).
  { intros hash Hlen Ha.
    destruct (p2pkh_roundtrip hash network (proj1 Hfacts) Hlen)
      as (a & Ha' & Hd). congruence. }
  assert (Hsegwit : forall hash, length hash = 20%nat ->
            p2wpkh_address hash network = Some address ->
            p2wpkh_hash address network = Some hash
            /\ p2pkh_hash address network = None).
  { intros hash Hlen Ha.
    destruct (p2wpkh_roundtrip hash network Hfacts Hlen)
      as (a & Ha' & Hd & Hno). split; congruence. }
  destruct witness1, witness2; intros H1 H2.
  - apply Hsegwit in H1 as [H1 _]; [|assumption].
    apply Hsegwit in H2 as [H2 _]; [|assumption].
    split; congruence.
  - apply Hsegwit in H1 as [_ H1]; [|assumption].
    apply Hlegacy in H2; [|assumption]. congruence.
  - apply Hlegacy in H1; [|assumption].
    apply Hsegwit in H2 as [_ H2]; [|assumption]. congruence.
  - apply Hlegacy in H1; [|assumption].
    apply Hlegacy in H2; [|assumption].
    split; congruence.
Qed.

(** X18. A P2WPKH address is bound to its network: decoded for a supported
    network whose Bech32 prefix is another one, the address made for a
    20-byte hash is rejected. *)
Theorem segwit_address_rejected_on_other_network
    (hash : list byte) (made decoded : BitcoinNetwork)
    (network network' : Network) (address : string) :
  length hash = 20%nat ->
  toBitcoinJsLibNetwork made = Some network ->
  toBitcoinJsLibNetwork decoded = Some network' ->
  In network networks ->
  bech32 network' <> bech32 network ->
  publicKeyHashToAddress toBitcoinJsLibNetwork hash true made = Some address ->
  addressToPublicKeyHash toBitcoinJsLibNetwork address decoded = None.
Proof.
  intros Hlen Hnet Hnet' Hin Hne.
  unfold publicKeyHashToAddress, addressToPublicKeyHash.
  rewrite Hnet, Hnet'.
  destruct (p2wpkh_address_decoded hash network (networks_facts _ Hin) Hlen)
    as (body & Ha & _ & _ & Hdec & Hno).
  rewrite Ha. intros [= <-].
  rewrite Hno. unfold p2wpkh_hash. rewrite Hdec.
  destruct (Bech32.fromWords (Bech32.toWords hash)); [|reflexivity].
  destruct (String.eqb_spec (bech32 network') (bech32 network));
    [contradiction|reflexivity].
Qed.

(** X19. Whatever text [addressToPublicKeyHash] accepts, on whatever
    network, the hash it returns has exactly 20 octets. *)
Theorem addressToPublicKeyHash_length (address : string)
    (bitcoinNetwork : BitcoinNetwork) (hash : list byte) :
  addressToPublicKeyHash toBitcoinJsLibNetwork address bitcoinNetwork
  = Some hash ->
  length hash = 20%nat.
Proof.
  unfold addressToPublicKeyHash.
  destruct (toBitcoinJsLibNetwork bitcoinNetwork) as [network|];
    [|discriminate].
  destruct (p2pkh_hash address network) as [h|] eqn:Hlegacy.
  - intros [= <-]. unfold p2pkh_hash in Hlegacy.
    destruct (Bs58check.decode address) as [[|version payload]|];
      try discriminate.
    destruct (negb _); [discriminate|].
    destruct (Nat.eqb_spec (length payload) 20); [|discriminate].
    now injection Hlegacy as <-.
  - destruct (p2wpkh_hash address network) as [h|] eqn:Hsegwit;
      [|discriminate].
    intros [= <-]. unfold p2wpkh_hash in Hsegwit.
    destruct (Bech32.decode address) as [[prefix [|version words]]|];
      try discriminate.
    destruct (Bech32.fromWords words) as [data|]; [|discriminate].
    destruct (negb (String.eqb _ _)); [discriminate|].
    destruct (negb (version =? 0)); [discriminate|].
    destruct (Nat.eqb_spec (length data) 20); [|discriminate].
    now injection Hsegwit as <-.
Qed.

(** X20. The shape of a P2WPKH address: the network's Bech32 prefix, the
    separator "1" and 39 further characters, all in lower case; a main
    net address therefore has 42 characters. *)
Theorem segwit_address_shape (hash : list byte)
    (bitcoinNetwork : BitcoinNetwork) (network : Network) (address : string) :
  length hash = 20%nat ->
  toBitcoinJsLibNetwork bitcoinNetwork = Some network ->
  In network networks ->
  publicKeyHashToAddress toBitcoinJsLibNetwork hash true bitcoinNetwork
  = Some address ->
  (exists body, address = bech32 network +:+ "1" +:+ body
                /\ String.length body = 39%nat)
  /\ String.length address = (String.length (bech32 network) + 40)%nat
  /\ Bech32.mapString Bech32.lowerChar address = address.
Proof.
  intros Hlen Hnet Hin.
  pose proof (networks_facts network Hin) as Hfacts.
  unfold publicKeyHashToAddress. rewrite Hnet.
  destruct (p2wpkh_address_decoded hash network Hfacts Hlen)
    as (body & Ha & Hblen & Hblow & _ & _).
  rewrite Ha. intros [= <-].
  destruct Hfacts as (_ & first & rest & chk & _ & _ & Hlower & _).
  split; [|split].
  - exists (string_of_list_ascii body). split.
    + change ("1"%char :: body) with (list_ascii_of_string "1" ++ body).
      now rewrite !string_of_list_ascii_app, string_of_list_ascii_of_string.
    + now rewrite string_length_list, list_ascii_of_string_of_list_ascii.
  - rewrite string_length_list, list_ascii_of_string_of_list_ascii.
    rewrite length_app, <- string_length_list. cbn [length]. lia.
  - unfold Bech32.mapString in *.
    rewrite list_ascii_of_string_of_list_ascii, map_app. cbn [map].
    apply (f_equal list_ascii_of_string) in Hlower.
    rewrite list_ascii_of_string_of_list_ascii in Hlower.
    now rewrite Hlower, Hblow.
Qed.

End Converter.

End ConverterFacts.

(* ===================================================================== *)
(** ** Accepted addresses are canonical *)
(* ===================================================================== *)

Module CanonicalFacts.
Import Radix RadixFacts Payments Address AddressFacts.

(** A character found in an alphabet is the one at the index found. *)
Lemma indexIn_nth (c : ascii) (l : list ascii) (i d : Z) (dflt : ascii) :
  Base58.indexIn c l i = Some d ->
  i <= d /\ nth (Z.to_nat (d - i)) l dflt = c.
Proof.
  revert i. induction l as [|a l IH]; intros i; cbn [Base58.indexIn];
    [discriminate|].
  destruct (Ascii.eqb_spec a c) as [->|Hne].
  - intros [= <-]. split; [lia|]. now rewrite Z.sub_diag.
  - intros Hd. apply IH in Hd as [Hle Hnth]. split; [lia|].
    replace (Z.to_nat (d - i)) with (S (Z.to_nat (d - (i + 1)))) by lia.
    exact Hnth.
Qed.

Lemma base58_charOf_indexOf (c : ascii) (d : Z) :
  Base58.indexOf c = Some d -> Base58.charOf d = c.
Proof.
  unfold Base58.indexOf, Base58.charOf. intros Hd.
  apply (indexIn_nth _ _ _ _ "1"%char) in Hd as [_ Hnth].
  now rewrite Z.sub_0_r in Hnth.
Qed.

Lemma bech32_charOf_indexOf (c : ascii) (d : Z) :
  Bech32.indexOf c = Some d -> Bech32.charOf d = c /\ 0 <= d < 32.
Proof.
  unfold Bech32.indexOf, Bech32.charOf. intros Hd.
  pose proof (Base58Facts.indexIn_range _ _ _ _ Hd) as Hr.
  apply (indexIn_nth _ _ _ _ "q"%char) in Hd as [_ Hnth].
  rewrite Z.sub_0_r in Hnth. split; [exact Hnth|].
  cbn in Hr. lia.
Qed.

Lemma base58_mapM_indexOf_inv (cs : list ascii) (ds : list Z) :
  mapM Base58.indexOf cs = Some ds ->
  cs = map Base58.charOf ds /\ inRange 58 ds.
Proof.
  rewrite mapM_Some. induction 1 as [|c d cs ds Hd _ [IHc IHr]].
  - split; [reflexivity|constructor].
  - split.
    + cbn [map]. f_equal; [symmetry; now apply base58_charOf_indexOf|exact IHc].
    + constructor; [exact (Base58Facts.indexOf_range c d Hd)|exact IHr].
Qed.

Lemma bech32_mapM_indexOf_inv (cs : list ascii) (ds : list Z) :
  mapM Bech32.indexOf cs = Some ds ->
  cs = map Bech32.charOf ds /\ inRange 32 ds.
Proof.
  rewrite mapM_Some. induction 1 as [|c d cs ds Hd _ [IHc IHr]].
  - split; [reflexivity|constructor].
  - apply bech32_charOf_indexOf in Hd as [Hc Hr]. split.
    + cbn [map]. now f_equal.
    + now constructor.
Qed.

(** Base58 is one-to-one: a text that decodes is the encoding of what it
    decodes to. *)
Lemma base58_encode_decode (s : string) (bs : list byte) :
  Base58.decode s = Some bs -> Base58.encode bs = s.
Proof.
  unfold Base58.decode, Base58.encode.
  destruct (mapM Base58.indexOf (list_ascii_of_string s)) as [ds|] eqn:Hds;
    [|discriminate].
  intros [= <-].
  apply base58_mapM_indexOf_inv in Hds as [Hcs Hr].
  destruct (leadingZeros_split ds) as [Hsplit Hhead].
  set (zeroes := leadingZeros ds) in *.
  set (rest := skipn zeroes ds) in *.
  assert (Hrest : inRange 58 rest) by (apply Forall_drop, Hr).
  pose proof (fromDigits_range 58 ltac:(lia) _ Hrest) as [Hnn _].
  rewrite map_app, map_repeat.
  rewrite map_Z_of_byte_of_Z by (apply toDigits_inRange; lia).
  change (Z_of_byte x00) with 0.
  rewrite leadingZeros_app by (apply toDigits_headNonzero; lia).
  rewrite Base58Facts.skipn_repeat_app.
  rewrite toDigits_value by lia.
  rewrite toDigits_fromDigits by (assumption || lia).
  rewrite <- (string_of_list_ascii_of_string s), Hcs. f_equal.
  transitivity (map Base58.charOf (repeat 0 zeroes ++ rest));
    [|now rewrite <- Hsplit].
  rewrite map_app, map_repeat. reflexivity.
Qed.

Section WithSha.
Context `{Sha256}.

Lemma Z_of_byte_inj (a b : byte) : Z_of_byte a = Z_of_byte b -> a = b.
Proof.
  intros Heq. rewrite <- (byte_of_Z_of_byte a), <- (byte_of_Z_of_byte b).
  now rewrite Heq.
Qed.

(** A text that passes the checksum test with a payload of at least one
    octet is the encoding of that payload. *)
Lemma bs58check_encode_decode (s : string) (payload : list byte) :
  Bs58check.decode s = Some payload ->
  payload <> [] ->
  Bs58check.encode payload = s.
Proof.
  unfold Bs58check.decode, Bs58check.encode.
  destruct (Base58.decode s) as [buffer|] eqn:Hbuf; [|discriminate].
  destruct (forallb _ _) eqn:Hsum; [|discriminate].
  intros [= <-] Hne.
  apply base58_encode_decode in Hbuf. rewrite <- Hbuf. f_equal.
  set (n := (length buffer - 4)%nat) in *.
  assert (Hlong : (4 <= length buffer)%nat).
  { destruct (Nat.le_gt_cases 4 (length buffer)) as [|Hshort]; [assumption|].
    exfalso. apply Hne. replace n with 0%nat by lia. reflexivity. }
  rewrite <- (firstn_skipn n buffer) at 3. f_equal.
  pose proof (Bs58checkFacts.checksumOf_length (firstn n buffer)) as Hclen.
  assert (Hslen : length (skipn n buffer) = 4%nat)
    by (rewrite length_skipn; lia).
  rewrite forallb_forall in Hsum.
  apply (nth_ext _ _ x00 x00); [congruence|].
  intros i Hi. rewrite Hclen in Hi. symmetry.
  apply Z_of_byte_inj, Z.eqb_eq, Hsum, in_seq. lia.
Qed.

(** A P2PKH address that decodes is the address of the hash found. *)
Lemma p2pkh_address_of_hash (address : string) (network : Network)
    (hash : list byte) :
  p2pkh_hash address network = Some hash ->
  p2pkh_address hash network = Some address.
Proof.
  unfold p2pkh_hash, p2pkh_address.
  destruct (Bs58check.decode address) as [[|version payload]|] eqn:Hdec;
    try discriminate.
  destruct (Z.eqb_spec (Z_of_byte version) (pubKeyHash network)) as [Hv|];
    [|discriminate].
  destruct (Nat.eqb_spec (length payload) 20) as [Hlen|]; [|discriminate].
  cbn [negb]. intros [= <-]. rewrite Hlen. cbn [Nat.eqb].
  rewrite <- Hv, byte_of_Z_of_byte. f_equal.
  now apply bs58check_encode_decode.
Qed.

End WithSha.

Lemma lastIndexOf_Some (c : ascii) (l : list ascii) (i : nat) :
  Bech32.lastIndexOf c l = Some i ->
  l = firstn i l ++ c :: skipn (S i) l.
Proof.
  revert i. induction l as [|a l IH]; intros i; cbn [Bech32.lastIndexOf];
    [discriminate|].
  destruct (Bech32.lastIndexOf c l) as [j|] eqn:Hj.
  - intros [= <-]. cbn [firstn skipn app]. f_equal. now apply IH.
  - destruct (Ascii.eqb_spec a c) as [->|]; [|discriminate].
    now intros [= <-].
Qed.

Lemma length_mapString (f : ascii -> ascii) (s : string) :
  String.length (Bech32.mapString f s) = String.length s.
Proof.
  unfold Bech32.mapString.
  now rewrite !string_length_list, list_ascii_of_string_of_list_ascii,
    length_map.
Qed.

(** What a successful [decode] has seen: the lower-cased text is the
    prefix, the separator and the characters of the words followed by
    six checksum words that bring the running checksum to 1. *)
Lemma bech32_decode_inv (str prefix : string) (words : list Z) :
  Bech32.decode str = Some (prefix, words) ->
  exists chk0 tail,
    list_ascii_of_string (Bech32.mapString Bech32.lowerChar str)
    = list_ascii_of_string prefix
        ++ "1"%char :: map Bech32.charOf (words ++ tail)
    /\ Bech32.prefixChk prefix = Some chk0
    /\ inRange 32 words
    /\ inRange 32 tail
    /\ length tail = 6%nat
    /\ fold_left PolymodFacts.feed tail
         (fold_left PolymodFacts.feed words chk0) = 1
    /\ (String.length prefix + 7 + length words <= Bech32.LIMIT)%nat.
Proof.
  unfold Bech32.decode.
  destruct (Nat.ltb_spec (String.length str) 8); [discriminate|].
  destruct (Nat.ltb_spec Bech32.LIMIT (String.length str)) as [|Hlimit];
    [discriminate|].
  destruct (negb _ && negb _); [discriminate|].
  rewrite <- (length_mapString Bech32.lowerChar) in Hlimit.
  rewrite string_length_list in Hlimit.
  generalize dependent (list_ascii_of_string
                          (Bech32.mapString Bech32.lowerChar str)).
  intros chars Hlimit.
  destruct (Bech32.lastIndexOf "1"%char chars) as [[|split]|] eqn:Hsplit;
    try discriminate.
  apply lastIndexOf_Some in Hsplit.
  destruct (Nat.ltb_spec (length (skipn (S (S split)) chars)) 6) as [|Hsix];
    [discriminate|].
  destruct (Bech32.prefixChk _) as [chk0|] eqn:Hchk; [|discriminate].
  destruct (mapM Bech32.indexOf (skipn (S (S split)) chars))
    as [values|] eqn:Hvalues; [|discriminate].
  fold PolymodFacts.feed.
  change (fun chk v : Z => Z.lxor (Bech32.polymodStep chk) v)
    with PolymodFacts.feed.
  destruct (Z.eqb_spec (fold_left PolymodFacts.feed values chk0) 1)
    as [Hone|]; [|discriminate].
  intros [= <- <-].
  apply bech32_mapM_indexOf_inv in Hvalues as [Hchars Hrange].
  assert (Hvlen : (6 <= length values)%nat).
  { rewrite Hchars, length_map in Hsix. exact Hsix. }
  exists chk0, (skipn (length values - 6) values).
  rewrite firstn_skipn, <- Hchars.
  rewrite list_ascii_of_string_of_list_ascii.
  split; [exact Hsplit|]. split; [exact Hchk|].
  split; [now apply Forall_take|]. split; [now apply Forall_drop|].
  split; [rewrite length_skipn; lia|].
  split.
  - rewrite <- fold_left_app, firstn_skipn. exact Hone.
  - rewrite Hsplit, length_app in Hlimit. cbn [length] in Hlimit.
    rewrite Hchars, length_map in Hlimit.
    rewrite string_length_list, list_ascii_of_string_of_list_ascii.
    rewrite (length_firstn (length values - 6)). lia.
Qed.

(** The six checksum words are determined by what precedes them. *)
Lemma checksum_unique (chk1 : Z) (tail : list Z) :
  0 <= chk1 < 2 ^ 30 ->
  inRange 32 tail ->
  length tail = 6%nat ->
  fold_left PolymodFacts.feed tail chk1 = 1 ->
  tail = PolymodFacts.checksumWords chk1.
Proof.
  intros Hc Hr Hlen Hone.
  apply (fromDigits_inj_length 32); try assumption; try lia.
  - apply PolymodFacts.checksumWords_inRange.
  - rewrite PolymodFacts.checksumWords_value by assumption.
    rewrite <- (PolymodFacts.fold_feed_digits tail) by (assumption || lia).
    rewrite <- (Z.lxor_0_r chk1) in Hone.
    rewrite PolymodFacts.fold_feed_linear, Hlen in Hone.
    rewrite <- Hone.
    now rewrite <- Z.lxor_assoc, Z.lxor_nilpotent, Z.lxor_0_l.
Qed.

(** Words that regroup into 20 octets are 32 words spelling the same
    number. *)
Lemma fromWords_value (words : list Z) (data : list byte) :
  inRange 32 words ->
  Bech32.fromWords words = Some data ->
  length data = 20%nat ->
  length words = 32%nat
  /\ fromDigits 32 words = fromDigits 256 (map Z_of_byte data).
Proof.
  intros Hr.
  pose proof (ConvertFacts.convert_regrouped 5 8 ltac:(lia) ltac:(lia)
                words Hr) as Hfrom.
  unfold Bech32.fromWords, Bech32.convert.
  destruct (fold_left (Bech32.convertStep 5 8) words (0, 0, []))
    as [[value bits] octets].
  destruct Hfrom as (Hval & Hnn & Hb & Hro & Hres & Hcount).
  destruct (Z.leb_spec 5 bits); [discriminate|].
  destruct (negb _); [discriminate|].
  cbn [option_map]. intros [= <-] Hlen. rewrite length_map in Hlen.
  assert (bits = 0) by lia. subst bits.
  split; [lia|].
  rewrite Z.pow_0_r, Z.div_1_r in Hres.
  change (2 ^ 5) with 32 in Hval. change (2 ^ 8) with 256 in Hres, Hro.
  rewrite map_Z_of_byte_of_Z by exact Hro. congruence.
Qed.

Lemma toWords_of_fromWords (words : list Z) (data : list byte) :
  inRange 32 words ->
  Bech32.fromWords words = Some data ->
  length data = 20%nat ->
  Bech32.toWords data = words.
Proof.
  intros Hr Hfrom Hlen.
  destruct (fromWords_value words data Hr Hfrom Hlen) as [Hwlen Hval].
  destruct (ConvertFacts.toWords_fromWords data Hlen) as (Htlen & Htr & Hback).
  destruct (fromWords_value _ data Htr Hback Hlen) as [_ Hval'].
  apply (fromDigits_inj_length 32); try assumption; lia.
Qed.

(** A P2WPKH address that decodes is, in lower case, the address of the
    hash found. *)
Lemma p2wpkh_address_of_hash (address : string) (network : Network)
    (hash : list byte) :
  networkFacts network ->
  p2wpkh_hash address network = Some hash ->
  p2wpkh_address hash network
  = Some (Bech32.mapString Bech32.lowerChar address).
Proof.
  intros (_ & first & rest & chk & _ & _ & _ & Hchk & Hrange & _).
  unfold p2wpkh_hash.
  destruct (Bech32.decode address) as [[prefix [|version words]]|] eqn:Hdec;
    try discriminate.
  destruct (Bech32.fromWords words) as [data|] eqn:Hfrom; [|discriminate].
  destruct (String.eqb_spec (bech32 network) prefix) as [<-|]; [|discriminate].
  destruct (Z.eqb_spec version 0) as [->|]; [|discriminate].
  destruct (Nat.eqb_spec (length data) 20) as [Hlen|]; [|discriminate].
  cbn [negb]. intros [= <-].
  apply bech32_decode_inv in Hdec
    as (chk0 & tail & Hchars & Hchk0 & Hr & Htail & Htlen & Hone & Hlimit).
  rewrite Hchk in Hchk0. injection Hchk0 as <-.
  assert (Hwords : inRange 32 words) by (now apply Forall_inv_tail in Hr).
  unfold p2wpkh_address. rewrite Hlen. cbn [Nat.eqb].
  rewrite (toWords_of_fromWords words data Hwords Hfrom Hlen).
  rewrite (Bech32Facts.encode_Some _ chk) by assumption.
  f_equal.
  rewrite <- (checksum_unique _ tail); try assumption.
  - rewrite <- Hchars. apply string_of_list_ascii_of_string.
  - now apply PolymodFacts.fold_feed_range.
Qed.

Section Converter.
Context `{Sha256}.
Variable toBitcoinJsLibNetwork : BitcoinNetwork -> option Network.

(** X21. Every address [addressToPublicKeyHash] accepts on a supported
    network is the canonical one of the hash it returns: the text itself
    is what [publicKeyHashToAddress] makes of that hash as a P2PKH
    address, or its lower-case form is what it makes of it as a P2WPKH
    address. *)
Theorem accepted_address_is_canonical (address : string)
    (bitcoinNetwork : BitcoinNetwork) (network : Network) (hash : list byte) :
  toBitcoinJsLibNetwork bitcoinNetwork = Some network ->
  In network networks ->
  addressToPublicKeyHash toBitcoinJsLibNetwork address bitcoinNetwork
  = Some hash ->
  publicKeyHashToAddress toBitcoinJsLibNetwork hash false bitcoinNetwork
  = Some address
  \/ publicKeyHashToAddress toBitcoinJsLibNetwork hash true bitcoinNetwork
     = Some (Bech32.mapString Bech32.lowerChar address).
Proof.
  intros Hnet Hin.
  unfold addressToPublicKeyHash, publicKeyHashToAddress. rewrite Hnet.
  destruct (p2pkh_hash address network) as [h|] eqn:Hlegacy.
  - intros [= <-]. left. now apply p2pkh_address_of_hash.
  - destruct (p2wpkh_hash address network) as [h|] eqn:Hsegwit;
      [|discriminate].
    intros [= <-]. right.
    apply p2wpkh_address_of_hash; [now apply networks_facts|exact Hsegwit].
Qed.

End Converter.

End CanonicalFacts.

(* ===================================================================== *)
(** ** Addresses and output scripts *)
(* ===================================================================== *)

Module AddressScriptsFacts.
Import Radix RadixFacts Payments Address AddressFacts AddressScripts.

(** The output script that pays to a public key hash: P2WPKH for the
    witness flag, P2PKH otherwise. *)
Definition pkhScript (witness : bool) (hash : list byte) : list byte :=
  if witness then [x00; x14] ++ hash
  else [x76; xa9; x14] ++ hash ++ [x88; xac].

Section Library.
Context `{Sha256}.
Variable laterWitnessScript : string -> Network -> option (list byte).
Variable laterWitnessAddress : list byte -> Network -> option string.

(** A text of the shape of a P2WPKH address is not a Base58Check
    address. *)
Lemma fromBase58Check_rejects_long (c : ascii) (s : string) :
  Base58.indexOf c <> Some 0 ->
  256 ^ 30 <= 58 ^ Z.of_nat (String.length s) ->
  fromBase58Check (String c s) = None.
Proof.
  intros Hc Hlong. unfold fromBase58Check.
  destruct (Bs58check.decode (String c s)) as [payload|] eqn:Hdec;
    [|reflexivity].
  apply Bs58checkFacts.bs58check_decode_length in Hdec
    as (buffer & Hbuf & Hlen).
  apply (Base58Facts.base58_decode_length c s 30) in Hbuf; [|assumption..].
  destruct (Nat.ltb_spec (length payload) 21); [reflexivity|].
  destruct (Nat.ltb_spec 21 (length payload)); [reflexivity|lia].
Qed.

Lemma toOutputScript_of_address (hash : list byte) (witness : bool)
    (network : Network) (address : string) :
  networkFacts network ->
  length hash = 20%nat ->
  (if witness then p2wpkh_address hash network
   else p2pkh_address hash network) = Some address ->
  toOutputScript laterWitnessScript address network
  = Some (pkhScript witness hash).
Proof.
  intros Hfacts Hlen. destruct witness.
  - destruct (ConverterFacts.p2wpkh_address_decoded hash network Hfacts Hlen)
      as (body & Ha & Hblen & _ & Hdec & _).
    rewrite Ha. intros [= <-].
    destruct Hfacts as (_ & first & rest & chk & Hprefix & _ & _ & _ & _
                        & Hleader & Hlong).
    unfold toOutputScript.
    replace (fromBase58Check _) with (@None (Z * list byte)).
    + rewrite Hdec. cbn [Z.eqb negb].
      destruct (ConvertFacts.toWords_fromWords hash Hlen) as (_ & _ & ->).
      rewrite String.eqb_refl, Hlen. cbn [negb Nat.eqb].
      unfold p2wpkh_output. now rewrite Hlen.
    + symmetry. rewrite Hprefix.
      cbn [list_ascii_of_string app string_of_list_ascii].
      apply fromBase58Check_rejects_long; [exact Hleader|].
      rewrite string_length_list, list_ascii_of_string_of_list_ascii.
      rewrite length_app, length_cons, Hblen, <- string_length_list.
      exact Hlong.
  - unfold p2pkh_address. rewrite Hlen. cbn [Nat.eqb]. intros [= <-].
    unfold toOutputScript, fromBase58Check.
    rewrite Bs58checkFacts.bs58check_decode_encode.
    cbn [length]. rewrite Hlen. cbn [Nat.ltb Nat.leb].
    rewrite Z_of_byte_of_Z by apply Hfacts.
    rewrite Z.eqb_refl. unfold p2pkh_output. now rewrite Hlen.
Qed.

Lemma fromOutputScript_of_script (hash : list byte) (witness : bool)
    (network : Network) (address : string) :
  length hash = 20%nat ->
  (if witness then p2wpkh_address hash network
   else p2pkh_address hash network) = Some address ->
  fromOutputScript laterWitnessAddress (pkhScript witness hash) network
  = Some address.
Proof.
  intros Hlen.
  do 20 (destruct hash as [|? hash]; [discriminate|]).
  destruct hash; [|discriminate].
  destruct witness; unfold fromOutputScript.
  - unfold p2pkh_address_of_output, p2sh_address_of_output,
      p2wpkh_address_of_output.
    cbn [pkhScript app length Nat.eqb andb].
    cbn [byteAt nth_error Byte.eqb].
    unfold p2wpkh_address. cbn [length Nat.eqb skipn].
    now intros ->.
  - unfold p2pkh_address_of_output, p2pkh_address.
    cbn [pkhScript app length Nat.eqb andb].
    now intros [= <-].
Qed.

Variable toBitcoinJsLibNetwork : BitcoinNetwork -> option Network.

(** X22. The script of an address: for a 20-byte hash and a supported
    network, [addressToOutputScript] turns the P2PKH address made by
    [publicKeyHashToAddress] into
    OP_DUP OP_HASH160 <hash> OP_EQUALVERIFY OP_CHECKSIG, and the P2WPKH
    address into OP_0 <hash>. *)
Theorem addressToOutputScript_of_address (hash : list byte) (witness : bool)
    (bitcoinNetwork : BitcoinNetwork) (network : Network) (address : string) :
  length hash = 20%nat ->
  toBitcoinJsLibNetwork bitcoinNetwork = Some network ->
  In network networks ->
  publicKeyHashToAddress toBitcoinJsLibNetwork hash witness bitcoinNetwork
  = Some address ->
  addressToOutputScript laterWitnessScript toBitcoinJsLibNetwork address
    bitcoinNetwork
  = Some (if witness then [x00; x14] ++ hash
          else [x76; xa9; x14] ++ hash ++ [x88; xac]).
Proof.
  intros Hlen Hnet Hin.
  unfold publicKeyHashToAddress, addressToOutputScript. rewrite Hnet.
  intros Ha.
  now apply (toOutputScript_of_address hash witness network address
               (networks_facts _ Hin) Hlen).
Qed.

(** X23. The address of a script: for a 20-byte hash and a supported
    network (the main net when none is given), [outputScriptToAddress]
    turns the P2PKH and the P2WPKH script of the hash into the very
    address [publicKeyHashToAddress] makes of the hash, and
    [addressToOutputScript] leads from that address back to the script. *)
Theorem outputScriptToAddress_of_script (hash : list byte) (witness : bool)
    (bitcoinNetwork : option BitcoinNetwork) (network : Network) :
  length hash = 20%nat ->
  toBitcoinJsLibNetwork (default Mainnet bitcoinNetwork) = Some network ->
  In network networks ->
  exists address,
    publicKeyHashToAddress toBitcoinJsLibNetwork hash witness
      (default Mainnet bitcoinNetwork) = Some address
    /\ outputScriptToAddress laterWitnessAddress toBitcoinJsLibNetwork
         (pkhScript witness hash) bitcoinNetwork = Some address
    /\ addressToOutputScript laterWitnessScript toBitcoinJsLibNetwork
         address (default Mainnet bitcoinNetwork)
       = Some (pkhScript witness hash).
Proof.
  intros Hlen Hnet Hin.
  pose proof (networks_facts _ Hin) as Hfacts.
  unfold publicKeyHashToAddress, outputScriptToAddress, addressToOutputScript.
  rewrite Hnet.
  assert (Hmade : exists address,
            (if witness then p2wpkh_address hash network
             else p2pkh_address hash network) = Some address).
  { destruct witness.
    - destruct (p2wpkh_roundtrip hash network Hfacts Hlen) as (a & Ha & _).
      eauto.
    - destruct (p2pkh_roundtrip hash network (proj1 Hfacts) Hlen)
        as (a & Ha & _). eauto. }
  destruct Hmade as (address & Ha). exists address.
  split; [exact Ha|]. split.
  - now apply fromOutputScript_of_script.
  - now apply toOutputScript_of_address.
Qed.

End Library.

End AddressScriptsFacts.

(* ===================================================================== *)
(** ** A P2PKH address is bound to its network *)
(* ===================================================================== *)

Module NetworkBindingFacts.
Import Radix RadixFacts Payments Address AddressFacts CanonicalFacts.

Lemma toDigits_length_le (base n : Z) (k : nat) :
  2 <= base -> 0 <= n < base ^ Z.of_nat k ->
  (length (toDigits base n) <= k)%nat.
Proof.
  intros Hbase [Hnn Hlt].
  pose proof (toDigits_value base Hbase n Hnn) as Hval.
  pose proof (toDigits_inRange base Hbase n) as Hr.
  pose proof (toDigits_headNonzero base Hbase n Hnn) as Hhead.
  destruct (toDigits base n) as [|d ds]; [cbn; lia|].
  pose proof (fromDigits_lower base Hbase d ds Hr Hhead) as Hlow.
  rewrite Hval in Hlow. cbn [length].
  assert (Z.of_nat (length ds) < Z.of_nat k); [|lia].
  apply (Z.pow_lt_mono_r_iff base); lia.
Qed.

(** Twenty-five octets never take more than 35 Base58 characters. *)
Lemma base58_encode_length (bs : list byte) :
  length bs = 25%nat -> (String.length (Base58.encode bs) <= 35)%nat.
Proof.
  intros Hlen. unfold Base58.encode.
  rewrite string_length_list, list_ascii_of_string_of_list_ascii.
  rewrite length_app, repeat_length, length_map.
  set (values := map Z_of_byte bs).
  destruct (leadingZeros_split values) as [Hsplit _].
  set (zeroes := leadingZeros values) in *.
  assert (Hrange : inRange 256 (skipn zeroes values))
    by apply Forall_drop, bytes_inRange.
  pose proof (fromDigits_range 256 ltac:(lia) _ Hrange) as Hval.
  assert (Hvlen : length values = 25%nat)
    by (unfold values; now rewrite length_map).
  assert (Hz : (zeroes <= 25)%nat).
  { apply (f_equal (@length Z)) in Hsplit.
    rewrite length_app, repeat_length in Hsplit. lia. }
  rewrite length_skipn, Hvlen in Hval.
  assert (Hpow : 256 ^ Z.of_nat (25 - zeroes) <= 58 ^ Z.of_nat (35 - zeroes)).
  { pose proof (forall_below
                  (fun z => 256 ^ (25 - z) <=? 58 ^ (35 - z)) 26
                  ltac:(vm_compute; reflexivity) (Z.of_nat zeroes)
                  ltac:(lia)) as Hcheck.
    apply Z.leb_le in Hcheck.
    now rewrite !Nat2Z.inj_sub by lia. }
  pose proof (toDigits_length_le 58 _ (35 - zeroes) ltac:(lia)
                ltac:(split; [apply Hval|lia])).
  lia.
Qed.

(** A P2PKH address has at most 35 characters. *)
Lemma p2pkh_address_length `{Sha256} (hash : list byte) (network : Network)
    (address : string) :
  p2pkh_address hash network = Some address ->
  (String.length address <= 35)%nat.
Proof.
  unfold p2pkh_address.
  destruct (Nat.eqb_spec (length hash) 20) as [Hlen|]; [|discriminate].
  intros [= <-]. unfold Bs58check.encode. apply base58_encode_length.
  rewrite length_app, Bs58checkFacts.checksumOf_length. cbn [length]. lia.
Qed.

(** A text accepted as a P2WPKH address has at least 40 characters. *)
Lemma p2wpkh_hash_length (address : string) (network : Network)
    (hash : list byte) :
  p2wpkh_hash address network = Some hash ->
  (40 <= String.length address)%nat.
Proof.
  unfold p2wpkh_hash.
  destruct (Bech32.decode address) as [[prefix [|version words]]|] eqn:Hdec;
    try discriminate.
  destruct (Bech32.fromWords words) as [data|] eqn:Hfrom; [|discriminate].
  destruct (negb (String.eqb _ _)); [discriminate|].
  destruct (negb (version =? 0)); [discriminate|].
  destruct (Nat.eqb_spec (length data) 20) as [Hlen|]; [|discriminate].
  intros _.
  apply bech32_decode_inv in Hdec
    as (chk0 & tail & Hchars & _ & Hr & _ & Htlen & _).
  assert (Hwords : inRange 32 words) by (now apply Forall_inv_tail in Hr).
  destruct (fromWords_value words data Hwords Hfrom Hlen) as [Hwlen _].
  rewrite <- (length_mapString Bech32.lowerChar), string_length_list, Hchars.
  rewrite length_app, length_cons, length_map, length_app, length_cons.
  lia.
Qed.

Section Converter.
Context `{Sha256}.
Variable toBitcoinJsLibNetwork : BitcoinNetwork -> option Network.

(** X24. A P2PKH address is bound to its network: the address made for a
    20-byte hash on one network is rejected by [addressToPublicKeyHash]
    on every network with another P2PKH version octet; it is too short to
    pass for a P2WPKH address of any network. *)
Theorem legacy_address_rejected_on_other_network
    (hash : list byte) (made decoded : BitcoinNetwork)
    (network network' : Network) (address : string) :
  length hash = 20%nat ->
  toBitcoinJsLibNetwork made = Some network ->
  toBitcoinJsLibNetwork decoded = Some network' ->
  0 <= pubKeyHash network < 256 ->
  pubKeyHash network' <> pubKeyHash network ->
  publicKeyHashToAddress toBitcoinJsLibNetwork hash false made
  = Some address ->
  addressToPublicKeyHash toBitcoinJsLibNetwork address decoded = None.
Proof.
  intros Hlen Hnet Hnet' Hv Hne.
  unfold publicKeyHashToAddress, addressToPublicKeyHash.
  rewrite Hnet, Hnet'. intros Ha.
  pose proof (p2pkh_address_length hash network address Ha) as Hshort.
  assert (Hlegacy : p2pkh_hash address network' = None).
  { unfold p2pkh_address in Ha. rewrite Hlen in Ha. cbn [Nat.eqb] in Ha.
    injection Ha as <-. unfold p2pkh_hash.
    rewrite Bs58checkFacts.bs58check_decode_encode.
    rewrite Z_of_byte_of_Z by exact Hv.
    destruct (Z.eqb_spec (pubKeyHash network) (pubKeyHash network'));
      [congruence|reflexivity]. }
  rewrite Hlegacy.
  destruct (p2wpkh_hash address network') as [h|] eqn:Hsegwit;
    [|reflexivity].
  apply p2wpkh_hash_length in Hsegwit. lia.
Qed.

End Converter.

End NetworkBindingFacts.

(* ===================================================================== *)
(** ** Output scripts: other networks, script hashes *)
(* ===================================================================== *)

Module ScriptHashFacts.
Import Radix RadixFacts Payments Address AddressFacts AddressScripts.

(** The P2SH script of a script hash. *)
Definition shScript (hash : list byte) : list byte :=
  [xa9; x14] ++ hash ++ [x87].

(** The version octets of bitcoinjs-lib's networks. *)
Lemma networks_versions (network : Network) :
  In network networks ->
  0 <= pubKeyHash network < 256
  /\ 0 <= scriptHash network < 256
  /\ scriptHash network <> pubKeyHash network.
Proof.
  intros [<- | [<- | [<- | []]]]; cbn; lia.
Qed.

Section Library.
Context `{Sha256}.
Variable laterWitnessScript : string -> Network -> option (list byte).
Variable laterWitnessAddress : list byte -> Network -> option string.
Variable toBitcoinJsLibNetwork : BitcoinNetwork -> option Network.

(** X25. [addressToOutputScript] binds an address to its network: the
    address [publicKeyHashToAddress] makes of a 20-byte hash on one of the
    library's networks is rejected on a network that has, for a P2WPKH
    address, another Bech32 prefix and, for a P2PKH address, neither as
    P2PKH nor as P2SH version the version octet of the address. *)
Theorem addressToOutputScript_rejects_other_network
    (hash : list byte) (witness : bool) (made decoded : BitcoinNetwork)
    (network network' : Network) (address : string) :
  length hash = 20%nat ->
  toBitcoinJsLibNetwork made = Some network ->
  toBitcoinJsLibNetwork decoded = Some network' ->
  In network networks ->
  (if witness then bech32 network' <> bech32 network
   else pubKeyHash network' <> pubKeyHash network
        /\ scriptHash network' <> pubKeyHash network) ->
  publicKeyHashToAddress toBitcoinJsLibNetwork hash witness made
  = Some address ->
  addressToOutputScript laterWitnessScript toBitcoinJsLibNetwork address
    decoded = None.
Proof.
  intros Hlen Hnet Hnet' Hin Hother.
  pose proof (networks_facts _ Hin) as Hfacts.
  unfold publicKeyHashToAddress, addressToOutputScript.
  rewrite Hnet, Hnet'. destruct witness.
  - destruct (ConverterFacts.p2wpkh_address_decoded hash network Hfacts Hlen)
      as (body & Ha & Hblen & _ & Hdec & _).
    rewrite Ha. intros [= <-].
    destruct Hfacts as (_ & first & rest & chk & Hprefix & _ & _ & _ & _
                        & Hleader & Hlong).
    unfold toOutputScript.
    replace (fromBase58Check _) with (@None (Z * list byte)).
    + rewrite Hdec. cbn [Z.eqb negb].
      destruct (Bech32.fromWords (Bech32.toWords hash)); [|reflexivity].
      destruct (String.eqb_spec (bech32 network) (bech32 network'));
        [congruence|reflexivity].
    + symmetry. rewrite Hprefix.
      cbn [list_ascii_of_string app string_of_list_ascii].
      apply AddressScriptsFacts.fromBase58Check_rejects_long;
        [exact Hleader|].
      rewrite string_length_list, list_ascii_of_string_of_list_ascii.
      rewrite length_app, length_cons, Hblen, <- string_length_list.
      exact Hlong.
  - destruct Hother as [Hpk Hsh].
    unfold p2pkh_address. rewrite Hlen. cbn [Nat.eqb]. intros [= <-].
    unfold toOutputScript, fromBase58Check.
    rewrite Bs58checkFacts.bs58check_decode_encode.
    cbn [length]. rewrite Hlen. cbn [Nat.ltb Nat.leb].
    rewrite Z_of_byte_of_Z by apply Hfacts.
    destruct (Z.eqb_spec (pubKeyHash network) (pubKeyHash network'));
      [congruence|].
    destruct (Z.eqb_spec (pubKeyHash network) (scriptHash network'));
      [congruence|reflexivity].
Qed.

(** X26. Script hashes: for a 20-byte script hash and a supported
    network, [outputScriptToAddress] turns the P2SH script
    OP_HASH160 <hash> OP_EQUAL into an address that
    [addressToOutputScript] turns back into that script, and that
    [addressToPublicKeyHash] rejects, as it is not an address of a public
    key hash. *)
Theorem script_hash_address_roundtrip (hash : list byte)
    (bitcoinNetwork : BitcoinNetwork) (network : Network) :
  length hash = 20%nat ->
  toBitcoinJsLibNetwork bitcoinNetwork = Some network ->
  In network networks ->
  exists address,
    outputScriptToAddress laterWitnessAddress toBitcoinJsLibNetwork
      (shScript hash) (Some bitcoinNetwork) = Some address
    /\ addressToOutputScript laterWitnessScript toBitcoinJsLibNetwork
         address bitcoinNetwork = Some (shScript hash)
    /\ addressToPublicKeyHash toBitcoinJsLibNetwork address bitcoinNetwork
       = None.
Proof.
  intros Hlen Hnet Hin.
  destruct (networks_versions _ Hin) as (Hpk & Hsh & Hne).
  exists (toBase58Check hash (scriptHash network)).
  unfold outputScriptToAddress, addressToOutputScript, addressToPublicKeyHash.
  cbn [default]. unfold id. rewrite Hnet.
  assert (Hdec : Bs58check.decode (toBase58Check hash (scriptHash network))
                 = Some (byte_of_Z (scriptHash network) :: hash))
    by apply Bs58checkFacts.bs58check_decode_encode.
  split; [|split].
  - do 20 (destruct hash as [|? hash]; [discriminate|]).
    destruct hash; [|discriminate].
    unfold fromOutputScript, p2pkh_address_of_output, p2sh_address_of_output.
    cbn [shScript app length Nat.eqb andb].
    reflexivity.
  - unfold toOutputScript, fromBase58Check. rewrite Hdec.
    cbn [length]. rewrite Hlen. cbn [Nat.ltb Nat.leb].
    rewrite Z_of_byte_of_Z by exact Hsh.
    destruct (Z.eqb_spec (scriptHash network) (pubKeyHash network));
      [contradiction|].
    rewrite Z.eqb_refl. unfold p2sh_output. now rewrite Hlen.
  - assert (Hlegacy : p2pkh_hash (toBase58Check hash (scriptHash network))
                        network = None).
    { unfold p2pkh_hash. rewrite Hdec.
      rewrite Z_of_byte_of_Z by exact Hsh.
      destruct (Z.eqb_spec (scriptHash network) (pubKeyHash network));
        [contradiction|reflexivity]. }
    rewrite Hlegacy.
    destruct (p2wpkh_hash _ network) as [h|] eqn:Hsegwit; [|reflexivity].
    apply NetworkBindingFacts.p2wpkh_hash_length in Hsegwit.
    assert (String.length (toBase58Check hash (scriptHash network)) <= 35)%nat.
    { unfold toBase58Check, Bs58check.encode.
      apply NetworkBindingFacts.base58_encode_length.
      rewrite length_app, Bs58checkFacts.checksumOf_length.
      cbn [length]. lia. }
    lia.
Qed.

End Library.

End ScriptHashFacts.

(* ===================================================================== *)
(** ** Output scripts: witness script hashes *)
(* ===================================================================== *)

Module WitnessScriptHashFacts.
Import Radix RadixFacts Payments Address AddressFacts AddressScripts.

(** Octets of any number regroup into 5-bit words, padded with zero bits,
    and come back from them. *)
Lemma toWords_fromWords_any (bytes : list byte) :
  inRange 32 (Bech32.toWords bytes)
  /\ Z.of_nat (length (Bech32.toWords bytes))
     = (8 * Z.of_nat (length bytes) + 4) / 5
  /\ Bech32.fromWords (Bech32.toWords bytes) = Some bytes.
Proof.
  pose proof (ConvertFacts.convert_regrouped 8 5 ltac:(lia) ltac:(lia)
                (map Z_of_byte bytes) (bytes_inRange bytes)) as Hto.
  assert (Htw : exists value pad words,
             Bech32.toWords bytes = words
             /\ value = fromDigits 256 (map Z_of_byte bytes)
             /\ 0 <= value
             /\ 0 <= pad < 5
             /\ inRange 32 words
             /\ fromDigits 32 words = value * 2 ^ pad
             /\ Z.of_nat (length words) * 5
                = Z.of_nat (length bytes) * 8 + pad).
  { unfold Bech32.toWords, Bech32.convert.
    destruct (fold_left (Bech32.convertStep 8 5) (map Z_of_byte bytes)
                        (0, 0, [])) as [[value bits] words].
    destruct Hto as (Hval & Hnn & Hb & Hr & Hres & Hcount).
    rewrite length_map in Hcount.
    change (2 ^ 8) with 256 in Hval. change (2 ^ 5) with 32 in Hr, Hres.
    destruct (Z.ltb_spec 0 bits) as [Hpos|Hzero]; cbn [default]; unfold id.
    - exists value, (5 - bits),
        (words ++ [Z.land (Z.shiftl value (5 - bits)) (Z.shiftl 1 5 - 1)]).
      rewrite ConvertFacts.land_mask by lia.
      rewrite Z.shiftl_mul_pow2 by lia.
      change (2 ^ 5) with 32.
      assert (Hsplit : 2 ^ bits * 2 ^ (5 - bits) = 32).
      { rewrite <- Z.pow_add_r by lia.
        now replace (bits + (5 - bits)) with 5 by lia. }
      assert (Hbpos : 0 < 2 ^ bits) by (apply Z.pow_pos_nonneg; lia).
      assert (Hppos : 0 < 2 ^ (5 - bits)) by (apply Z.pow_pos_nonneg; lia).
      pose proof (Z.div_mod value (2 ^ bits) ltac:(lia)) as Hdm.
      pose proof (Z.mod_pos_bound value (2 ^ bits) Hbpos) as Hrem.
      assert (Hlast : (value * 2 ^ (5 - bits)) mod 32
                      = (value mod 2 ^ bits) * 2 ^ (5 - bits)).
      { rewrite Hdm at 1.
        replace ((2 ^ bits * (value / 2 ^ bits) + value mod 2 ^ bits)
                 * 2 ^ (5 - bits))
          with ((value mod 2 ^ bits) * 2 ^ (5 - bits)
                + (value / 2 ^ bits) * 32) by (rewrite <- Hsplit; ring).
        rewrite Z.mod_add by lia. apply Z.mod_small. nia. }
      split; [reflexivity|]. split; [exact Hval|]. split; [exact Hnn|].
      split; [lia|]. split.
      { apply Forall_app. split; [exact Hr|].
        constructor; [|constructor].
        apply Z.mod_pos_bound. lia. }
      split.
      { rewrite (fromDigits_app 32) by lia. cbn [length].
        change (fromDigits 32 [?x]) with (0 * 32 + x).
        rewrite Hres, Hlast. change (32 ^ Z.of_nat 1) with 32.
        rewrite Hdm at 3. rewrite <- Hsplit. ring. }
      rewrite length_app. cbn [length]. lia.
    - exists value, 0, words.
      assert (bits = 0) by lia. subst bits.
      rewrite Z.pow_0_r, Z.div_1_r in Hres.
      split; [reflexivity|]. split; [exact Hval|]. split; [exact Hnn|].
      split; [lia|]. split; [exact Hr|].
      split; [rewrite Z.pow_0_r; lia|lia]. }
  destruct Htw as (value & pad & words & -> & Hval & Hnn & Hpad & Hr & Hres
                   & Hcount).
  split; [exact Hr|]. split.
  { apply Z.div_unique with (r := 4 - pad); lia. }
  pose proof (ConvertFacts.convert_regrouped 5 8 ltac:(lia) ltac:(lia)
                words Hr) as Hfrom.
  unfold Bech32.fromWords, Bech32.convert.
  destruct (fold_left (Bech32.convertStep 5 8) words (0, 0, []))
    as [[value2 bits2] octets].
  destruct Hfrom as (Hval2 & Hnn2 & Hb2 & Hr2 & Hres2 & Hcount2).
  change (2 ^ 5) with 32 in Hval2. change (2 ^ 8) with 256 in Hr2, Hres2.
  assert (bits2 = pad) by lia. subst bits2.
  assert (Hoctets : length octets = length bytes) by lia.
  destruct (Z.leb_spec 5 pad); [lia|].
  rewrite ConvertFacts.land_mask by lia.
  rewrite Z.shiftl_mul_pow2 by lia.
  assert (Hppos : 0 < 2 ^ pad) by (apply Z.pow_pos_nonneg; lia).
  assert (Hsplit : 2 ^ pad * 2 ^ (8 - pad) = 256).
  { rewrite <- Z.pow_add_r by lia.
    now replace (pad + (8 - pad)) with 8 by lia. }
  replace ((value2 * 2 ^ (8 - pad)) mod 2 ^ 8) with 0.
  - cbn [Z.eqb negb option_map]. f_equal.
    assert (Heq : octets = map Z_of_byte bytes).
    { apply (fromDigits_inj_length 256);
        [ lia | exact Hr2 | apply bytes_inRange
        | now rewrite length_map | ].
      rewrite Hres2, Hval2, Hres, <- Hval.
      now rewrite Z.div_mul by lia. }
    rewrite Heq. apply map_byte_of_Z_of_byte.
  - symmetry. rewrite Hval2, Hres. change (2 ^ 8) with 256.
    replace (value * 2 ^ pad * 2 ^ (8 - pad)) with (value * 256)
      by (rewrite <- Hsplit; ring).
    apply Z.mod_mul. lia.
Qed.

(** The P2WSH script of a witness script hash. *)
Definition wshScript (hash : list byte) : list byte := [x00; x20] ++ hash.

(** A witness script hash fits a Bech32 string on the library's
    networks. *)
Lemma networks_limit (network : Network) :
  In network networks ->
  (String.length (bech32 network) + 7 + 53 <= Bech32.LIMIT)%nat.
Proof.
  intros [<- | [<- | [<- | []]]]; vm_compute; lia.
Qed.

Section Library.
Context `{Sha256}.
Variable laterWitnessScript : string -> Network -> option (list byte).
Variable laterWitnessAddress : list byte -> Network -> option string.
Variable toBitcoinJsLibNetwork : BitcoinNetwork -> option Network.

(** X27. Witness script hashes: for a 32-byte hash and a supported
    network, [outputScriptToAddress] turns the P2WSH script OP_0 <hash>
    into an address that [addressToOutputScript] turns back into that
    script, and that [addressToPublicKeyHash] rejects, as it is not an
    address of a public key hash. *)
Theorem witness_script_hash_address_roundtrip (hash : list byte)
    (bitcoinNetwork : BitcoinNetwork) (network : Network) :
  length hash = 32%nat ->
  toBitcoinJsLibNetwork bitcoinNetwork = Some network ->
  In network networks ->
  exists address,
    outputScriptToAddress laterWitnessAddress toBitcoinJsLibNetwork
      (wshScript hash) (Some bitcoinNetwork) = Some address
    /\ addressToOutputScript laterWitnessScript toBitcoinJsLibNetwork
         address bitcoinNetwork = Some (wshScript hash)
    /\ addressToPublicKeyHash toBitcoinJsLibNetwork address bitcoinNetwork
       = None.
Proof.
  intros Hlen Hnet Hin.
  pose proof (networks_limit _ Hin) as Hlimit.
  destruct (networks_facts _ Hin)
    as (_ & first & rest & chk & Hprefix & _ & Hlower & Hchk & Hrange
        & Hleader & Hlong).
  destruct (toWords_fromWords_any hash) as (Hwr & Hwlen & Hback).
  rewrite Hlen in Hwlen. change ((8 * Z.of_nat 32 + 4) / 5) with 52 in Hwlen.
  assert (Hwlen' : length (Bech32.toWords hash) = 52%nat) by lia.
  assert (Hwords : inRange 32 (0 :: Bech32.toWords hash))
    by (constructor; [lia | exact Hwr]).
  pose proof (PolymodFacts.checksumWords_inRange
                (fold_left PolymodFacts.feed (0 :: Bech32.toWords hash) chk))
    as Htail.
  assert (Htlen : length (PolymodFacts.checksumWords
                    (fold_left PolymodFacts.feed (0 :: Bech32.toWords hash) chk))
                  = 6%nat)
    by (unfold PolymodFacts.checksumWords; now rewrite length_map).
  pose proof (Bech32Facts.encode_Some (bech32 network) chk
                (0 :: Bech32.toWords hash)) as Henc.
  pose proof (Bech32Facts.decode_encoded (bech32 network) chk
                (0 :: Bech32.toWords hash)) as Hdec.
  generalize dependent (PolymodFacts.checksumWords
    (fold_left PolymodFacts.feed (0 :: Bech32.toWords hash) chk)).
  intros tail Htail Htlen Henc Hdec.
  assert (Hfits : (String.length (bech32 network) + 7
                   + length (0%Z :: Bech32.toWords hash) <= Bech32.LIMIT)%nat)
    by (cbn [length]; rewrite Hwlen'; exact Hlimit).
  specialize (Henc Hfits Hchk Hwords).
  assert (Hne : bech32 network <> EmptyString)
    by (rewrite Hprefix; discriminate).
  specialize (Hdec Hne Hfits Hlower Hchk Hrange Hwords).
  set (body := map Bech32.charOf ((0 :: Bech32.toWords hash) ++ tail)) in *.
  assert (Hblen : length body = 59%nat).
  { unfold body. rewrite length_map, length_app. cbn [length].
    rewrite Hwlen', Htlen. reflexivity. }
  clearbody body.
  exists (string_of_list_ascii
            (list_ascii_of_string (bech32 network) ++ "1"%char :: body)).
  assert (Hnotbase58 :
            Bs58check.decode
              (string_of_list_ascii
                 (list_ascii_of_string (bech32 network) ++ "1"%char :: body))
            = None
            \/ exists payload,
                 Bs58check.decode
                   (string_of_list_ascii
                      (list_ascii_of_string (bech32 network)
                         ++ "1"%char :: body)) = Some payload
                 /\ (26 < length payload)%nat).
  { destruct (Bs58check.decode _) as [payload|] eqn:Hb; [|now left].
    right. exists payload. split; [reflexivity|].
    rewrite Hprefix in Hb.
    cbn [list_ascii_of_string app string_of_list_ascii] in Hb.
    apply Bs58checkFacts.bs58check_decode_length in Hb
      as (buffer & Hbuf & Hplen).
    apply (Base58Facts.base58_decode_length first _ 30) in Hbuf;
      [lia | exact Hleader |].
    rewrite string_length_list, list_ascii_of_string_of_list_ascii.
    rewrite length_app, length_cons, Hblen, <- string_length_list.
    etransitivity; [exact Hlong|].
    apply Z.pow_le_mono_r; lia. }
  unfold outputScriptToAddress, addressToOutputScript, addressToPublicKeyHash.
  cbn [default]. unfold id. rewrite Hnet.
  split; [|split].
  - do 32 (destruct hash as [|? hash]; [discriminate|]).
    destruct hash; [|discriminate].
    unfold fromOutputScript, p2pkh_address_of_output, p2sh_address_of_output,
      p2wpkh_address_of_output, p2wsh_address_of_output.
    cbn [wshScript app length Nat.eqb andb].
    cbn [byteAt nth_error Byte.eqb andb skipn].
    now rewrite Henc.
  - unfold toOutputScript, fromBase58Check.
    destruct Hnotbase58 as [-> | (payload & -> & Hlong')].
    + rewrite Hdec. cbn [Z.eqb negb]. rewrite Hback, String.eqb_refl, Hlen.
      cbn [negb Nat.eqb]. unfold p2wsh_output. now rewrite Hlen.
    + destruct (Nat.ltb_spec (length payload) 21); [lia|].
      destruct (Nat.ltb_spec 21 (length payload)); [|lia].
      rewrite Hdec. cbn [Z.eqb negb]. rewrite Hback, String.eqb_refl, Hlen.
      cbn [negb Nat.eqb]. unfold p2wsh_output. now rewrite Hlen.
  - assert (Hlegacy : p2pkh_hash
                        (string_of_list_ascii
                           (list_ascii_of_string (bech32 network)
                              ++ "1"%char :: body)) network = None).
    { unfold p2pkh_hash.
      destruct Hnotbase58 as [-> | (payload & -> & Hlong')]; [reflexivity|].
      destruct payload as [|version payload]; [reflexivity|].
      destruct (negb _); [reflexivity|].
      cbn [length] in Hlong'.
      destruct (Nat.eqb_spec (length payload) 20); [lia|reflexivity]. }
    rewrite Hlegacy. unfold p2wpkh_hash.
    rewrite Hdec, Hback, String.eqb_refl, Z.eqb_refl, Hlen. reflexivity.
Qed.

End Library.

End WitnessScriptHashFacts.

(* ===================================================================== *)
(** ** Worked instances

    Each theorem above that carries hypotheses is applied here to concrete
    data, with the executable hash functions standing in for the libraries. *)
(* ===================================================================== *)

Module Scenario.
Import Fixtures.

Definition walletPubKeyHashHex : string :=
  "8db50eb52063ea9d98b3eac91489a90f738986f6".

(** A P2WPKH redeemer output script, 22 octets. *)
Definition redeemerScriptHex : string :=
  "00148db50eb52063ea9d98b3eac91489a90f738986f6".

Definition emptyTsBridge : TsBridge.MockBridge :=
  {| TsBridge._difficultyFactor := 6;
     TsBridge._pendingRedemptions := ∅;
     TsBridge._timedOutRedemptions := ∅;
     TsBridge._requestRedemptionLog := [];
     TsBridge._redemptionProofLog := [] |}.

(** A funding transaction: the transaction of [SingleTargetWallet], whose
    only output carries 1464114 sat. *)
Definition fundingTx : SolBridge.BitcoinTxInfo :=
  {| SolBridge.version := Core.version (movingFundsTx SingleTargetWallet);
     SolBridge.inputVector := Core.inputVector (movingFundsTx SingleTargetWallet);
     SolBridge.outputVector := Core.outputVector (movingFundsTx SingleTargetWallet);
     SolBridge.locktime := Core.locktime (movingFundsTx SingleTargetWallet) |}.

Definition reveal : SolBridge.DepositRevealInfo :=
  {| SolBridge.fundingOutputIndex := 0;
     SolBridge.blindingFactor := hex "f9f0c90d00039523";
     SolBridge.walletPubKeyHash := hex walletPubKeyHashHex;
     SolBridge.refundPubKeyHash := hex "28e081f285138ccbe389c1eb8985716230129f89";
     SolBridge.refundLocktime := hex "60bcea61";
     SolBridge.reveal_vault := 0 |}.

Definition env : SolBridge.Env :=
  {| SolBridge.msg_sender := 0x934b98637ca318a4d6e7ca6ffd1690b8e77df637;
     SolBridge.block_timestamp := 1700000000 |}.

Definition extra : list byte :=
  hex "a9b38ea6435c8941d6eda6a46b68e3e2117196995bd154ab55196396b03d9bda".

Abbreviation depositKey :=
  (SolBridge.depositKeyOf fundingTx (SolBridge.fundingOutputIndex reveal)).

(** Storage after the deposit has been revealed on a fresh contract. *)
Definition revealed : SolBridge.MockBridge :=
  SolBridge.transact env (SolBridge.CallReveal fundingTx reveal extra)
    SolBridge.initial.

(** A deposit of 10,000,000 sat, its sweep paying 9,990,000 sat. *)
Definition depositTxHash : list byte :=
  hex "c580e0e352570d90e303d912a506055ceeb0ee06f97dce6988c69941374f5479".

Definition sweptDeposit : Core.Deposit :=
  {| Core.depositor := 0x934b98637ca318a4d6e7ca6ffd1690b8e77df637;
     Core.vault := None;
     Core.amount := 10000000;
     Core.treasuryFee := 10000000 / 2000;
     Core.revealedAt := 1700000000;
     Core.sweptAt := 0 |}.

Definition sweepWallet : Core.Wallet :=
  {| Core.state := Core.Live; Core.mainUtxo := None |}.

Definition beforeSweep : Core.Bridge :=
  {| Core.wallets := {[ hex walletPubKeyHashHex := sweepWallet ]};
     Core.deposits := {[ (depositTxHash, 0) := sweptDeposit ]};
     Core.mergeRequests := [];
     Core.balances := ∅;
     Core.sweepTxMaxFee := 10000 |}.

Definition sweepTx : Core.BitcoinTxInfo :=
  {| Core.version := hex "01000000";
     Core.inputVector :=
       hex "01" ++ depositTxHash ++ hex "00000000" ++ hex "00" ++ hex "ffffffff";
     Core.outputVector :=
       hex "01" ++ hex "706f980000000000" ++ hex "16"
         ++ hex redeemerScriptHex;
     Core.locktime := hex "00000000" |}.

Definition noMainUtxo : Core.Utxo :=
  {| Core.txHash := repeat x00 32;
     Core.txOutputIndex := 0;
     Core.txOutputValue := 0 |}.

Definition sweepInput : Core.TxInput :=
  {| Core.prevTxHash := depositTxHash; Core.prevIndex := 0 |}.

Definition sweepOutput : Core.TxOutput :=
  {| Core.outValue := 9990000; Core.outScript := hex redeemerScriptHex |}.

Definition p2shOutput : Core.TxOutput :=
  {| Core.outValue := 1176924;
     Core.outScript := hex "a91486884e6be1525dab5ae0b451bd2c72cee67dcf4187" |}.

Definition afterIndivisible : Core.Bridge :=
  match submitFixture proofHolds Core.evenUpToRemainder
          MultipleTargetWalletsAndIndivisibleAmount with
  | Core.Accepted b => b
  | Core.Rejected _ => bridgeFor MultipleTargetWalletsAndIndivisibleAmount
  end.

End Scenario.

Module Witnesses.
Import Scenario Fixtures.


Lemma buildRedemptionKey_no_length_collision_witness :
  TsBridge.buildRedemptionKey walletPubKeyHashHex "0014"
  <> TsBridge.buildRedemptionKey walletPubKeyHashHex "00148d".
Proof.
  assert (H1 : parseHex walletPubKeyHashHex = Some (hex walletPubKeyHashHex))
    by (vm_compute; reflexivity).
  assert (H2 : length (hex walletPubKeyHashHex) = 20%nat)
    by (vm_compute; reflexivity).
  assert (H3 : length (Buffer_from_hex "0014")
               <> length (Buffer_from_hex "00148d"))
    by (vm_compute; discriminate).
  assert (H4 : TsBridge.collisionFree
                 (TsBridge.prefixedScript (Buffer_from_hex "0014"))
                 (TsBridge.prefixedScript (Buffer_from_hex "00148d"))).
  { intros Heq. exfalso. revert Heq.
    apply (proj1 (bool_decide_eq_false _)). vm_compute. reflexivity. }
  assert (H5 : TsBridge.collisionFree
                 (keccak256 (TsBridge.prefixedScript (Buffer_from_hex "0014"))
                    ++ hex walletPubKeyHashHex)
                 (keccak256 (TsBridge.prefixedScript (Buffer_from_hex "00148d"))
                    ++ hex walletPubKeyHashHex)).
  { intros Heq. exfalso. revert Heq.
    apply (proj1 (bool_decide_eq_false _)). vm_compute. reflexivity. }
  exact (proj2 (proj2 (proj2 (proj2
           (TsBridgeFacts.buildRedemptionKey_deterministic_no_length_collision
              walletPubKeyHashHex (hex walletPubKeyHashHex) "0014" "00148d"
              H1 H2 H3 H4 H5))))).
Defined.


Lemma sweptAt_set_once_witness :
  SolBridge.reachable revealed
  /\ SolBridge.sweptAt (SolBridge.deposits revealed depositKey) = 0
  /\ SolBridge.sweptAt
       (SolBridge.deposits
          (SolBridge.transact env (SolBridge.CallSweep depositKey) revealed)
          depositKey) = 1700000000
  /\ (SolBridge.sweptAt
        (SolBridge.deposits
           (SolBridge.transact env (SolBridge.CallSweep depositKey) revealed)
           depositKey)
      = SolBridge.sweptAt (SolBridge.deposits revealed depositKey)
      \/ (SolBridge.sweptAt (SolBridge.deposits revealed depositKey) = 0
          /\ SolBridge.sweptAt
               (SolBridge.deposits
                  (SolBridge.transact env (SolBridge.CallSweep depositKey)
                     revealed) depositKey) <> 0
          /\ SolBridge.revealedAt (SolBridge.deposits revealed depositKey) <> 0
          /\ SolBridge.revealedAt
               (SolBridge.deposits
                  (SolBridge.transact env (SolBridge.CallSweep depositKey)
                     revealed) depositKey)
             = SolBridge.revealedAt (SolBridge.deposits revealed depositKey)
          /\ SolBridge.CallSweep depositKey = SolBridge.CallSweep depositKey)).
Proof.
  assert (Hreach : SolBridge.reachable revealed)
    by (apply SolBridge.reachable_step, SolBridge.reachable_initial).
  split; [exact Hreach|].
  split; [vm_compute; reflexivity|].
  split; [vm_compute; reflexivity|].
  exact (proj1 (SolBridgeFacts.sweptAt_set_once revealed env
                  (SolBridge.CallSweep depositKey) depositKey [] Hreach)).
Defined.

Lemma reveal_treasuryFee_witness :
  0 < SolBridge._depositTreasuryFeeDivisor SolBridge.initial
  /\ SolBridge.revealDepositWithExtraData env fundingTx reveal extra
       SolBridge.initial
     = Ok (revealed, [SolBridge.DepositRevealed depositKey])
  /\ SolBridge.amount (SolBridge.deposits revealed depositKey) = 1464114
  /\ SolBridge.treasuryFee (SolBridge.deposits revealed depositKey) = 14641
  /\ exists fundingOutput fundingOutputAmount,
       BTCUtils.extractOutputAtIndex (SolBridge.outputVector fundingTx)
         (SolBridge.fundingOutputIndex reveal) = Ok fundingOutput
       /\ BTCUtils.extractValue fundingOutput = Ok fundingOutputAmount
       /\ SolBridge.treasuryFee (SolBridge.deposits revealed depositKey)
          = fundingOutputAmount
            / SolBridge._depositTreasuryFeeDivisor SolBridge.initial.
Proof.
  assert (H1 : 0 < SolBridge._depositTreasuryFeeDivisor SolBridge.initial)
    by (vm_compute; reflexivity).
  assert (H2 : SolBridge.revealDepositWithExtraData env fundingTx reveal extra
                 SolBridge.initial
               = Ok (revealed, [SolBridge.DepositRevealed depositKey]))
    by (vm_compute; reflexivity).
  split; [exact H1|]. split; [exact H2|].
  split; [vm_compute; reflexivity|]. split; [vm_compute; reflexivity|].
  destruct (SolBridgeFacts.reveal_treasuryFee env fundingTx reveal extra
              SolBridge.initial revealed
              [SolBridge.DepositRevealed depositKey] H1 H2)
    as (fo & v & Hout & Hval & _ & _ & Hfee & _).
  exists fo, v. split; [exact Hout|]. split; [exact Hval|]. exact Hfee.
Defined.

Lemma reveal_twice_fails_witness :
  SolBridge.revealedAt (SolBridge.deposits revealed depositKey) <> 0
  /\ SolBridge.revealDepositWithExtraData env fundingTx reveal extra revealed
     = Revert "Deposit already revealed"
  /\ SolBridge.transact env (SolBridge.CallReveal fundingTx reveal extra)
       revealed = revealed.
Proof.
  assert (H1 : SolBridge.revealedAt (SolBridge.deposits revealed depositKey)
               <> 0)
    by (vm_compute; discriminate).
  split; [exact H1|].
  destruct (SolBridgeFacts.reveal_twice_fails env fundingTx reveal extra
              revealed H1) as (Hfail & Hsame & _).
  split; [exact Hfail | exact Hsame].
Defined.

Lemma moving_funds_even_up_to_remainder_witness :
  submitFixture proofHolds Core.evenUpToRemainder
    MultipleTargetWalletsAndIndivisibleAmount = Core.Accepted afterIndivisible
  /\ exists outs,
       Core.parseOutputs
         (Core.outputVector
            (movingFundsTx MultipleTargetWalletsAndIndivisibleAmount))
       = Core.Accepted outs
       /\ map Core.targetOf outs
          = map Some
              (targetWalletsCommitment MultipleTargetWalletsAndIndivisibleAmount).
Proof.
  assert (H1 : submitFixture proofHolds Core.evenUpToRemainder
                 MultipleTargetWalletsAndIndivisibleAmount
               = Core.Accepted afterIndivisible)
    by (vm_compute; reflexivity).
  split; [exact H1|].
  destruct (proj1 (CoreFacts.moving_funds_even_up_to_remainder proofHolds
                     _ _ _ _ _ _ _ H1)) as (outs & Ho & Hcm & _).
  exists outs. split; [exact Ho | exact Hcm].
Defined.

Lemma moving_funds_script_hash_output_rejected_witness :
  Core.parseOutputs
    (Core.outputVector (movingFundsTx SingleTargetWalletButP2SH))
  = Core.Accepted [p2shOutput]
  /\ In p2shOutput [p2shOutput]
  /\ Core.isScriptHash p2shOutput = true
  /\ forall accepted,
       submitFixture proofHolds Core.evenUpToRemainder SingleTargetWalletButP2SH
       <> Core.Accepted accepted.
Proof.
  assert (H1 : Core.parseOutputs
                 (Core.outputVector (movingFundsTx SingleTargetWalletButP2SH))
               = Core.Accepted [p2shOutput])
    by (vm_compute; reflexivity).
  assert (H2 : In p2shOutput [p2shOutput]) by (left; reflexivity).
  assert (H3 : Core.isScriptHash p2shOutput = true)
    by (vm_compute; reflexivity).
  split; [exact H1|]. split; [exact H2|]. split; [exact H3|].
  exact (proj1 (proj2
           (CoreFacts.moving_funds_script_hash_output_rejected proofHolds
              Core.evenUpToRemainder
              (wallet_pubKeyHash SingleTargetWalletButP2SH)
              (movingFundsTx SingleTargetWalletButP2SH)
              (movingFundsProof SingleTargetWalletButP2SH)
              (fixtureMainUtxo SingleTargetWalletButP2SH)
              (targetWalletsCommitment SingleTargetWalletButP2SH)
              (bridgeFor SingleTargetWalletButP2SH)
              [p2shOutput] p2shOutput H1 H2 H3))).
Defined.

Lemma sweep_single_deposit_credit_witness :
  exists b',
    Core.submitDepositSweepProof proofHolds 1700003600
      (hex walletPubKeyHashHex) sweepTx
      {| Core.merkleProof := []; Core.txIndexInBlock := 0;
         Core.bitcoinHeaders := [] |}
      noMainUtxo beforeSweep = Core.Accepted b'
    /\ Core.balanceOf b' (Core.depositor sweptDeposit)
       - Core.balanceOf beforeSweep (Core.depositor sweptDeposit)
       = 10000000 - Core.treasuryFee sweptDeposit - 10000.
Proof.
  assert (H1 : Core.wallets beforeSweep !! hex walletPubKeyHashHex
               = Some sweepWallet) by (vm_compute; reflexivity).
  assert (H2 : Core.mainUtxo sweepWallet = None) by reflexivity.
  assert (H3 : proofHolds (Core.computeTxId sweepTx)
                 {| Core.merkleProof := []; Core.txIndexInBlock := 0;
                    Core.bitcoinHeaders := [] |} = Core.Accepted tt)
    by reflexivity.
  assert (H4 : Core.parseInputs (Core.inputVector sweepTx)
               = Core.Accepted [sweepInput]) by (vm_compute; reflexivity).
  assert (H5 : Core.deposits beforeSweep
                 !! (Core.prevTxHash sweepInput, Core.prevIndex sweepInput)
               = Some sweptDeposit) by (vm_compute; reflexivity).
  assert (H6 : Core.revealedAt sweptDeposit <> 0) by (vm_compute; discriminate).
  assert (H7 : Core.sweptAt sweptDeposit = 0) by reflexivity.
  assert (H8 : Core.parseOutputs (Core.outputVector sweepTx)
               = Core.Accepted [sweepOutput]) by (vm_compute; reflexivity).
  assert (H9 : 0 <= Core.amount sweptDeposit - Core.outValue sweepOutput
               <= Core.sweepTxMaxFee beforeSweep)
    by (vm_compute; split; discriminate).
  destruct (CoreFacts.sweep_single_deposit_credit proofHolds 1700003600
              (hex walletPubKeyHashHex) sweepTx
              {| Core.merkleProof := []; Core.txIndexInBlock := 0;
                 Core.bitcoinHeaders := [] |}
              noMainUtxo beforeSweep sweepWallet sweepInput sweptDeposit
              sweepOutput H1 H2 H3 H4 H5 H6 H7 H8 H9)
    as (b' & Hacc & _ & Hfixture & _).
  exists b'. split; [exact Hacc|].
  apply Hfixture; reflexivity.
Defined.

(** The round trip of the converter on the main net, for the public key
hash of BIP 173's examples and the SegWit encoding. *)
Lemma address_roundtrip_witness :
  length (hex "751e76e8199196d454941c45d1b3a323f1433bd6") = 20%nat
  /\ Address.supportedNetwork Address.Mainnet = Some Payments.bitcoin
  /\ In Payments.bitcoin Payments.networks
  /\ exists address,
       Address.publicKeyHashToAddress Address.supportedNetwork
         (hex "751e76e8199196d454941c45d1b3a323f1433bd6") true
         Address.Mainnet = Some address
       /\ Address.addressToPublicKeyHash Address.supportedNetwork address
            Address.Mainnet
          = Some (hex "751e76e8199196d454941c45d1b3a323f1433bd6").
Proof.
  assert (H1 : length (hex "751e76e8199196d454941c45d1b3a323f1433bd6")
               = 20%nat) by reflexivity.
  assert (H2 : Address.supportedNetwork Address.Mainnet
               = Some Payments.bitcoin) by reflexivity.
  assert (H3 : In Payments.bitcoin Payments.networks)
    by (left; reflexivity).
  split; [exact H1|]. split; [exact H2|]. split; [exact H3|].
  exact (AddressFacts.address_roundtrip Address.supportedNetwork
           (hex "751e76e8199196d454941c45d1b3a323f1433bd6") true
           Address.Mainnet Payments.bitcoin H1 H2 H3).
Defined.

End Witnesses.

(* ===================================================================== *)
(** ** Worked instances of the further properties *)
(* ===================================================================== *)

Module FurtherScenario.
Import Fixtures Scenario.

(** A block whose time stamp is 2^32. *)
Definition wrappedEnv : SolBridge.Env :=
  {| SolBridge.msg_sender := SolBridge.msg_sender env;
     SolBridge.block_timestamp := 2 ^ 32 |}.

(** Storage after a reveal in that block. *)
Definition revealedAtWrap : SolBridge.MockBridge :=
  SolBridge.transact wrappedEnv (SolBridge.CallReveal fundingTx reveal extra)
    SolBridge.initial.

(** The outputs of [fundingTx]: one P2PKH output of 1464114 sat. *)
Definition fundingOutputs : list (Z * list byte) :=
  [(1464114, hex "76a9142cd680318747b720d67bf4246eb7403b476adb3488ac")].

(** A reveal of an output the transaction does not have. *)
Definition revealSecondOutput : SolBridge.DepositRevealInfo :=
  {| SolBridge.fundingOutputIndex := 1;
     SolBridge.blindingFactor := SolBridge.blindingFactor reveal;
     SolBridge.walletPubKeyHash := SolBridge.walletPubKeyHash reveal;
     SolBridge.refundPubKeyHash := SolBridge.refundPubKeyHash reveal;
     SolBridge.refundLocktime := SolBridge.refundLocktime reveal;
     SolBridge.reveal_vault := SolBridge.reveal_vault reveal |}.

(** The redeemer script of [Scenario] in upper-case digits. *)
Definition redeemerScriptUpperHex : string :=
  "00148DB50EB52063EA9D98B3EAC91489A90F738986F6".

Abbreviation redemptionKey :=
  (TsBridge.hexlify
     (keccak256
        (keccak256 (TsBridge.prefixedScript (Buffer_from_hex redeemerScriptHex))
           ++ hex walletPubKeyHashHex))).

Definition storedRequest : TsBridge.RedemptionRequest :=
  {| TsBridge.redeemer :=
       {| TsBridge.identifierHex :=
            "0x934b98637ca318a4d6e7ca6ffd1690b8e77df637" |};
     TsBridge.redeemerOutputScript := redeemerScriptHex;
     TsBridge.requestedAmount := 9990000;
     TsBridge.treasuryFee := 0;
     TsBridge.txMaxFee := 10000;
     TsBridge.requestedAt := 1700007200 |}.

(** The public key hash of BIP 173's examples and its two main net
    addresses. *)
Definition exampleHash : list byte :=
  hex "751e76e8199196d454941c45d1b3a323f1433bd6".

Definition exampleSegwitAddress : string :=
  "bc1qw508d6qejxtdg4y5r3zarvary0c5xw7kv8f3t4".

Definition exampleUpperAddress : string :=
  "BC1QW508D6QEJXTDG4Y5R3ZARVARY0C5XW7KV8F3T4".

Definition exampleLegacyAddress : string :=
  "1BgGZ9tcN4rm9KBzDn7KprQz87SZ26SAMH".

(** The script hash of the P2SH fixture and the witness script hash of
    BIP 173's examples. *)
Definition exampleScriptHash : list byte :=
  hex "86884e6be1525dab5ae0b451bd2c72cee67dcf41".

Definition exampleWitnessScriptHash : list byte :=
  hex "1863143c14c5166804bd19203356da136c985678cd4d27a1b8c6329604903262".

(** A library release without later witness versions. *)
Definition noLaterScript (_ : string) (_ : Payments.Network)
  : option (list byte) := None.

Definition noLaterAddress (_ : list byte) (_ : Payments.Network)
  : option string := None.

End FurtherScenario.

Module FurtherWitnesses.
Import Fixtures Scenario FurtherScenario.

Lemma reachable_wellFormed_witness :
  SolBridge.reachable revealed
  /\ DepositRegistryFacts.wellFormed (SolBridge.deposits revealed depositKey).
Proof.
  assert (Hreach : SolBridge.reachable revealed)
    by (apply SolBridge.reachable_step, SolBridge.reachable_initial).
  split; [exact Hreach|].
  exact (DepositRegistryFacts.reachable_wellFormed revealed depositKey Hreach).
Defined.

Lemma transact_frame_witness :
  DepositRegistryFacts.touchedKey (SolBridge.CallSweep 1) <> Some 2
  /\ SolBridge.deposits
       (SolBridge.transact env (SolBridge.CallSweep 1) revealed) 2
     = SolBridge.deposits revealed 2.
Proof.
  assert (H1 : DepositRegistryFacts.touchedKey (SolBridge.CallSweep 1)
               <> Some 2) by discriminate.
  split; [exact H1|].
  exact (proj1 (DepositRegistryFacts.transact_frame env
                  (SolBridge.CallSweep 1) revealed 2 H1)).
Defined.


Lemma reveal_at_wrapped_timestamp_witness :
  SolBridge.revealDepositWithExtraData wrappedEnv fundingTx reveal extra
    SolBridge.initial
  = Ok (revealedAtWrap, [SolBridge.DepositRevealed depositKey])
  /\ SolBridge.block_timestamp wrappedEnv mod 2 ^ 32 = 0
  /\ SolBridge.revealedAt (SolBridge.deposits revealedAtWrap depositKey) = 0
  /\ SolBridge.sweepDeposit env depositKey revealedAtWrap
     = Revert "Deposit not revealed".
Proof.
  assert (H1 : SolBridge.revealDepositWithExtraData wrappedEnv fundingTx
                 reveal extra SolBridge.initial
               = Ok (revealedAtWrap, [SolBridge.DepositRevealed depositKey]))
    by (vm_compute; reflexivity).
  assert (H2 : SolBridge.block_timestamp wrappedEnv mod 2 ^ 32 = 0)
    by reflexivity.
  split; [exact H1|]. split; [exact H2|].
  destruct (DepositRegistryFacts.reveal_at_wrapped_timestamp wrappedEnv env
              fundingTx reveal extra SolBridge.initial revealedAtWrap
              [SolBridge.DepositRevealed depositKey] H1 H2)
    as (Hz & Hsweep & _).
  split; [exact Hz | exact Hsweep].
Defined.

Lemma reveal_records_funding_output_witness :
  SolBridge.outputVector fundingTx
  = OutputVectorFacts.serializedOutputs fundingOutputs
  /\ Forall OutputVectorFacts.shortOutput fundingOutputs
  /\ exists st',
       SolBridge.revealDepositWithExtraData env fundingTx reveal extra
         SolBridge.initial
       = Ok (st', [SolBridge.DepositRevealed depositKey])
       /\ SolBridge.amount (SolBridge.deposits st' depositKey) = 1464114.
Proof.
  assert (H1 : SolBridge.outputVector fundingTx
               = OutputVectorFacts.serializedOutputs fundingOutputs)
    by (vm_compute; reflexivity).
  assert (H2 : (length fundingOutputs < 253)%nat) by (cbn; lia).
  assert (H3 : Forall OutputVectorFacts.shortOutput fundingOutputs).
  { repeat constructor; cbn; lia. }
  assert (H4 : SolBridge.fundingOutputIndex reveal = Z.of_nat 0)
    by reflexivity.
  assert (H5 : fundingOutputs !! 0%nat
               = Some (1464114,
                       hex "76a9142cd680318747b720d67bf4246eb7403b476adb3488ac"))
    by reflexivity.
  assert (H6 : SolBridge.revealedAt
                 (SolBridge.deposits SolBridge.initial depositKey) = 0)
    by reflexivity.
  split; [exact H1|]. split; [exact H3|].
  destruct (OutputVectorFacts.reveal_records_funding_output env fundingTx
              reveal extra SolBridge.initial fundingOutputs 0 _
              H1 H2 H3 H4 H5 H6) as (st' & Hok & Hrec).
  exists st'. split; [exact Hok|]. now rewrite Hrec.
Defined.

Lemma reveal_index_out_of_range_witness :
  SolBridge.outputVector fundingTx
  = OutputVectorFacts.serializedOutputs fundingOutputs
  /\ SolBridge.revealDepositWithExtraData env fundingTx revealSecondOutput
       extra SolBridge.initial
     = Revert "Vout read overrun".
Proof.
  assert (H1 : SolBridge.outputVector fundingTx
               = OutputVectorFacts.serializedOutputs fundingOutputs)
    by (vm_compute; reflexivity).
  assert (H2 : (length fundingOutputs < 253)%nat) by (cbn; lia).
  assert (H3 : Z.of_nat (length fundingOutputs)
               <= SolBridge.fundingOutputIndex revealSecondOutput)
    by (cbn; lia).
  assert (H4 : SolBridge.revealedAt
                 (SolBridge.deposits SolBridge.initial
                    (SolBridge.depositKeyOf fundingTx
                       (SolBridge.fundingOutputIndex revealSecondOutput)))
               = 0) by reflexivity.
  split; [exact H1|].
  exact (proj1 (OutputVectorFacts.reveal_index_out_of_range env fundingTx
                  revealSecondOutput extra SolBridge.initial fundingOutputs
                  H1 H2 H3 H4)).
Defined.

Lemma reachable_ordered_witness :
  SolVault.reachable
    (SolVault.transact env (SolVault.CallCreate 7) SolVault.initial)
  /\ SolVaultFacts.ordered
       (SolVault.requests
          (SolVault.transact env (SolVault.CallCreate 7) SolVault.initial) 7).
Proof.
  assert (Hreach : SolVault.reachable
                     (SolVault.transact env (SolVault.CallCreate 7)
                        SolVault.initial))
    by (apply SolVault.reachable_step, SolVault.reachable_initial).
  split; [exact Hreach|].
  exact (SolVaultFacts.reachable_ordered _ 7 Hreach).
Defined.

Lemma create_then_finalize_witness :
  SolVault.reachable SolVault.initial
  /\ SolVault.requestedAt (SolVault.requests SolVault.initial 7) = 0
  /\ SolVault.uint64 (SolBridge.block_timestamp env) <> 0
  /\ SolVault.finalizeOptimisticMintingRequest env 7 SolVault.initial
     = Revert "Request does not exist"
  /\ exists st1 st2,
       SolVault.createOptimisticMintingRequest env 7 SolVault.initial = Ok st1
       /\ SolVault.finalizeOptimisticMintingRequest env 7 st1 = Ok st2
       /\ SolVault.optimisticMintingRequests st2 7
          = (SolVault.uint64 (SolBridge.block_timestamp env),
             SolVault.uint64 (SolBridge.block_timestamp env)).
Proof.
  assert (H1 : SolVault.reachable SolVault.initial)
    by apply SolVault.reachable_initial.
  assert (H2 : SolVault.requestedAt (SolVault.requests SolVault.initial 7) = 0)
    by reflexivity.
  assert (H3 : SolVault.uint64 (SolBridge.block_timestamp env) <> 0)
    by (vm_compute; discriminate).
  split; [exact H1|]. split; [exact H2|]. split; [exact H3|].
  destruct (SolVaultFacts.create_then_finalize env env SolVault.initial 7
              H1 H2 H3 H3)
    as (Hnone & st1 & st2 & Hcreate & _ & Hfinalize & Hget & _).
  split; [apply Hnone|].
  exists st1, st2. split; [exact Hcreate|]. split; [exact Hfinalize|].
  exact Hget.
Defined.

Lemma request_frame_witness :
  SolVaultFacts.touchedKey (SolVault.CallCreate 1) <> Some 2
  /\ SolVault.requests
       (SolVault.transact env (SolVault.CallCreate 1) SolVault.initial) 2
     = SolVault.requests SolVault.initial 2.
Proof.
  assert (H1 : SolVaultFacts.touchedKey (SolVault.CallCreate 1) <> Some 2)
    by discriminate.
  split; [exact H1|].
  exact (proj1 (SolVaultFacts.request_frame env (SolVault.CallCreate 1)
                  SolVault.initial 2 H1)).
Defined.

Lemma buildRedemptionKey_injective_witness :
  TsBridge.buildRedemptionKey walletPubKeyHashHex redeemerScriptHex
  = Some redemptionKey
  /\ TsBridge.buildRedemptionKey walletPubKeyHashHex redeemerScriptUpperHex
     = Some redemptionKey
  /\ Buffer_from_hex redeemerScriptHex
     = Buffer_from_hex redeemerScriptUpperHex.
Proof.
  assert (H1 : parseHex walletPubKeyHashHex = Some (hex walletPubKeyHashHex))
    by (vm_compute; reflexivity).
  assert (H2 : TsBridge.buildRedemptionKey walletPubKeyHashHex
                 redeemerScriptHex = Some redemptionKey)
    by (vm_compute; reflexivity).
  assert (H3 : TsBridge.buildRedemptionKey walletPubKeyHashHex
                 redeemerScriptUpperHex = Some redemptionKey)
    by (vm_compute; reflexivity).
  assert (H4 : TsBridge.collisionFree
                 (TsBridge.prefixedScript (Buffer_from_hex redeemerScriptHex))
                 (TsBridge.prefixedScript
                    (Buffer_from_hex redeemerScriptUpperHex)))
    by (intros _; vm_compute; reflexivity).
  assert (H5 : TsBridge.collisionFree
                 (keccak256 (TsBridge.prefixedScript
                               (Buffer_from_hex redeemerScriptHex))
                    ++ hex walletPubKeyHashHex)
                 (keccak256 (TsBridge.prefixedScript
                               (Buffer_from_hex redeemerScriptUpperHex))
                    ++ hex walletPubKeyHashHex))
    by (intros _; vm_compute; reflexivity).
  split; [exact H2|]. split; [exact H3|].
  exact (proj2 (RedemptionKeyFacts.buildRedemptionKey_injective
                  walletPubKeyHashHex redeemerScriptHex
                  walletPubKeyHashHex redeemerScriptUpperHex redemptionKey
                  (hex walletPubKeyHashHex) (hex walletPubKeyHashHex)
                  H1 H1 H2 H3 H4 H5)).
Defined.

Lemma buildRedemptionKey_lenient_script_witness :
  parseHex redeemerScriptHex = Some (hex redeemerScriptHex)
  /\ Buffer_from_hex "f" = []
  /\ TsBridge.buildRedemptionKey walletPubKeyHashHex
       (redeemerScriptHex +:+ "f")
     = TsBridge.buildRedemptionKey walletPubKeyHashHex redeemerScriptHex.
Proof.
  assert (H1 : parseHex redeemerScriptHex = Some (hex redeemerScriptHex))
    by (vm_compute; reflexivity).
  assert (H2 : Buffer_from_hex "f" = []) by reflexivity.
  split; [exact H1|]. split; [exact H2|].
  exact (proj1 (RedemptionKeyFacts.buildRedemptionKey_lenient_script
                  walletPubKeyHashHex redeemerScriptHex "f"
                  (hex redeemerScriptHex) H1 H2)).
Defined.

Lemma stored_request_found_witness :
  TsBridge.buildRedemptionKey walletPubKeyHashHex redeemerScriptHex
  = Some redemptionKey
  /\ TsBridge.pendingRedemptions
       (TsBridge.setPendingRedemptions
          (<[redemptionKey := storedRequest]>
             (TsBridge._pendingRedemptions emptyTsBridge)) emptyTsBridge)
       walletPubKeyHashHex redeemerScriptHex
     = Some storedRequest.
Proof.
  assert (H1 : TsBridge.buildRedemptionKey walletPubKeyHashHex
                 redeemerScriptHex = Some redemptionKey)
    by (vm_compute; reflexivity).
  split; [exact H1|].
  exact (proj1 (RedemptionKeyFacts.stored_request_found emptyTsBridge
                  walletPubKeyHashHex redeemerScriptHex redemptionKey
                  storedRequest H1)).
Defined.

Lemma publicKeyHashToAddress_injective_witness :
  length exampleHash = 20%nat
  /\ Address.supportedNetwork Address.Mainnet = Some Payments.bitcoin
  /\ In Payments.bitcoin Payments.networks
  /\ Address.publicKeyHashToAddress Address.supportedNetwork exampleHash true
       Address.Mainnet = Some exampleSegwitAddress
  /\ exampleHash = exampleHash /\ true = true.
Proof.
  assert (H1 : length exampleHash = 20%nat) by reflexivity.
  assert (H2 : Address.supportedNetwork Address.Mainnet
               = Some Payments.bitcoin) by reflexivity.
  assert (H3 : In Payments.bitcoin Payments.networks) by (left; reflexivity).
  assert (H4 : Address.publicKeyHashToAddress Address.supportedNetwork
                 exampleHash true Address.Mainnet = Some exampleSegwitAddress)
    by (vm_compute; reflexivity).
  split; [exact H1|]. split; [exact H2|]. split; [exact H3|].
  split; [exact H4|].
  exact (ConverterFacts.publicKeyHashToAddress_injective
           Address.supportedNetwork exampleHash exampleHash true true
           Address.Mainnet Payments.bitcoin exampleSegwitAddress
           H1 H1 H2 H3 H4 H4).
Defined.

Lemma segwit_address_rejected_on_other_network_witness :
  Payments.bech32 Payments.testnet <> Payments.bech32 Payments.bitcoin
  /\ Address.publicKeyHashToAddress Address.supportedNetwork exampleHash true
       Address.Mainnet = Some exampleSegwitAddress
  /\ Address.addressToPublicKeyHash Address.supportedNetwork
       exampleSegwitAddress Address.Testnet = None.
Proof.
  assert (H1 : length exampleHash = 20%nat) by reflexivity.
  assert (H2 : Address.supportedNetwork Address.Mainnet
               = Some Payments.bitcoin) by reflexivity.
  assert (H3 : Address.supportedNetwork Address.Testnet
               = Some Payments.testnet) by reflexivity.
  assert (H4 : In Payments.bitcoin Payments.networks) by (left; reflexivity).
  assert (H5 : Payments.bech32 Payments.testnet
               <> Payments.bech32 Payments.bitcoin) by discriminate.
  assert (H6 : Address.publicKeyHashToAddress Address.supportedNetwork
                 exampleHash true Address.Mainnet = Some exampleSegwitAddress)
    by (vm_compute; reflexivity).
  split; [exact H5|]. split; [exact H6|].
  exact (ConverterFacts.segwit_address_rejected_on_other_network
           Address.supportedNetwork exampleHash Address.Mainnet
           Address.Testnet Payments.bitcoin Payments.testnet
           exampleSegwitAddress H1 H2 H3 H4 H5 H6).
Defined.

Lemma addressToPublicKeyHash_length_witness :
  Address.addressToPublicKeyHash Address.supportedNetwork
    exampleLegacyAddress Address.Mainnet = Some exampleHash
  /\ length exampleHash = 20%nat.
Proof.
  assert (H1 : Address.addressToPublicKeyHash Address.supportedNetwork
                 exampleLegacyAddress Address.Mainnet = Some exampleHash)
    by (vm_compute; reflexivity).
  split; [exact H1|].
  exact (ConverterFacts.addressToPublicKeyHash_length
           Address.supportedNetwork exampleLegacyAddress Address.Mainnet
           exampleHash H1).
Defined.

Lemma segwit_address_shape_witness :
  Address.publicKeyHashToAddress Address.supportedNetwork exampleHash true
    Address.Mainnet = Some exampleSegwitAddress
  /\ String.length exampleSegwitAddress
     = (String.length (Payments.bech32 Payments.bitcoin) + 40)%nat.
Proof.
  assert (H1 : length exampleHash = 20%nat) by reflexivity.
  assert (H2 : Address.supportedNetwork Address.Mainnet
               = Some Payments.bitcoin) by reflexivity.
  assert (H3 : In Payments.bitcoin Payments.networks) by (left; reflexivity).
  assert (H4 : Address.publicKeyHashToAddress Address.supportedNetwork
                 exampleHash true Address.Mainnet = Some exampleSegwitAddress)
    by (vm_compute; reflexivity).
  split; [exact H4|].
  exact (proj1 (proj2 (ConverterFacts.segwit_address_shape
                         Address.supportedNetwork exampleHash Address.Mainnet
                         Payments.bitcoin exampleSegwitAddress
                         H1 H2 H3 H4))).
Defined.

Lemma accepted_address_is_canonical_witness :
  Address.addressToPublicKeyHash Address.supportedNetwork
    exampleUpperAddress Address.Mainnet = Some exampleHash
  /\ (Address.publicKeyHashToAddress Address.supportedNetwork exampleHash
        false Address.Mainnet = Some exampleUpperAddress
      \/ Address.publicKeyHashToAddress Address.supportedNetwork exampleHash
           true Address.Mainnet
         = Some (Bech32.mapString Bech32.lowerChar exampleUpperAddress)).
Proof.
  assert (H1 : Address.supportedNetwork Address.Mainnet
               = Some Payments.bitcoin) by reflexivity.
  assert (H2 : In Payments.bitcoin Payments.networks) by (left; reflexivity).
  assert (H3 : Address.addressToPublicKeyHash Address.supportedNetwork
                 exampleUpperAddress Address.Mainnet = Some exampleHash)
    by (vm_compute; reflexivity).
  split; [exact H3|].
  exact (CanonicalFacts.accepted_address_is_canonical
           Address.supportedNetwork exampleUpperAddress Address.Mainnet
           Payments.bitcoin exampleHash H1 H2 H3).
Defined.

Lemma addressToOutputScript_of_address_witness :
  Address.publicKeyHashToAddress Address.supportedNetwork exampleHash false
    Address.Mainnet = Some exampleLegacyAddress
  /\ AddressScripts.addressToOutputScript noLaterScript
       Address.supportedNetwork exampleLegacyAddress Address.Mainnet
     = Some ([x76; xa9; x14] ++ exampleHash ++ [x88; xac]).
Proof.
  assert (H1 : length exampleHash = 20%nat) by reflexivity.
  assert (H2 : Address.supportedNetwork Address.Mainnet
               = Some Payments.bitcoin) by reflexivity.
  assert (H3 : In Payments.bitcoin Payments.networks) by (left; reflexivity).
  assert (H4 : Address.publicKeyHashToAddress Address.supportedNetwork
                 exampleHash false Address.Mainnet = Some exampleLegacyAddress)
    by (vm_compute; reflexivity).
  split; [exact H4|].
  exact (AddressScriptsFacts.addressToOutputScript_of_address noLaterScript
           Address.supportedNetwork exampleHash false Address.Mainnet
           Payments.bitcoin exampleLegacyAddress H1 H2 H3 H4).
Defined.

Lemma outputScriptToAddress_of_script_witness :
  exists address,
    Address.publicKeyHashToAddress Address.supportedNetwork exampleHash true
      (default Address.Mainnet None) = Some address
    /\ AddressScripts.outputScriptToAddress noLaterAddress
         Address.supportedNetwork
         (AddressScriptsFacts.pkhScript true exampleHash) None = Some address
    /\ AddressScripts.addressToOutputScript noLaterScript
         Address.supportedNetwork address (default Address.Mainnet None)
       = Some (AddressScriptsFacts.pkhScript true exampleHash).
Proof.
  assert (H1 : length exampleHash = 20%nat) by reflexivity.
  assert (H2 : Address.supportedNetwork (default Address.Mainnet None)
               = Some Payments.bitcoin) by reflexivity.
  assert (H3 : In Payments.bitcoin Payments.networks) by (left; reflexivity).
  exact (AddressScriptsFacts.outputScriptToAddress_of_script noLaterScript
           noLaterAddress Address.supportedNetwork exampleHash true None
           Payments.bitcoin H1 H2 H3).
Defined.

Lemma legacy_address_rejected_on_other_network_witness :
  Payments.pubKeyHash Payments.testnet <> Payments.pubKeyHash Payments.bitcoin
  /\ Address.publicKeyHashToAddress Address.supportedNetwork exampleHash
       false Address.Mainnet = Some exampleLegacyAddress
  /\ Address.addressToPublicKeyHash Address.supportedNetwork
       exampleLegacyAddress Address.Testnet = None.
Proof.
  assert (H1 : length exampleHash = 20%nat) by reflexivity.
  assert (H2 : Address.supportedNetwork Address.Mainnet
               = Some Payments.bitcoin) by reflexivity.
  assert (H3 : Address.supportedNetwork Address.Testnet
               = Some Payments.testnet) by reflexivity.
  assert (H4 : 0 <= Payments.pubKeyHash Payments.bitcoin < 256)
    by (cbn; lia).
  assert (H5 : Payments.pubKeyHash Payments.testnet
               <> Payments.pubKeyHash Payments.bitcoin) by discriminate.
  assert (H6 : Address.publicKeyHashToAddress Address.supportedNetwork
                 exampleHash false Address.Mainnet = Some exampleLegacyAddress)
    by (vm_compute; reflexivity).
  split; [exact H5|]. split; [exact H6|].
  exact (NetworkBindingFacts.legacy_address_rejected_on_other_network
           Address.supportedNetwork exampleHash Address.Mainnet
           Address.Testnet Payments.bitcoin Payments.testnet
           exampleLegacyAddress H1 H2 H3 H4 H5 H6).
Defined.

Lemma addressToOutputScript_rejects_other_network_witness :
  (Payments.pubKeyHash Payments.testnet <> Payments.pubKeyHash Payments.bitcoin
   /\ Payments.scriptHash Payments.testnet
      <> Payments.pubKeyHash Payments.bitcoin)
  /\ Address.publicKeyHashToAddress Address.supportedNetwork exampleHash
       false Address.Mainnet = Some exampleLegacyAddress
  /\ AddressScripts.addressToOutputScript noLaterScript
       Address.supportedNetwork exampleLegacyAddress Address.Testnet = None.
Proof.
  assert (H1 : length exampleHash = 20%nat) by reflexivity.
  assert (H2 : Address.supportedNetwork Address.Mainnet
               = Some Payments.bitcoin) by reflexivity.
  assert (H3 : Address.supportedNetwork Address.Testnet
               = Some Payments.testnet) by reflexivity.
  assert (H4 : In Payments.bitcoin Payments.networks) by (left; reflexivity).
  assert (H5 : Payments.pubKeyHash Payments.testnet
               <> Payments.pubKeyHash Payments.bitcoin
               /\ Payments.scriptHash Payments.testnet
                  <> Payments.pubKeyHash Payments.bitcoin)
    by (split; discriminate).
  assert (H6 : Address.publicKeyHashToAddress Address.supportedNetwork
                 exampleHash false Address.Mainnet = Some exampleLegacyAddress)
    by (vm_compute; reflexivity).
  split; [exact H5|]. split; [exact H6|].
  exact (ScriptHashFacts.addressToOutputScript_rejects_other_network
           noLaterScript Address.supportedNetwork exampleHash false
           Address.Mainnet Address.Testnet Payments.bitcoin Payments.testnet
           exampleLegacyAddress H1 H2 H3 H4 H5 H6).
Defined.

Lemma script_hash_address_roundtrip_witness :
  exists address,
    AddressScripts.outputScriptToAddress noLaterAddress
      Address.supportedNetwork (ScriptHashFacts.shScript exampleScriptHash)
      (Some Address.Mainnet) = Some address
    /\ AddressScripts.addressToOutputScript noLaterScript
         Address.supportedNetwork address Address.Mainnet
       = Some (ScriptHashFacts.shScript exampleScriptHash)
    /\ Address.addressToPublicKeyHash Address.supportedNetwork address
         Address.Mainnet = None.
Proof.
  assert (H1 : length exampleScriptHash = 20%nat) by reflexivity.
  assert (H2 : Address.supportedNetwork Address.Mainnet
               = Some Payments.bitcoin) by reflexivity.
  assert (H3 : In Payments.bitcoin Payments.networks) by (left; reflexivity).
  exact (ScriptHashFacts.script_hash_address_roundtrip noLaterScript
           noLaterAddress Address.supportedNetwork exampleScriptHash
           Address.Mainnet Payments.bitcoin H1 H2 H3).
Defined.

Lemma witness_script_hash_address_roundtrip_witness :
  exists address,
    AddressScripts.outputScriptToAddress noLaterAddress
      Address.supportedNetwork
      (WitnessScriptHashFacts.wshScript exampleWitnessScriptHash)
      (Some Address.Mainnet) = Some address
    /\ AddressScripts.addressToOutputScript noLaterScript
         Address.supportedNetwork address Address.Mainnet
       = Some (WitnessScriptHashFacts.wshScript exampleWitnessScriptHash)
    /\ Address.addressToPublicKeyHash Address.supportedNetwork address
         Address.Mainnet = None.
Proof.
  assert (H1 : length exampleWitnessScriptHash = 32%nat) by reflexivity.
  assert (H2 : Address.supportedNetwork Address.Mainnet
               = Some Payments.bitcoin) by reflexivity.
  assert (H3 : In Payments.bitcoin Payments.networks) by (left; reflexivity).
  exact (WitnessScriptHashFacts.witness_script_hash_address_roundtrip
           noLaterScript noLaterAddress Address.supportedNetwork
           exampleWitnessScriptHash Address.Mainnet Payments.bitcoin
           H1 H2 H3).
Defined.

End FurtherWitnesses.
